(** * wizzair_monitor: a shallow embedding of the fare monitor

    The development follows [wizzair_monitor.py] function by function.
    Prices are JSON numbers, which Python reads as binary64 floats: they are
    values of the Standard Library's [spec_float] at precision 53, and [-],
    [/], [abs] and the comparisons are its IEEE 754 operations. Decimal texts
    (the literals [0.01] and [4.9], JSON numbers, [round(_, 2)], the [.2f]
    format) go through the correctly rounded conversions of the module [Num].
    An integer amount is a Python [int]; below 2^53 in magnitude it behaves in
    every operation of this program as the float of the same value, and it is
    modelled as that float.
    A Python [str] is a [string] that holds its UTF-8 bytes.
    The price store (a Python dict keyed by route id) is a [gmap string _].
    Everything the program does to the outside world (HTTP requests, Telegram
    messages, log records, sleeps, the state file) is recorded in a trace. *)

From Stdlib Require Import ZArith QArith Qabs Qround Qpower Lqa Lia.
From Stdlib Require Import Ascii String DecimalString DecimalN.
From Stdlib Require Import SpecFloat.
From stdpp Require Import base option list gmap strings.

Local Open Scope Z_scope.
Local Open Scope string_scope.

(** ** Numbers and their two-decimal rendering *)

Module Num.

(** A Python float. [S754_finite s m e] is [(-1)^s * m * 2^e]. *)
Definition float : Type := spec_float.

Definition prec : Z := 53.
Definition emax : Z := 1024.

(** The values that are binary64 numbers: a mantissa below 2^53 at the
    exponent that is canonical for it, between -1074 and 971. *)
Definition is_binary64 (x : float) : bool := valid_binary prec emax x.

(** [x - y], [x / y], [abs(x)], [x < y] and [x <= y] on floats. *)
Definition sub (x y : float) : float := SFsub prec emax x y.
Definition div (x y : float) : float := SFdiv prec emax x y.
Definition abs (x : float) : float := SFabs x.
Definition ltb (x y : float) : bool := SFltb x y.
Definition leb (x y : float) : bool := SFleb x y.

(** Python truthiness of a float: [0.0] and [-0.0] are false. *)
Definition truthy (x : float) : bool := negb (SFeqb x (S754_zero false)).


(** The sign bit. *)
Definition sign (x : float) : bool :=
  match x with
  | S754_zero s => s
  | S754_infinity s => s
  | S754_nan => false
  | S754_finite s _ _ => s
  end.

Definition Qlt_bool (x y : Q) : bool := negb (Qle_bool y x).

(** Rounding a rational to the nearest integer, ties to even. *)
Definition round_half_even (q : Q) : Z :=
  let f := Qfloor q in
  match Qcompare (q - inject_Z f) (1 # 2) with
  | Lt => f
  | Gt => f + 1
  | Eq => if Z.even f then f else f + 1
  end.

Definition pow2 (e : Z) : Q := (2 ^ e)%Q.

(** The absolute value of a finite float, exactly. *)
Definition magnitude (x : float) : Q :=
  match x with
  | S754_finite _ m e => inject_Z (Zpos m) * pow2 e
  | _ => 0
  end.

(** The integer part of the binary logarithm of a positive rational. *)
Definition ilog2 (q : Q) : Z :=
  let l := Z.log2 (Qnum q) - Z.log2 (Zpos (Qden q)) in
  if Qle_bool (pow2 l) q then l else l - 1.

(** The exponent of the binary64 numbers next to a positive rational:
    53 bits of mantissa, and not below the subnormal exponent. *)
Definition exponent (q : Q) : Z := Z.max (ilog2 q - 52) (-1074).

(** The binary64 number nearest to a rational that is not negative, ties
    to even: what [float] makes of a decimal text. A mantissa that rounds
    up to 2^53 moves to the next exponent; beyond the largest exponent the
    result is infinite. *)
Definition nearest (q : Q) : float :=
  if Qle_bool q 0 then S754_zero false
  else
    let e := exponent q in
    match round_half_even (q / pow2 e) with
    | Zpos m =>
        if (Zpos m =? 2 ^ 53)%Z
        then (if (e + 1 <=? emax - prec)%Z
              then S754_finite false (2 ^ 52)%positive (e + 1)
              else S754_infinity false)
        else (if (e <=? emax - prec)%Z
              then S754_finite false m e
              else S754_infinity false)
    | _ => S754_zero false
    end.

(** A decimal literal or JSON number as Python reads it. *)
Definition of_decimal (q : Q) : float :=
  if Qlt_bool q 0 then SFopp (nearest (- q)) else nearest q.

(** The number of hundredths shown by the two-decimal renderings: the
    exact magnitude times 100, rounded to the nearest integer, ties to
    even. *)
Definition hundredths (x : float) : Z := round_half_even (magnitude x * 100).

(** [round(x, 2)]: the float nearest to the two-decimal rendering; an
    infinity or a NaN is returned as it is. *)
Definition round2 (x : float) : float :=
  match x with
  | S754_finite true _ _ => SFopp (nearest (hundredths x # 100))
  | S754_finite false _ _ => nearest (hundredths x # 100)
  | _ => x
  end.

Definition digit (d : Z) : ascii := ascii_of_nat (48 + Z.to_nat d).

Definition digits (n : Z) : string :=
  NilZero.string_of_uint (N.to_uint (Z.to_N n)).

Definition two_decimals (h : Z) : string :=
  digits (h / 100)
    ++ String "." (String (digit (h / 10 mod 10)) (String (digit (h mod 10)) EmptyString)).

(** [f"{x:.2f}"] *)
Definition fmt_2f (x : float) : string :=
  (if sign x then "-" else EmptyString)
    ++ match x with
       | S754_nan => "nan"
       | S754_infinity _ => "inf"
       | _ => two_decimals (hundredths x)
       end.

(** Reading back the numeric content of a [.2f] rendering with [float]:
    an optional sign, then [nan], [inf], or an integer part, a dot and
    exactly two digits. *)
Definition digit_val (c : ascii) : option Z :=
  let n := Z.of_nat (nat_of_ascii c) in
  if ((48 <=? n)%Z && (n <=? 57)%Z)%bool then Some (n - 48) else None.

Fixpoint split_dot (s : string) : option (string * string) :=
  match s with
  | EmptyString => None
  | String c rest =>
      if Ascii.eqb c "."%char then Some (EmptyString, rest)
      else match split_dot rest with
           | Some (a, b) => Some (String c a, b)
           | None => None
           end
  end.

Definition parse_unsigned_2f (s : string) : option Z :=
  match split_dot s with
  | Some (ip, String c1 (String c2 EmptyString)) =>
      match NilZero.uint_of_string ip, digit_val c1, digit_val c2 with
      | Some u, Some d1, Some d2 => Some (Z.of_N (N.of_uint u) * 100 + d1 * 10 + d2)
      | _, _, _ => None
      end
  | _ => None
  end.

Definition parse_magnitude (s : string) : option float :=
  if String.eqb s "nan" then Some S754_nan
  else if String.eqb s "inf" then Some (S754_infinity false)
  else match parse_unsigned_2f s with
       | Some h => Some (nearest (h # 100))
       | None => None
       end.

Definition parse_2f (s : string) : option float :=
  match s with
  | String "-" rest =>
      match parse_magnitude rest with
      | Some x => Some (SFopp x)
      | None => None
      end
  | _ => parse_magnitude s
  end.

(** A string of ASCII decimal digits. *)
Fixpoint all_digits (s : string) : bool :=
  match s with
  | EmptyString => true
  | String c r =>
      (Nat.leb 48 (nat_of_ascii c) && Nat.leb (nat_of_ascii c) 57 && all_digits r)%bool
  end.

End Num.

(** ** [format_price] *)

(** [1 EUR = 4.9 RON]: the literal [4.9]. *)
Definition RON_PER_EUR : Num.float := Num.of_decimal (49 # 10).

Definition format_price (price : Num.float) (currency : string) : string :=
  if String.eqb currency "RON" then
    let price_eur := Num.round2 (Num.div price RON_PER_EUR) in
    Num.fmt_2f price ++ " RON (≈ " ++ Num.fmt_2f price_eur ++ " EUR)"
  else if String.eqb currency "EUR" then
    Num.fmt_2f price ++ " EUR"
  else
    Num.fmt_2f price ++ " " ++ currency.

(** ** Data model *)

(** An entry of [routes.json]. [adults] is optional ([route.get("adults", 1)]). *)
Record Route := {
  origin : string;
  destination : string;
  depart_date : string;
  adults : option Z;
}.

(** A value of the price store: [{"price": ..., "currency": ...}]. *)
Record Observation := {
  price : Num.float;
  currency : string;
}.

(** The fare-chart answer, as far as [check_route_price] reads it. A field
    that the code reads with [.get] is optional. *)
Record PriceObj := {
  amount : option Num.float;
  currencyCode : option string;
}.

Record Flight := {
  date : option string;
  priceType : option string;
  flight_price : option PriceObj;
}.

Record FareChart := {
  outboundFlights : option (list Flight);
}.

(** The request body of the fare-chart call. *)
Record FlightQuery := {
  departureStation : string;
  arrivalStation : string;
  query_date : string;
}.

Record Payload := {
  isRescueFare : bool;
  adultCount : Z;
  childCount : Z;
  dayInterval : Z;
  wdc : bool;
  isFlightChange : bool;
  flightList : list FlightQuery;
}.

(** What the HTTP layer ([requests] followed by [raise_for_status]) hands back:
    an exception of the transport (connection error, timeout), an HTTP error
    status on which [raise_for_status] raises [HTTPError], or the body. *)
Inductive HttpResult (A : Type) : Type :=
| NetworkError (e : string)
| ErrorStatus (status_code : Z) (text : string)
| HttpOk (body : A).
Arguments NetworkError {A} e.
Arguments ErrorStatus {A} status_code text.
Arguments HttpOk {A} body.

(** An answer as it comes off the wire, before [raise_for_status]: the
    request raised, or a response with its status code and text. *)
Inductive Wire :=
| Unreachable (e : string)
| Answered (status_code : Z) (text : string).

(** [raise_for_status] raises [HTTPError] for the statuses 400 to 599, and
    for no other. *)
Definition is_error_status (status_code : Z) : bool :=
  ((400 <=? status_code)%Z && (status_code <? 600)%Z)%bool.

(** What [requests.get] followed by [raise_for_status] makes of an answer. *)
Definition received (a : Wire) : HttpResult string :=
  match a with
  | Unreachable e => NetworkError e
  | Answered status_code text =>
      if is_error_status status_code then ErrorStatus status_code text else HttpOk text
  end.

(** ** Messages, log records and the trace *)

Inductive Arrow := Up | Down.

Inductive Message :=
| FetchFailed (origin_city destination_city depart_date : string)
| PriceChange (arrow : Arrow)
    (origin_city destination_city depart_date new_price old_price : string).

Definition render_arrow (a : Arrow) : string :=
  match a with Up => "⬆️" | Down => "⬇️" end.

(** The text handed to [send_telegram]. *)
Definition render (m : Message) : string :=
  match m with
  | FetchFailed oc dc d =>
      "⚠️ Не удалось получить цену для <b>" ++ oc ++ " → " ++ dc ++ "</b> на " ++ d
  | PriceChange a oc dc d new_price old_price =>
      render_arrow a ++ " <b>" ++ oc ++ " → " ++ dc ++ "</b>" ++ String "010" EmptyString
        ++ "Дата вылета: <b>" ++ d ++ "</b>" ++ String "010" EmptyString
        ++ "Цена: <b>" ++ new_price ++ "</b>" ++ String "010" EmptyString
        ++ "Старое: <b>" ++ old_price ++ "</b>"
  end.

Inductive Level := INFO | ERROR.

(** One constructor per [logging.info] / [logging.error] call of the source
    ([logging.debug] records are below the configured level). *)
Inductive LogRecord :=
| MonitoringStarted
| VersionUpdated (old_version new_version : string)
| VersionCurrent (version : string)
| VersionNotExtracted
| VersionError (e : string)
| TelegramSent
| TelegramError (e : string)
| NoPriceAvailable (target_date : string) (price_type : option string)
| PriceNotFound (target_date : string)
| FareHTTPError (origin destination : string) (status_code : Z) (text : string)
| FareRequestError (origin destination : string) (e : string)
| WriteError (e : string)
| UsingVersion (version : string)
| RoutesFileNotFound
| CheckingRoute (idx total : nat) (origin_city destination_city route_id : string)
| PriceUnchanged (origin_city destination_city : string)
| NoChanges
| NextCheck.

(** What a run leaves behind, in order. [Fetched] marks the return of
    [check_route_price] with its value, [LoadPrevPrices] the return of
    [load_prev_prices]; the others are the calls made to the outside. *)
Inductive Event :=
| Log (level : Level) (r : LogRecord)
| HttpGet (url : string)
| HttpPost (url : string) (payload : Payload)
| Telegram (msg : Message)
| Sleep (seconds : Z)
| LoadPrevPrices (data : gmap string Observation)
| Fetched (route : Route) (result : option (Num.float * string))
| SavePrevPrices (data : gmap string Observation).

(** ** Files and the environment *)

(** [prev_prices.json]: absent, present but not loadable, or a stored dict. *)
Inductive PricesFile :=
| NoFile
| Unparseable
| Stored (data : gmap string Observation).

(** [routes.json] as a pass finds it. *)
Inductive RoutesFile :=
| RoutesMissing
| RoutesUnreadable (e : string)
| RoutesLoaded (routes : list Route).

(** The outcome of writing the state file: written, [open] raised (the file
    is as before), or [json.dump] raised after [open("w")] emptied the file. *)
Inductive WriteResult :=
| Written
| OpenRaised (e : string)
| DumpRaised (e : string).

(** Everything the program does not control. Each call to the outside takes
    the current instant [now], so answers may vary over time and with the
    request. [decimal_digit] is the class of decimal digits (category Nd)
    beyond ASCII in the Unicode tables of the running interpreter: it is what
    [\d] matches in a [str] besides 0-9. *)
Record Env := {
  AIRPORT_CODES : gmap string string;
  decimal_digit : N -> bool;
  http_get : nat -> string -> HttpResult string;
  http_post : nat -> string -> Payload -> HttpResult (option FareChart);
  telegram_post : nat -> Message -> option string;
  routes_file : nat -> RoutesFile;
  fs_write : nat -> gmap string Observation -> WriteResult;
}.

(** The mutable state: the global [API_VERSION], the state file, the clock
    of outside calls and the trace so far. *)
Record World := {
  API_VERSION : string;
  PREV_PRICES_FILE : PricesFile;
  now : nat;
  trace : list Event;
}.

(** ** A state monad with exceptions *)

Inductive Result (A : Type) : Type :=
| Ok (a : A)
| Raised (e : string).
Arguments Ok {A} a.
Arguments Raised {A} e.

Definition M (A : Type) : Type := World -> Result A * World.

#[global] Instance M_ret : MRet M := fun A a w => (Ok a, w).

#[global] Instance M_bind : MBind M := fun A B f m w =>
  match m w with
  | (Ok a, w') => f a w'
  | (Raised e, w') => (Raised e, w')
  end.

Definition raise {A : Type} (e : string) : M A := fun w => (Raised e, w).

Definition emit (e : Event) : M unit := fun w =>
  (Ok tt, {| API_VERSION := API_VERSION w; PREV_PRICES_FILE := PREV_PRICES_FILE w;
             now := now w; trace := trace w ++ [e] |}).

(** The instant of the next outside call; the clock advances. *)
Definition tick : M nat := fun w =>
  (Ok (now w), {| API_VERSION := API_VERSION w; PREV_PRICES_FILE := PREV_PRICES_FILE w;
                  now := S (now w); trace := trace w |}).

Definition get_API_VERSION : M string := fun w => (Ok (API_VERSION w), w).

Definition set_API_VERSION (v : string) : M unit := fun w =>
  (Ok tt, {| API_VERSION := v; PREV_PRICES_FILE := PREV_PRICES_FILE w;
             now := now w; trace := trace w |}).

Definition read_PREV_PRICES_FILE : M PricesFile := fun w => (Ok (PREV_PRICES_FILE w), w).

Definition write_PREV_PRICES_FILE (f : PricesFile) : M unit := fun w =>
  (Ok tt, {| API_VERSION := API_VERSION w; PREV_PRICES_FILE := f;
             now := now w; trace := trace w |}).

Definition logging_info (r : LogRecord) : M unit := emit (Log INFO r).
Definition logging_error (r : LogRecord) : M unit := emit (Log ERROR r).
Definition time_sleep (seconds : Z) : M unit := emit (Sleep seconds).

(** ** Settings *)

Definition CHECK_INTERVAL_MINUTES : Z := 60.
Definition ROUTE_DELAY_SECONDS : Z := 5.
Definition BUILD_NUMBER_URL : string := "https://www.wizzair.com/buildnumber".
Definition DEFAULT_API_VERSION : string := "27.36.0".

(** ** The version pattern

    [re.search(r"https://be\.wizzair\.com/(\d+\.\d+\.\d+)", text)], group 1.
    The text is a [str], so [\d] is a decimal digit of Unicode: one of 0-9,
    or a code point beyond ASCII that the interpreter's tables class as a
    decimal digit. The ASCII dot is never a digit; so a greedy [\d+] followed
    by a literal dot never needs to give digits back, and taking the longest
    run of digits is the whole search at one position. *)

Module Pattern.

Definition byte (c : ascii) : N := N_of_ascii c.

(** The payload of a continuation byte [10xxxxxx]. *)
Definition continuation (c : ascii) : option N :=
  let b := byte c in
  if ((128 <=? b)%N && (b <? 192)%N)%bool then Some (b - 128)%N else None.

(** The code point that a UTF-8 text starts with, its bytes, and the rest
    of the text. *)
Definition code_point (s : string) : option (N * string * string) :=
  match s with
  | EmptyString => None
  | String a r1 =>
      let x := byte a in
      if (x <? 128)%N then Some (x, String a EmptyString, r1)
      else
        match r1 with
        | EmptyString => None
        | String b r2 =>
            match continuation b with
            | None => None
            | Some y =>
                if ((194 <=? x)%N && (x <? 224)%N)%bool
                then Some (((x - 192) * 64 + y)%N, String a (String b EmptyString), r2)
                else
                  match r2 with
                  | EmptyString => None
                  | String c r3 =>
                      match continuation c with
                      | None => None
                      | Some z =>
                          if ((224 <=? x)%N && (x <? 240)%N)%bool
                          then
                            let cp := (((x - 224) * 64 + y) * 64 + z)%N in
                            if (2048 <=? cp)%N
                            then Some (cp, String a (String b (String c EmptyString)), r3)
                            else None
                          else
                            match r3 with
                            | EmptyString => None
                            | String d r4 =>
                                match continuation d with
                                | None => None
                                | Some u =>
                                    let cp := ((((x - 240) * 64 + y) * 64 + z) * 64 + u)%N in
                                    if ((240 <=? x)%N && (x <? 245)%N
                                        && (65536 <=? cp)%N && (cp <? 1114112)%N)%bool
                                    then Some (cp,
                                               String a (String b (String c (String d
                                                 EmptyString))), r4)
                                    else None
                                end
                            end
                      end
                  end
            end
        end
  end.

Fixpoint strip_prefix (p s : string) : option string :=
  match p, s with
  | EmptyString, _ => Some s
  | String a p', String b s' => if Ascii.eqb a b then strip_prefix p' s' else None
  | String _ _, EmptyString => None
  end.

Definition HOST : string := "https://be.wizzair.com/".

Section Digits.

(** The decimal digits beyond ASCII. *)
Variable decimal : N -> bool.

(** [\d] on a code point. *)
Definition is_digit (cp : N) : bool :=
  if (cp <? 128)%N then ((48 <=? cp)%N && (cp <=? 57)%N)%bool else decimal cp.

(** The longest run of digits at the start of [s], reading at most [n]
    code points. *)
Fixpoint take_digits_upto (n : nat) (s : string) : string * string :=
  match n with
  | O => (EmptyString, s)
  | S n' =>
      match code_point s with
      | Some (cp, bytes, rest) =>
          if is_digit cp then
            let '(ds, r) := take_digits_upto n' rest in (bytes ++ ds, r)
          else (EmptyString, s)
      | None => (EmptyString, s)
      end
  end.

(** A text has no more code points than bytes. *)
Definition take_digits (s : string) : string * string :=
  take_digits_upto (String.length s) s.

(** [\d+] at the start of [s]: the digits and what follows. *)
Definition digits1 (s : string) : option (string * string) :=
  match take_digits s with
  | (EmptyString, _) => None
  | (ds, r) => Some (ds, r)
  end.

Definition dot (s : string) : option string :=
  match s with
  | String "." r => Some r
  | _ => None
  end.

(** [\d+\.\d+\.\d+] at the start of [s]. *)
Definition version_at (s : string) : option string :=
  '(a, r1) ← digits1 s;
  r2 ← dot r1;
  '(b, r3) ← digits1 r2;
  r4 ← dot r3;
  '(c, _) ← digits1 r4;
  Some (a ++ "." ++ b ++ "." ++ c).

Definition match_here (s : string) : option string :=
  strip_prefix HOST s ≫= version_at.

(** The leftmost match. The prefix starts with an ASCII letter, so it
    does not match inside the bytes of one code point. *)
Fixpoint search_version (text : string) : option string :=
  match match_here text with
  | Some v => Some v
  | None =>
      match text with
      | EmptyString => None
      | String _ rest => search_version rest
      end
  end.

End Digits.

End Pattern.

(** ** The program *)

Definition get_route_id (route : Route) : string :=
  origin route ++ "-" ++ destination route ++ "-" ++ depart_date route.

Definition farechart_url (api_version : string) : string :=
  "https://be.wizzair.com/" ++ api_version ++ "/Api/asset/farechart".

(** The [payload] dict of [check_route_price]. *)
Definition farechart_payload (origin destination depart_date : string) (adults : Z)
  : Payload :=
  {| isRescueFare := false;
     adultCount := adults;
     childCount := 0;
     dayInterval := 7;
     wdc := false;
     isFlightChange := false;
     flightList := [ {| departureStation := origin;
                        arrivalStation := destination;
                        query_date := depart_date ++ "T00:00:00" |} ] |}.

Section Program.

Variable env : Env.

Definition get_city_name_with_code (airport_code : string) : string :=
  let city_name := default airport_code (AIRPORT_CODES env !! airport_code) in
  if decide (city_name = airport_code) then city_name
  else city_name ++ " (" ++ airport_code ++ ")".

(** The whole body is inside [try ... except Exception]. *)
Definition get_current_api_version : M unit :=
  t ← tick;
  emit (HttpGet BUILD_NUMBER_URL);;
  match http_get env t BUILD_NUMBER_URL with
  | HttpOk text =>
      match Pattern.search_version (decimal_digit env) text with
      | Some new_version =>
          known ← get_API_VERSION;
          if decide (new_version ≠ known) then
            logging_info (VersionUpdated known new_version);;
            set_API_VERSION new_version
          else
            logging_info (VersionCurrent known)
      | None => logging_error VersionNotExtracted
      end
  | ErrorStatus status_code _ => logging_error (VersionError "HTTPError")
  | NetworkError e => logging_error (VersionError e)
  end.

(** [requests.post] without [raise_for_status]: only an exception of the
    transport is an error. *)
Definition send_telegram (msg : Message) : M unit :=
  t ← tick;
  emit (Telegram msg);;
  match telegram_post env t msg with
  | None => logging_info TelegramSent
  | Some e => logging_error (TelegramError e)
  end.

(** The [for flight in outbound_flights] loop with what follows it. *)
Fixpoint find_price (target_date : string) (outbound_flights : list Flight)
  : M (option (Num.float * string)) :=
  match outbound_flights with
  | [] =>
      logging_error (PriceNotFound target_date);;
      mret None
  | flight :: rest =>
      if decide (date flight = Some target_date) then
        if decide (priceType flight = Some "price") then
          let price := flight_price flight ≫= amount in
          let currency := flight_price flight ≫= currencyCode in
          match price, currency with
          | Some p, Some c =>
              if (Num.truthy p && negb (String.eqb c EmptyString))%bool
              then mret (Some (p, c))
              else find_price target_date rest
          | _, _ => find_price target_date rest
          end
        else
          logging_error (NoPriceAvailable target_date (priceType flight));;
          mret None
      else find_price target_date rest
  end.

Definition check_route_price (origin destination depart_date : string) (adults : Z)
  : M (option (Num.float * string)) :=
  let payload := farechart_payload origin destination depart_date adults in
  api_version ← get_API_VERSION;
  t ← tick;
  emit (HttpPost (farechart_url api_version) payload);;
  match http_post env t (farechart_url api_version) payload with
  | HttpOk (Some data) =>
      let target_date := depart_date ++ "T00:00:00" in
      find_price target_date (default [] (outboundFlights data))
  | HttpOk None =>
      logging_error (FareRequestError origin destination "JSONDecodeError");;
      mret None
  | ErrorStatus status_code text =>
      logging_error (FareHTTPError origin destination status_code text);;
      mret None
  | NetworkError e =>
      logging_error (FareRequestError origin destination e);;
      mret None
  end.

Definition load_prev_prices : M (gmap string Observation) :=
  f ← read_PREV_PRICES_FILE;
  let data := match f with
              | Stored data => data
              | Unparseable => ∅
              | NoFile => ∅
              end in
  emit (LoadPrevPrices data);;
  mret data.

(** The write is inside [try ... except Exception]: a failure is logged. *)
Definition save_prev_prices (data : gmap string Observation) : M unit :=
  t ← tick;
  emit (SavePrevPrices data);;
  match fs_write env t data with
  | Written => write_PREV_PRICES_FILE (Stored data)
  | OpenRaised e => logging_error (WriteError e)
  | DumpRaised e =>
      write_PREV_PRICES_FILE Unparseable;;
      logging_error (WriteError e)
  end.

(** Lines 235-245 of the loop body: whether the fetched price [p] counts as
    a change against the stored entry [old_price_data], and if so the
    message that is sent; [None] is the [else] branch (price unchanged). *)
Definition change_message (origin_city destination_city depart_date : string)
    (p : Num.float) (c : string) (old_price_data : option Observation) : option Message :=
  if match old_price_data with
     | None => true
     | Some old => Num.ltb (Num.of_decimal (1 # 100)) (Num.abs (Num.sub p (price old)))
     end
  then
    let old_price := price <$> old_price_data in
    let old_currency := currency <$> old_price_data in
    let arrow :=
      match old_price with
      | Some old => if (Num.truthy old && Num.ltb old p)%bool then Up else Down
      | None => Down
      end in
    let old_text :=
      match old_price, old_currency with
      | Some old, Some oc => if Num.truthy old then format_price old oc else "–"
      | _, _ => "–"
      end in
    Some (PriceChange arrow origin_city destination_city depart_date
            (format_price p c) old_text)
  else None.

(** The body of [for idx, route in enumerate(routes, start=1)] after the
    call of [check_route_price]: the failure message, or the staging of the
    new observation and the change message. [prev_prices] is the dict that
    was loaded, [cur_prices] its working copy. *)
Definition handle_result (prev_prices : gmap string Observation) (route : Route)
    (result : option (Num.float * string))
    (cur_prices : gmap string Observation) (any_changes : bool)
  : M (gmap string Observation * bool) :=
  let route_id := get_route_id route in
  let origin_city := get_city_name_with_code (origin route) in
  let destination_city := get_city_name_with_code (destination route) in
  match result with
  | None =>
      send_telegram (FetchFailed origin_city destination_city (depart_date route));;
      mret (cur_prices, any_changes)
  | Some (p, c) =>
      let old_price_data := prev_prices !! route_id in
      let cur_prices := <[route_id := {| price := p; currency := c |}]> cur_prices in
      match change_message origin_city destination_city (depart_date route)
              p c old_price_data with
      | Some msg =>
          send_telegram msg;;
          mret (cur_prices, true)
      | None =>
          logging_info (PriceUnchanged origin_city destination_city);;
          mret (cur_prices, any_changes)
      end
  end.

Definition check_route (prev_prices : gmap string Observation) (total idx : nat)
    (route : Route) (cur_prices : gmap string Observation) (any_changes : bool)
  : M (gmap string Observation * bool) :=
  logging_info (CheckingRoute idx total
                  (get_city_name_with_code (origin route))
                  (get_city_name_with_code (destination route))
                  (get_route_id route));;
  result ← check_route_price (origin route) (destination route) (depart_date route)
                             (default 1 (adults route));
  emit (Fetched route result);;
  st ← handle_result prev_prices route result cur_prices any_changes;
  time_sleep ROUTE_DELAY_SECONDS;;
  mret st.

Fixpoint for_routes (prev_prices : gmap string Observation) (total idx : nat)
    (routes : list Route) (cur_prices : gmap string Observation) (any_changes : bool)
  : M (gmap string Observation * bool) :=
  match routes with
  | [] => mret (cur_prices, any_changes)
  | route :: rest =>
      '(cur_prices, any_changes) ← check_route prev_prices total idx route
                                     cur_prices any_changes;
      for_routes prev_prices total (S idx) rest cur_prices any_changes
  end.

(** One turn of [while True]. Reading [routes.json] is outside any [try]:
    a file that exists but cannot be read raises out of the loop. *)
Definition main_loop_pass : M unit :=
  get_current_api_version;;
  api_version ← get_API_VERSION;
  logging_info (UsingVersion api_version);;
  t ← tick;
  match routes_file env t with
  | RoutesMissing =>
      logging_error RoutesFileNotFound;;
      time_sleep (CHECK_INTERVAL_MINUTES * 60)
  | RoutesUnreadable e => raise e
  | RoutesLoaded routes =>
      prev_prices ← load_prev_prices;
      '(cur_prices, any_changes) ← for_routes prev_prices (length routes) 1%nat routes
                                     prev_prices false;
      save_prev_prices cur_prices;;
      (if (any_changes : bool) then (mret tt : M unit) else logging_info NoChanges);;
      logging_info NextCheck;;
      time_sleep (CHECK_INTERVAL_MINUTES * 60)
  end.

(** The first [n] turns of the loop. *)
Fixpoint passes (n : nat) : M unit :=
  match n with
  | O => mret tt
  | S n' => main_loop_pass;; passes n'
  end.

Definition main_loop (n : nat) : M unit :=
  logging_info MonitoringStarted;;
  passes n.

End Program.

(** The world at start-up. *)
Definition initial_world (f : PricesFile) : World :=
  {| API_VERSION := DEFAULT_API_VERSION; PREV_PRICES_FILE := f; now := O; trace := [] |}.

(** ** Reading a trace *)

Definition telegrams (evs : list Event) : list Message :=
  omap (fun e => match e with Telegram m => Some m | _ => None end) evs.

Definition fetched (evs : list Event) : list (Route * option (Num.float * string)) :=
  omap (fun e => match e with Fetched r res => Some (r, res) | _ => None end) evs.

Definition posts (evs : list Event) : list (string * Payload) :=
  omap (fun e => match e with HttpPost u p => Some (u, p) | _ => None end) evs.

Definition saves (evs : list Event) : list (gmap string Observation) :=
  omap (fun e => match e with SavePrevPrices d => Some d | _ => None end) evs.

Definition loads (evs : list Event) : list (gmap string Observation) :=
  omap (fun e => match e with LoadPrevPrices d => Some d | _ => None end) evs.

Definition sleeps (evs : list Event) : list Z :=
  omap (fun e => match e with Sleep s => Some s | _ => None end) evs.

Definition errors (evs : list Event) : list LogRecord :=
  omap (fun e => match e with Log ERROR r => Some r | _ => None end) evs.

(** ** Reading a pass *)

(** Staging one fetch result into the working copy. *)
Definition stage (cur : gmap string Observation) (f : Route * option (Num.float * string))
  : gmap string Observation :=
  match f with
  | (r, Some (p, c)) => <[get_route_id r := {| price := p; currency := c |}]> cur
  | (_, None) => cur
  end.

(** A store overlaid with the successful results of a list of fetches, in order. *)
Definition overlay (cur : gmap string Observation) (fs : list (Route * option (Num.float * string)))
  : gmap string Observation :=
  foldl stage cur fs.

(** The message that one fetch result leads to, if any. *)
Definition notification (env : Env) (prev : gmap string Observation)
    (f : Route * option (Num.float * string)) : list Message :=
  let oc := get_city_name_with_code env (origin f.1) in
  let dc := get_city_name_with_code env (destination f.1) in
  match f.2 with
  | None => [FetchFailed oc dc (depart_date f.1)]
  | Some (p, c) =>
      option_list (change_message oc dc (depart_date f.1) p c (prev !! get_route_id f.1))
  end.

(** The fare-chart request for a route under a given API version. *)
Definition request_of (api_version : string) (route : Route) : string * Payload :=
  (farechart_url api_version,
   farechart_payload (origin route) (destination route) (depart_date route)
     (default 1 (adults route))).

(** The entries of a store, and of the state file, as a list. *)
Definition entries (data : gmap string Observation) : list (string * Observation) :=
  map_to_list data.

Definition file_entries (f : PricesFile) : option (list (string * Observation)) :=
  match f with
  | Stored data => Some (entries data)
  | Unparseable => None
  | NoFile => None
  end.

(** The answer to the request that [check_route_price] sends from [w]. *)
Definition answer (env : Env) (w : World) (o d dd : string) (a : Z)
  : HttpResult (option FareChart) :=
  http_post env (now w) (farechart_url (API_VERSION w)) (farechart_payload o d dd a).

(** Two worlds that differ by the events [evs] and possibly the clock. *)
Definition extends (w w' : World) (evs : list Event) : Prop :=
  API_VERSION w' = API_VERSION w /\
  PREV_PRICES_FILE w' = PREV_PRICES_FILE w /\
  trace w' = (trace w ++ evs)%list.

(** A stretch of trace with log records only, as far as the projections see. *)
Definition quiet (evs : list Event) : Prop :=
  telegrams evs = [] /\ fetched evs = [] /\ posts evs = [] /\
  saves evs = [] /\ loads evs = [] /\ sleeps evs = [].

(** ** The change detector of the specification *)

Inductive ChangeOutcome := NoPrior | Unchanged | Increased | Decreased.

(** The classification in the specification's words: no prior observation is
    [NoPrior]; a difference of at most 0.01 is [Unchanged]; otherwise
    [Increased] when the new amount is larger, else [Decreased]. The
    difference is the one the program's numbers give. *)
Definition classify (new_amount : Num.float) (prior : option Observation) : ChangeOutcome :=
  match prior with
  | None => NoPrior
  | Some old =>
      if Num.leb (Num.abs (Num.sub new_amount (price old))) (Num.of_decimal (1 # 100))
      then Unchanged
      else if Num.ltb (price old) new_amount then Increased
      else Decreased
  end.



(** The numeric content of a formatted price: the text up to the first
    space, read with [float]. *)
Fixpoint first_word (s : string) : string :=
  match s with
  | EmptyString => EmptyString
  | String c r => if Ascii.eqb c " "%char then EmptyString else String c (first_word r)
  end.

Definition numeric_content (text : string) : option Num.float :=
  Num.parse_2f (first_word text).

(** Idempotence of the formatting as the specification states it:
    formatting the numeric content of an output gives the output again. *)
Definition formatting_idempotent : Prop :=
  forall (p : Num.float) (c : string) (p' : Num.float),
    Num.is_binary64 p = true ->
    numeric_content (format_price p c) = Some p' ->
    format_price p' c = format_price p c.

(** The failure modes of version resolution in the specification's words: a
    network error, a response whose status is not 2xx, or a body without the
    pattern. *)
Definition resolution_fails (decimal : N -> bool) (a : Wire) : Prop :=
  match a with
  | Unreachable _ => True
  | Answered status_code text =>
      ~ (200 <= status_code < 300)%Z \/ Pattern.search_version decimal text = None
  end.

(** The fallback as the specification states it: after every such failure
    the known version is what it was. *)
Definition fallback_as_specified : Prop :=
  forall (env : Env) (w : World) (a : Wire),
    http_get env (now w) BUILD_NUMBER_URL = received a ->
    resolution_fails (decimal_digit env) a ->
    API_VERSION (get_current_api_version env w).2 = API_VERSION w.

(** What the specification says of a pass whose route registry cannot be
    loaded: nothing is fetched, loaded or saved, the pass sleeps for the full
    interval and the loop goes on with the next pass. *)
Definition unloadable_registry_aborts_pass (env : Env) (w : World) : Prop :=
  (forall routes, routes_file env (S (now w)) <> RoutesLoaded routes) ->
  exists w' evs,
    main_loop_pass env w = (Ok tt, w') /\
    trace w' = (trace w ++ evs)%list /\
    posts evs = [] /\ fetched evs = [] /\ loads evs = [] /\ saves evs = [] /\
    sleeps evs = [CHECK_INTERVAL_MINUTES * 60] /\
    (forall n, passes env (S n) w = passes env n w').

(** The frame property read route by route: a route whose fetch failed keeps
    its entry, a route whose fetch succeeded has its new observation. *)
Definition frame_per_route (env : Env) (w : World) : Prop :=
  forall w' evs cur prev,
    main_loop_pass env w = (Ok tt, w') ->
    trace w' = (trace w ++ evs)%list ->
    loads evs = [prev] -> saves evs = [cur] ->
    (forall r, (r, None) ∈ fetched evs ->
       cur !! get_route_id r = prev !! get_route_id r) /\
    (forall r p c, (r, Some (p, c)) ∈ fetched evs ->
       cur !! get_route_id r = Some {| price := p; currency := c |}).

(** A failure to write the state file ends the pass with the exception. *)
Definition save_failure_escalates (env : Env) (w : World) : Prop :=
  forall e, (forall t d, fs_write env t d = OpenRaised e) ->
    exists w', main_loop_pass env w = (Raised e, w').

(** Any calendar entry for the requested date with a price flag, an amount
    and a currency code is returned. *)
Definition entry_with_price_succeeds (env : Env) (w : World)
    (o d dd : string) (a : Z) : Prop :=
  forall data flights f p c,
    http_post env (now w) (farechart_url (API_VERSION w)) (farechart_payload o d dd a)
      = HttpOk (Some data) ->
    outboundFlights data = Some flights ->
    f ∈ flights ->
    date f = Some (dd ++ "T00:00:00") ->
    priceType f = Some "price" ->
    flight_price f = Some {| amount := Some p; currencyCode := Some c |} ->
    (check_route_price env o d dd a w).1 = Ok (Some (p, c)).

(** The failure kinds of the fetch contract. *)
Inductive FetchError := NotFound | Unavailable | Transport.

(** The returned value tells the failure kinds apart: some reading [kind] of
    it yields the kind of every failed fetch. *)
Definition failure_kinds_distinguished : Prop :=
  exists kind : option (Num.float * string) -> FetchError,
    forall env w o d dd a,
      let r := http_post env (now w) (farechart_url (API_VERSION w))
                 (farechart_payload o d dd a) in
      let res := (check_route_price env o d dd a w).1 in
      ((exists e, r = NetworkError e) \/ (exists st b, r = ErrorStatus st b) ->
         exists v, res = Ok v /\ kind v = Transport) /\
      (forall data fl, r = HttpOk (Some data) -> outboundFlights data = Some fl ->
         (forall f, f ∈ fl -> date f <> Some (dd ++ "T00:00:00")) ->
         exists v, res = Ok v /\ kind v = NotFound) /\
      (forall data f, r = HttpOk (Some data) -> outboundFlights data = Some [f] ->
         date f = Some (dd ++ "T00:00:00") -> priceType f <> Some "price" ->
         exists v, res = Ok v /\ kind v = Unavailable).

(** ** Concrete runs *)

Module Scenario.

Definition OTP_LTN : Route :=
  {| origin := "OTP"; destination := "LTN"; depart_date := "2025-01-01"; adults := None |}.

(** The same flight for two passengers: the same route id. *)
Definition OTP_LTN_pair : Route :=
  {| origin := "OTP"; destination := "LTN"; depart_date := "2025-01-01";
     adults := Some 2 |}.

Definition BUD_FCO : Route :=
  {| origin := "BUD"; destination := "FCO"; depart_date := "2025-02-03"; adults := Some 1 |}.

Definition entry (day : string) (kind : string) (fare : option (Num.float * string)) : Flight :=
  {| date := Some (day ++ "T00:00:00");
     priceType := Some kind;
     flight_price :=
       match fare with
       | Some (p, c) => Some {| amount := Some p; currencyCode := Some c |}
       | None => None
       end |}.

Definition calendar (entries : list Flight) : HttpResult (option FareChart) :=
  HttpOk (Some {| outboundFlights := Some entries |}).

(** The decimal digits beyond ASCII of Unicode 14: the first code point of
    each run of ten, and the mathematical digits. *)
Definition decimal_runs : list N :=
  [1632; 1776; 1984; 2406; 2534; 2662; 2790; 2918; 3046; 3174; 3302; 3430; 3558;
   3664; 3792; 3872; 4160; 4240; 6112; 6160; 6470; 6608; 6784; 6800; 6992; 7088;
   7232; 7248; 42528; 43216; 43264; 43472; 43504; 43600; 44016; 65296; 66720;
   68912; 69734; 69872; 69942; 70096; 70384; 70736; 70864; 71248; 71360; 71472;
   71904; 72016; 72784; 73040; 73120; 92768; 92864; 93008; 123200; 123632; 125264;
   130032]%N.

Definition unicode_decimal (cp : N) : bool :=
  (existsb (fun first => (first <=? cp)%N && (cp <? first + 10)%N) decimal_runs
   || (120782 <=? cp)%N && (cp <=? 120831)%N)%bool.

Definition world_of (get : HttpResult string)
    (post : Payload -> HttpResult (option FareChart))
    (routes : nat -> RoutesFile) (write : WriteResult) : Env :=
  {| AIRPORT_CODES := {[ "OTP" := "Bucharest"; "LTN" := "London Luton" ]};
     decimal_digit := unicode_decimal;
     http_get := fun _ _ => get;
     http_post := fun _ _ p => post p;
     telegram_post := fun _ _ => None;
     routes_file := routes;
     fs_write := fun _ _ => write |}.

Definition build_page : HttpResult string :=
  HttpOk "SSR https://be.wizzair.com/27.40.1".

(** One route, a fare of 115.50 EUR on the day. *)
Definition env_single : Env :=
  world_of build_page
    (fun _ => calendar [entry "2024-12-31" "price" (Some (Num.of_decimal 90, "EUR"));
                        entry "2025-01-01" "price" (Some (Num.of_decimal (231 # 2), "EUR"))])
    (fun _ => RoutesLoaded [OTP_LTN]) Written.

(** Two entries of the registry with one identity: the fetch for one
    passenger succeeds, the fetch for two passengers times out. *)
Definition env_pair : Env :=
  world_of build_page
    (fun p => if (adultCount p =? 1)%Z
              then calendar [entry "2025-01-01" "price" (Some (Num.of_decimal 100, "EUR"))]
              else NetworkError "timeout")
    (fun _ => RoutesLoaded [OTP_LTN; OTP_LTN_pair]) Written.

(** The state file cannot be opened for writing. *)
Definition env_readonly : Env :=
  world_of build_page
    (fun _ => calendar [entry "2025-01-01" "price" (Some (Num.of_decimal 100, "EUR"))])
    (fun _ => RoutesLoaded [OTP_LTN]) (OpenRaised "EROFS").

(** The entry of the day carries the amount 0. *)
Definition env_free : Env :=
  world_of build_page
    (fun _ => calendar [entry "2025-01-01" "price" (Some (Num.of_decimal 0, "EUR"))])
    (fun _ => RoutesLoaded [OTP_LTN]) Written.

(** The day appears twice in the calendar, first as sold out. *)
Definition env_twice : Env :=
  world_of build_page
    (fun _ => calendar [entry "2025-01-01" "soldOut" None;
                        entry "2025-01-01" "price" (Some (Num.of_decimal 100, "EUR"))])
    (fun _ => RoutesLoaded [OTP_LTN]) Written.

(** The three failure kinds. *)
Definition env_not_found : Env :=
  world_of build_page
    (fun _ => calendar [entry "2024-12-31" "price" (Some (Num.of_decimal 90, "EUR"))])
    (fun _ => RoutesLoaded [OTP_LTN]) Written.

Definition env_sold_out : Env :=
  world_of build_page
    (fun _ => calendar [entry "2025-01-01" "soldOut" None])
    (fun _ => RoutesLoaded [OTP_LTN]) Written.

Definition env_http_500 : Env :=
  world_of build_page (fun _ => ErrorStatus 500 "Internal Server Error")
    (fun _ => RoutesLoaded [OTP_LTN]) Written.

(** Version discovery is down. *)
Definition env_no_version : Env :=
  world_of (ErrorStatus 503 "Service Unavailable")
    (fun _ => calendar [entry "2025-01-01" "price" (Some (Num.of_decimal 100, "EUR"))])
    (fun _ => RoutesLoaded [OTP_LTN; BUD_FCO]) Written.


(** Version discovery is answered 300 Multiple Choices, with the build
    page as the text. *)
Definition env_multiple_choices : Env :=
  world_of (received (Answered 300 "SSR https://be.wizzair.com/27.40.1"))
    (fun _ => calendar [entry "2025-01-01" "price" (Some (Num.of_decimal 100, "EUR"))])
    (fun _ => RoutesLoaded [OTP_LTN]) Written.

(** [routes.json] exists and does not hold JSON. *)
Definition env_bad_routes : Env :=
  world_of build_page
    (fun _ => calendar [entry "2025-01-01" "price" (Some (Num.of_decimal 100, "EUR"))])
    (fun _ => RoutesUnreadable "JSONDecodeError") Written.

Definition stored_A : gmap string Observation :=
  {[ "OTP-LTN-2025-01-01" := {| price := Num.of_decimal 100; currency := "EUR" |} ]}.

Definition stored_zero : gmap string Observation :=
  {[ "OTP-LTN-2025-01-01" := {| price := Num.of_decimal 0; currency := "EUR" |} ]}.

End Scenario.

(** * More of the program *)

(** ** Start-up: the airport table *)

(** [airports.json] as [load_airports] finds it at import time. *)
Inductive AirportsFile :=
| AirportsMissing
| AirportsUnreadable (e : string)
| AirportsLoaded (codes : gmap string string).

(** The table and the error that is logged, if any. A file that is missing
    gives the empty table silently; one that cannot be read gives the empty
    table and an error record. *)
Definition load_airports (f : AirportsFile) : gmap string string * option string :=
  match f with
  | AirportsLoaded codes => (codes, None)
  | AirportsUnreadable e => (∅, Some e)
  | AirportsMissing => (∅, None)
  end.

(** ** Shapes of strings *)

(** A non-empty run of decimal digits of the class: the longest run of
    digits that the text starts with is the whole text. *)
Definition digit_run (decimal : N -> bool) (s : string) : Prop :=
  s <> EmptyString /\ Pattern.take_digits decimal s = (s, EmptyString).

(** [major.minor.patch], each a run of digits. *)
Definition version_shaped (decimal : N -> bool) (v : string) : Prop :=
  exists a b c,
    v = a ++ "." ++ b ++ "." ++ c
    /\ digit_run decimal a /\ digit_run decimal b /\ digit_run decimal c.

(** The text does not start with a digit. *)
Definition no_leading_digit (decimal : N -> bool) (s : string) : Prop :=
  (Pattern.take_digits decimal s).1 = EmptyString.

(** A non-empty run of the digits 0-9, and a version made of such runs. *)
Definition ascii_digit_run (s : string) : Prop :=
  s <> EmptyString /\ Num.all_digits s = true.

Definition ascii_version (v : string) : Prop :=
  exists a b c,
    v = a ++ "." ++ b ++ "." ++ c
    /\ ascii_digit_run a /\ ascii_digit_run b /\ ascii_digit_run c.

(** No ["-"] in the string. *)
Fixpoint hyphen_free (s : string) : bool :=
  match s with
  | EmptyString => true
  | String c r => (negb (Ascii.eqb c "-") && hyphen_free r)%bool
  end.

(** ** More readings of a trace *)

(** The events that a pass started in [w] appends to the trace. *)
Definition pass_events (env : Env) (w : World) : list Event :=
  drop (length (trace w)) (trace (main_loop_pass env w).2).

Definition infos (evs : list Event) : list LogRecord :=
  omap (fun e => match e with Log INFO r => Some r | _ => None end) evs.

Definition gets (evs : list Event) : list string :=
  omap (fun e => match e with HttpGet u => Some u | _ => None end) evs.

(** The trace without its log records: what the program did and returned. *)
Definition unlogged (evs : list Event) : list Event :=
  omap (fun e => match e with Log _ _ => None | _ => Some e end) evs.

Definition is_change (m : Message) : bool :=
  match m with
  | PriceChange _ _ _ _ _ _ => true
  | FetchFailed _ _ _ => false
  end.

Definition is_failure (m : Message) : bool := negb (is_change m).

(** A fetch that returned [None]. *)
Definition failed (f : Route * option (Num.float * string)) : bool :=
  match f.2 with
  | None => true
  | Some _ => false
  end.

(** Every stored observation has an amount other than 0 and a currency code
    that is not empty. *)
Definition truthy_store (m : gmap string Observation) : Prop :=
  forall k o, m !! k = Some o -> Num.truthy (price o) = true /\ currency o <> EmptyString.

(** The version that a pass started in [w] works with: the extracted one when
    discovery answers with one, else the known one. *)
Definition resolved_version (env : Env) (w : World) : string :=
  match http_get env (now w) BUILD_NUMBER_URL with
  | HttpOk text => default (API_VERSION w) (Pattern.search_version (decimal_digit env) text)
  | ErrorStatus _ _ => API_VERSION w
  | NetworkError _ => API_VERSION w
  end.

(** What [load_prev_prices] returns for a state of the price file. *)
Definition known_prices (f : PricesFile) : gmap string Observation :=
  match f with
  | Stored data => data
  | Unparseable => ∅
  | NoFile => ∅
  end.

(** What a stretch of the route loop leaves in the trace: no record that
    there were no changes, and no discovery request. *)
Definition loop_stretch (evs : list Event) : Prop :=
  (NoChanges ∉ infos evs) /\ gets evs = [].

(** A fetch result is either a failure or a price that Python takes as true. *)
Definition truthy_result (res : option (Num.float * string)) : Prop :=
  forall p c, res = Some (p, c) -> Num.truthy p = true /\ c <> EmptyString.

(** What the loop body does for one route, given what the fetch returned:
    the request, with its URL and body written out, the return of the fetch,
    the message if there is one, and the short sleep. *)
Definition route_actions (env : Env) (api_version : string)
    (prev : gmap string Observation) (f : Route * option (Num.float * string)) : list Event :=
  [HttpPost ("https://be.wizzair.com/" ++ api_version ++ "/Api/asset/farechart")
     {| isRescueFare := false;
        adultCount := default 1 (adults f.1);
        childCount := 0;
        dayInterval := 7;
        wdc := false;
        isFlightChange := false;
        flightList := [ {| departureStation := origin f.1;
                           arrivalStation := destination f.1;
                           query_date := depart_date f.1 ++ "T00:00:00" |} ] |};
   Fetched f.1 f.2]
  ++ (Telegram <$> notification env prev f)
  ++ [Sleep ROUTE_DELAY_SECONDS].

(** Every fetch returned what the store holds for its route. *)
Definition steady (prev : gmap string Observation)
    (fs : list (Route * option (Num.float * string))) : Prop :=
  Forall (fun f => exists p c,
            f.2 = Some (p, c)
            /\ prev !! get_route_id f.1 = Some {| price := p; currency := c |}) fs.

(** Version discovery gives no version at any time. *)
Definition discovery_down (env : Env) : Prop :=
  forall t, match http_get env t BUILD_NUMBER_URL with
            | HttpOk text => Pattern.search_version (decimal_digit env) text = None
            | ErrorStatus _ _ => True
            | NetworkError _ => True
            end.

(** The events that the first [n] turns of the loop, started in [w], append
    to the trace. *)
Definition loop_events (env : Env) (n : nat) (w : World) : list Event :=
  drop (length (trace w)) (trace (passes env n w).2).

(** ** Runs that differ in the log only *)

(** Two worlds with the same globals, the same clock and the same trace up
    to log records. *)
Definition same_actions (w1 w2 : World) : Prop :=
  API_VERSION w1 = API_VERSION w2 /\
  PREV_PRICES_FILE w1 = PREV_PRICES_FILE w2 /\
  now w1 = now w2 /\
  unlogged (trace w1) = unlogged (trace w2).

(** Two computations that, from such worlds, end the same way in such worlds. *)
Definition agree {A : Type} (m1 m2 : M A) : Prop :=
  forall w1 w2, same_actions w1 w2 ->
    (m1 w1).1 = (m2 w2).1 /\ same_actions (m1 w1).2 (m2 w2).2.

(** Two environments that differ at most in what Telegram answers. *)
Definition same_but_telegram (env env' : Env) : Prop :=
  AIRPORT_CODES env = AIRPORT_CODES env' /\
  (forall cp, decimal_digit env cp = decimal_digit env' cp) /\
  (forall t u, http_get env t u = http_get env' t u) /\
  (forall t u p, http_post env t u p = http_post env' t u p) /\
  (forall t, routes_file env t = routes_file env' t) /\
  (forall t d, fs_write env t d = fs_write env' t d).

(** ** More concrete runs *)

Module Startup.

(** The environment of a process that found [airports.json] as [f]:
    [AIRPORT_CODES = load_airports()]. *)
Definition env_started (f : AirportsFile) : Env :=
  {| AIRPORT_CODES := (load_airports f).1;
     decimal_digit := Scenario.unicode_decimal;
     http_get := fun _ _ => Scenario.build_page;
     http_post := fun _ _ _ =>
       Scenario.calendar [Scenario.entry "2025-01-01" "price" (Some (Num.of_decimal 100, "EUR"))];
     telegram_post := fun _ _ => None;
     routes_file := fun _ => RoutesLoaded [Scenario.OTP_LTN];
     fs_write := fun _ _ => Written |}.

(** [routes.json] exists but does not hold JSON. *)
Definition env_unreadable : Env :=
  Scenario.world_of Scenario.build_page
    (fun _ => Scenario.calendar
                [Scenario.entry "2025-01-01" "price" (Some (Num.of_decimal 100, "EUR"))])
    (fun _ => RoutesUnreadable "JSONDecodeError") Written.

(** Telegram cannot be reached; everything else as in [Scenario.env_single]. *)
Definition env_telegram_down : Env :=
  {| AIRPORT_CODES := AIRPORT_CODES Scenario.env_single;
     decimal_digit := decimal_digit Scenario.env_single;
     http_get := http_get Scenario.env_single;
     http_post := http_post Scenario.env_single;
     telegram_post := fun _ _ => Some "ConnectionError";
     routes_file := routes_file Scenario.env_single;
     fs_write := fs_write Scenario.env_single |}.

(** The fare of the day is the stored one, 100 EUR. *)
Definition env_steady : Env :=
  Scenario.world_of Scenario.build_page
    (fun _ => Scenario.calendar
                [Scenario.entry "2025-01-01" "price" (Some (Num.of_decimal 100, "EUR"))])
    (fun _ => RoutesLoaded [Scenario.OTP_LTN]) Written.

End Startup.

(** * Facts *)

(** ** Small runs of the pure parts *)

Example format_price_80_RON :
  format_price (Num.of_decimal 80) "RON" = "80.00 RON (≈ 16.33 EUR)".
Proof. vm_compute. reflexivity. Qed.

Example format_price_115_50_EUR :
  format_price (Num.of_decimal (231 # 2)) "EUR" = "115.50 EUR".
Proof. vm_compute. reflexivity. Qed.

(** The float nearest to 2.675 is below it, and the float 0.125 is a tie. *)
Example format_price_below_half :
  format_price (Num.of_decimal (2675 # 1000)) "EUR" = "2.67 EUR".
Proof. vm_compute. reflexivity. Qed.

Example parse_fmt_tie :
  Num.parse_2f (Num.fmt_2f (Num.of_decimal (1 # 8))) = Some (Num.of_decimal (12 # 100)).
Proof. vm_compute. reflexivity. Qed.

Example fmt_negative_small : Num.fmt_2f (Num.of_decimal (- (1 # 1000))) = "-0.00".
Proof. vm_compute. reflexivity. Qed.

Example fmt_special :
  Num.fmt_2f S754_nan = "nan" /\ Num.fmt_2f (S754_infinity true) = "-inf".
Proof. split; reflexivity. Qed.

(** The literals [0.01] and [4.9] as floats. *)
Example literal_cent :
  Num.of_decimal (1 # 100) = S754_finite false 5764607523034235 (-59).
Proof. vm_compute. reflexivity. Qed.

Example literal_rate :
  Num.of_decimal (49 # 10) = S754_finite false 5516909543528858 (-50).
Proof. vm_compute. reflexivity. Qed.

(** Reading a decimal is one correctly rounded division of integers. *)
Example nearest_is_division :
  Num.of_decimal (10001 # 100)
  = Num.div (S754_finite false 10001 0) (S754_finite false 100 0).
Proof. vm_compute. reflexivity. Qed.

Example search_version_doc :
  Pattern.search_version Scenario.unicode_decimal "SSR https://be.wizzair.com/27.36.0"
  = Some "27.36.0".
Proof. vm_compute. reflexivity. Qed.

Example search_version_second_occurrence :
  Pattern.search_version Scenario.unicode_decimal
    "https://be.wizzair.com/x https://be.wizzair.com/1.22.333-rc"
  = Some "1.22.333".
Proof. vm_compute. reflexivity. Qed.

Example search_version_two_components :
  Pattern.search_version Scenario.unicode_decimal "https://be.wizzair.com/27.36" = None.
Proof. vm_compute. reflexivity. Qed.

(** Decimal digits beyond ASCII are digits of the pattern. *)
Example search_version_arabic_indic :
  Pattern.search_version Scenario.unicode_decimal "x https://be.wizzair.com/٢٧.٣٦.٠ y"
  = Some "٢٧.٣٦.٠"
  /\ Pattern.search_version Scenario.unicode_decimal "https://be.wizzair.com/1.2.3٤"
     = Some "1.2.3٤".
Proof. vm_compute. split; reflexivity. Qed.

Section NumFacts.
Import Num.

Lemma Qlt_bool_iff (x y : Q) : Qlt_bool x y = true <-> (x < y)%Q.
Proof.
  unfold Qlt_bool. rewrite negb_true_iff.
  split.
  - intros H. apply Qnot_le_lt. intros Hle. apply Qle_bool_iff in Hle. congruence.
  - intros H. destruct (Qle_bool y x) eqn:E; [|reflexivity].
    apply Qle_bool_iff in E. exfalso. apply (Qlt_not_le _ _ H E).
Qed.

Lemma Qlt_bool_false_iff (x y : Q) : Qlt_bool x y = false <-> (y <= x)%Q.
Proof.
  unfold Qlt_bool. rewrite negb_false_iff. apply Qle_bool_iff.
Qed.

(** *** Rounding to the nearest integer *)

Lemma round_half_even_near (q : Q) :
  (Qabs (inject_Z (round_half_even q) - q) <= 1 # 2)%Q.
Proof.
  unfold round_half_even.
  pose proof (Qfloor_le q) as Hlo.
  pose proof (Qlt_floor q) as Hhi.
  rewrite inject_Z_plus in Hhi. change (inject_Z 1) with 1%Q in Hhi.
  set (f := Qfloor q) in *.
  destruct (Qcompare_spec (q - inject_Z f) (1 # 2)) as [E|E|E].
  - destruct (Z.even f);
      [|rewrite inject_Z_plus; change (inject_Z 1) with 1%Q];
      apply Qabs_Qle_condition; split; lra.
  - apply Qabs_Qle_condition; split; lra.
  - rewrite inject_Z_plus. change (inject_Z 1) with 1%Q.
    apply Qabs_Qle_condition; split; lra.
Qed.

Lemma round_half_even_bounds (q : Q) :
  (inject_Z (round_half_even q) - (1 # 2) <= q <= inject_Z (round_half_even q) + (1 # 2))%Q.
Proof.
  pose proof (round_half_even_near q) as H.
  apply Qabs_Qle_condition in H. lra.
Qed.

#[global] Instance round_half_even_comp : Proper (Qeq ==> eq) round_half_even.
Proof.
  intros q1 q2 E. unfold round_half_even.
  rewrite (Qfloor_comp _ _ E).
  assert (E' : (q1 - inject_Z (Qfloor q2) == q2 - inject_Z (Qfloor q2))%Q) by now rewrite E.
  now rewrite (Qcompare_comp _ _ E' (1 # 2) (1 # 2) (Qeq_refl _)).
Qed.

(** An integer within less than a half of [q] is what [q] rounds to. *)
Lemma round_half_even_close (z : Z) (q : Q) :
  (inject_Z z - (1 # 2) < q < inject_Z z + (1 # 2))%Q -> round_half_even q = z.
Proof.
  intros [Hlo Hhi].
  pose proof (round_half_even_bounds q) as [H1 H2].
  set (r := round_half_even q) in *.
  assert (Hlt1 : (inject_Z r < inject_Z (z + 1))%Q)
    by (rewrite inject_Z_plus; change (inject_Z 1) with 1%Q; lra).
  assert (Hlt2 : (inject_Z z < inject_Z (r + 1))%Q)
    by (rewrite inject_Z_plus; change (inject_Z 1) with 1%Q; lra).
  rewrite <- Zlt_Qlt in Hlt1, Hlt2. lia.
Qed.

Lemma round_half_even_inject (z : Z) (q : Q) :
  (q == inject_Z z)%Q -> round_half_even q = z.
Proof. intros E. apply round_half_even_close. lra. Qed.

Lemma round_half_even_nonneg (q : Q) : (0 <= q)%Q -> 0 <= round_half_even q.
Proof.
  intros Hq. pose proof (round_half_even_bounds q) as [H1 H2].
  set (r := round_half_even q) in *.
  assert (H : (inject_Z (-1) < inject_Z r)%Q) by (change (inject_Z (-1)) with (-1)%Q; lra).
  rewrite <- Zlt_Qlt in H. lia.
Qed.

Lemma round_half_even_le (q : Q) (n : Z) :
  (q <= inject_Z n)%Q -> round_half_even q <= n.
Proof.
  intros Hq. pose proof (round_half_even_bounds q) as [H1 H2].
  set (r := round_half_even q) in *.
  assert (H : (inject_Z r < inject_Z (n + 1))%Q)
    by (rewrite inject_Z_plus; change (inject_Z 1) with 1%Q; lra).
  rewrite <- Zlt_Qlt in H. lia.
Qed.

(** *** Powers of two *)

Lemma pow2_pos (e : Z) : (0 < pow2 e)%Q.
Proof. apply Qpower_0_lt. reflexivity. Qed.

Lemma pow2_plus (a b : Z) : (pow2 (a + b) == pow2 a * pow2 b)%Q.
Proof. apply Qpower_plus. discriminate. Qed.

Lemma pow2_le (a b : Z) : a <= b -> (pow2 a <= pow2 b)%Q.
Proof. intros H. apply Qpower_le_compat_l; [exact H|]. discriminate. Qed.

Lemma pow2_lt (a b : Z) : a < b -> (pow2 a < pow2 b)%Q.
Proof. intros H. apply Qpower_lt_compat_l; [exact H|]. reflexivity. Qed.

Lemma pow2_Z (n : Z) : 0 <= n -> (pow2 n == inject_Z (2 ^ n))%Q.
Proof. intros H. unfold pow2. now rewrite Zpower_Qpower. Qed.

Lemma pow2_succ (a : Z) : (pow2 (a + 1) == 2 * pow2 a)%Q.
Proof. rewrite pow2_plus. change (pow2 1) with 2%Q. lra. Qed.

(** *** The binary logarithm and the exponent *)

Lemma Qmult_lt_cancel (x y d : Q) : (0 < d)%Q -> (x * d < y * d)%Q -> (x < y)%Q.
Proof. intros Hd H. apply (Qmult_lt_r x y d Hd) in H. exact H. Qed.

Lemma Qmult_le_cancel (x y d : Q) : (0 < d)%Q -> (x * d <= y * d)%Q -> (x <= y)%Q.
Proof. intros Hd H. apply (Qmult_le_r x y d Hd) in H. exact H. Qed.

Lemma ilog2_spec (q : Q) :
  (0 < q)%Q -> (pow2 (ilog2 q) <= q < pow2 (ilog2 q + 1))%Q.
Proof.
  intros Hq. unfold ilog2.
  destruct q as [n d]. 
  assert (Hn : 0 < n) by (unfold Qlt in Hq; simpl in Hq; lia).
  cbn [Qnum Qden].
  set (a := Z.log2 n). set (b := Z.log2 (Zpos d)).
  pose proof (Z.log2_spec n Hn) as [Ha1 Ha2]. fold a in Ha1, Ha2.
  pose proof (Z.log2_spec (Zpos d) ltac:(lia)) as [Hb1 Hb2]. fold b in Hb1, Hb2.
  assert (Ha0 : 0 <= a) by apply Z.log2_nonneg.
  assert (Hb0 : 0 <= b) by apply Z.log2_nonneg.
  replace (Z.succ a) with (a + 1) in Ha2 by lia.
  replace (Z.succ b) with (b + 1) in Hb2 by lia.
  rewrite Z.pow_add_r in Ha2, Hb2 by lia. change (2 ^ 1) with 2 in Ha2, Hb2.
  (* everything as rationals *)
  set (q := n # d).
  assert (Hqd : (q * inject_Z (Zpos d) == inject_Z n)%Q).
  { unfold q, Qeq, Qmult, inject_Z; simpl. lia. }
  assert (HD : (0 < inject_Z (Zpos d))%Q) by (unfold Qlt, inject_Z; simpl; lia).
  assert (HA1 : (pow2 a <= inject_Z n)%Q) by (rewrite pow2_Z by lia; now rewrite <- Zle_Qle).
  assert (HA2 : (inject_Z n < 2 * pow2 a)%Q).
  { rewrite pow2_Z by lia. change 2%Q with (inject_Z 2). rewrite <- inject_Z_mult.
    rewrite <- Zlt_Qlt. lia. }
  assert (HB1 : (pow2 b <= inject_Z (Zpos d))%Q)
    by (rewrite pow2_Z by lia; now rewrite <- Zle_Qle).
  assert (HB2 : (inject_Z (Zpos d) < 2 * pow2 b)%Q).
  { rewrite pow2_Z by lia. change 2%Q with (inject_Z 2). rewrite <- inject_Z_mult.
    rewrite <- Zlt_Qlt. lia. }
  assert (HX : (pow2 (a - b) * pow2 b == pow2 a)%Q).
  { rewrite <- pow2_plus. now replace (a - b + b) with a by lia. }
  pose proof (pow2_pos (a - b)) as HXp. pose proof (pow2_pos b) as HBp.
  pose proof (pow2_pos a) as HAp.
  set (X := pow2 (a - b)) in *. set (A := pow2 a) in *. set (B := pow2 b) in *.
  set (D := inject_Z (Zpos d)) in *. set (N := inject_Z n) in *.
  destruct (Qle_bool X q) eqn:E.
  - apply Qle_bool_iff in E. split; [exact E|].
    rewrite pow2_succ. fold X.
    apply (Qmult_lt_cancel _ _ D HD).
    assert (H1 : (X * B <= X * D)%Q) by (apply Qmult_le_l; assumption).
    clearbody X A B D N q. lra.
  - assert (E' : (q < X)%Q).
    { apply Qnot_le_lt. intros H. apply Qle_bool_iff in H. congruence. }
    replace (a - b - 1 + 1) with (a - b) by lia. fold X. split; [|exact E'].
    assert (HX1 : (pow2 (a - b - 1) * 2 == X)%Q).
    { unfold X. replace (a - b) with (a - b - 1 + 1) at 2 by lia.
      rewrite pow2_succ. lra. }
    set (Y := pow2 (a - b - 1)) in *.
    apply (Qmult_le_cancel _ _ D HD).
    assert (H1 : (Y * D <= Y * (2 * B))%Q).
    { apply Qmult_le_l; [|lra]. unfold Y. apply pow2_pos. }
    clearbody X A B D N q Y. 
    assert (H2 : (Y * (2 * B) == X * B)%Q) by (rewrite <- HX1; ring).
    lra.
Qed.

Lemma exponent_spec (q : Q) :
  (0 < q)%Q ->
  -1074 <= exponent q /\
  (q < pow2 (exponent q + 53))%Q /\
  (-1074 < exponent q -> (pow2 (exponent q + 52) <= q)%Q).
Proof.
  intros Hq. pose proof (ilog2_spec q Hq) as [H1 H2]. unfold exponent.
  split; [lia|]. split.
  - eapply Qlt_le_trans; [exact H2|]. apply pow2_le. lia.
  - intros H. replace (Z.max (ilog2 q - 52) (-1074)) with (ilog2 q - 52) by lia.
    now replace (ilog2 q - 52 + 52) with (ilog2 q) by lia.
Qed.

(** *** Binary64 numbers *)

Lemma digits2_pos_spec (m : positive) : Zpos m < 2 ^ Zpos (digits2_pos m).
Proof.
  induction m as [m IH|m IH|]; cbn [digits2_pos].
  - rewrite Pos2Z.inj_succ, Z.pow_succ_r by lia. lia.
  - rewrite Pos2Z.inj_succ, Z.pow_succ_r by lia. lia.
  - reflexivity.
Qed.

Lemma is_binary64_bounds s m e :
  is_binary64 (S754_finite s m e) = true -> Zpos m < 2 ^ 53 /\ -1074 <= e <= 971.
Proof.
  unfold is_binary64, valid_binary, bounded, canonical_mantissa, fexp, emin, prec, emax.
  intros H. apply andb_true_iff in H. destruct H as [H1 H2].
  apply Z.eqb_eq in H1. apply Z.leb_le in H2.
  pose proof (digits2_pos_spec m) as Hd.
  assert (Hle : Zpos (digits2_pos m) <= 53) by lia.
  split; [|lia].
  eapply Z.lt_le_trans; [exact Hd|]. apply Z.pow_le_mono_r; lia.
Qed.

Lemma magnitude_finite s m e :
  (magnitude (S754_finite s m e) == inject_Z (Zpos m) * pow2 e)%Q.
Proof. reflexivity. Qed.

Lemma magnitude_pos s m e : (0 < magnitude (S754_finite s m e))%Q.
Proof.
  cbn [magnitude]. apply Qmult_lt_0_compat; [|apply pow2_pos].
  unfold Qlt, inject_Z; simpl; lia.
Qed.

(** *** The nearest binary64 number *)

Lemma nearest_value (q : Q) :
  (0 < q)%Q ->
  let E := exponent q in
  let M := round_half_even (q / pow2 E) in
  0 < M ->
  (M = 2 ^ 53 -> E + 1 <= 971) ->
  (M <> 2 ^ 53 -> E <= 971) ->
  exists m e,
    nearest q = S754_finite false m e /\
    (magnitude (S754_finite false m e) == inject_Z M * pow2 E)%Q.
Proof.
  intros Hq E M HM H1 H2. unfold nearest.
  assert (Hz : Qle_bool q 0 = false).
  { destruct (Qle_bool q 0) eqn:Hle; [|reflexivity].
    apply Qle_bool_iff in Hle. lra. }
  rewrite Hz. fold E. fold M.
  destruct M as [|m|m] eqn:EM; try lia.
  destruct (Z.eqb_spec (Zpos m) (2 ^ 53)) as [E53|N53].
  - specialize (H1 E53). unfold emax, prec.
    destruct (Z.leb_spec (E + 1) (1024 - 53)) as [_|Hgt]; [|lia].
    eexists _, _. split; [reflexivity|].
    cbn [magnitude]. rewrite pow2_succ, E53.
    assert (Hc : (inject_Z (Zpos (2 ^ 52)) * 2 == inject_Z (2 ^ 53))%Q) by reflexivity.
    rewrite <- Hc. ring.
  - specialize (H2 N53). unfold emax, prec.
    destruct (Z.leb_spec E (1024 - 53)) as [_|Hgt]; [|lia].
    eexists _, _. split; [reflexivity|]. reflexivity.
Qed.

Lemma cents_Q (h : Z) : (h # 100 == inject_Z h * (1 # 100))%Q.
Proof. unfold Qeq, Qmult, inject_Z; simpl. lia. Qed.

(** A finite float within less than half a hundredth of [h / 100] shows
    [h] hundredths. *)
Lemma hundredths_close (y : float) (h : Z) :
  ((h # 100) - (1 # 200) < magnitude y < (h # 100) + (1 # 200))%Q ->
  hundredths y = h.
Proof.
  intros [H1 H2]. unfold hundredths. apply round_half_even_close.
  rewrite cents_Q in H1, H2. lra.
Qed.

Lemma hundredths_near (x : float) :
  ((hundredths x # 100) - (1 # 200) <= magnitude x <= (hundredths x # 100) + (1 # 200))%Q.
Proof.
  unfold hundredths.
  pose proof (round_half_even_bounds (magnitude x * 100)) as [H1 H2].
  rewrite cents_Q. lra.
Qed.

(** The float that [float] reads from a two-decimal rendering of a
    binary64 number shows the same hundredths. *)
Lemma nearest_hundredths s m e :
  is_binary64 (S754_finite s m e) = true ->
  0 < hundredths (S754_finite s m e) ->
  exists m' e',
    nearest (hundredths (S754_finite s m e) # 100) = S754_finite false m' e' /\
    hundredths (S754_finite false m' e') = hundredths (S754_finite s m e).
Proof.
  intros Hvalid Hh.
  destruct (is_binary64_bounds s m e Hvalid) as [Hm He].
  pose proof (hundredths_near (S754_finite s m e)) as [Ha1 Ha2].
  set (h := hundredths (S754_finite s m e)) in *.
  set (q := h # 100) in *.
  assert (Hq : (0 < q)%Q) by (unfold q, Qlt; simpl; lia).
  assert (Hq1 : (1 # 100 <= q)%Q) by (unfold q, Qle; simpl; lia).
  destruct (exponent_spec q Hq) as (HE1 & HE2 & HE3).
  set (E := exponent q) in *.
  pose proof (pow2_pos E) as HP.
  assert (Hz : (q / pow2 E * pow2 E == q)%Q) by (field; lra).
  pose proof (round_half_even_bounds (q / pow2 E)) as [HM1 HM2].
  assert (Hz53 : (q / pow2 E <= inject_Z (2 ^ 53))%Q).
  { apply (Qmult_le_cancel _ _ (pow2 E) HP). rewrite Hz, <- pow2_Z by lia.
    rewrite <- pow2_plus, Z.add_comm. lra. }
  pose proof (round_half_even_le _ _ Hz53) as HM53.
  cbn [magnitude] in Ha1, Ha2.
  set (z := (q / pow2 E)%Q) in *.
  set (M := round_half_even z) in *.
  destruct (Z_le_gt_dec E (-7)) as [Hsmall|Hlarge].
  - (* the spacing is below a hundredth *)
    pose proof (pow2_le E (-7) Hsmall) as HP7.
    change (pow2 (-7)) with (1 # 128)%Q in HP7.
    assert (Hlo : ((inject_Z M - z) * pow2 E <= (1 # 2) * pow2 E)%Q)
      by (apply Qmult_le_compat_r; lra).
    assert (Hhi : ((z - inject_Z M) * pow2 E <= (1 # 2) * pow2 E)%Q)
      by (apply Qmult_le_compat_r; lra).
    assert (HMpos : 0 < M).
    { destruct (Z_lt_le_dec 0 M) as [H|H]; [exact H|exfalso].
      assert (H0 : (inject_Z M <= 0)%Q) by (change 0%Q with (inject_Z 0); now rewrite <- Zle_Qle).
      assert (H1 : (z * pow2 E <= (1 # 2) * pow2 E)%Q) by (apply Qmult_le_compat_r; lra).
      lra. }
    destruct (nearest_value q Hq HMpos) as (m' & e' & Hn & Hmag); [fold E; lia..|].
    exists m', e'. split; [exact Hn|].
    apply hundredths_close. fold q. rewrite Hmag. fold E. fold z. fold M.
    lra.
  - (* the spacing is above a hundredth: the float read back is the same *)
    assert (HE52 : (pow2 (E + 52) <= q)%Q) by (apply HE3; lia).
    assert (HeE : E <= e).
    { destruct (Z_le_gt_dec E e) as [H|H]; [exact H|exfalso].
      assert (Hm' : (inject_Z (Zpos m) <= inject_Z (2 ^ 53) - 1)%Q).
      { assert (H1 : (inject_Z (Zpos m) + 1 <= inject_Z (2 ^ 53))%Q).
        { change 1%Q with (inject_Z 1). rewrite <- inject_Z_plus, <- Zle_Qle. lia. }
        lra. }
      pose proof (pow2_pos e) as HPe.
      assert (Ha : (inject_Z (Zpos m) * pow2 e <= (inject_Z (2 ^ 53) - 1) * pow2 e)%Q)
        by (apply Qmult_le_compat_r; lra).
      assert (H53 : (inject_Z (2 ^ 53) * pow2 e == pow2 (e + 53))%Q).
      { rewrite <- pow2_Z by lia. rewrite <- pow2_plus. now rewrite Z.add_comm. }
      pose proof (pow2_le (e + 53) (E + 52) ltac:(lia)) as Hle.
      destruct (Z_le_gt_dec (-7) e) as [He7|He8].
      + pose proof (pow2_le (-7) e He7) as H7.
        change (pow2 (-7)) with (1 # 128)%Q in H7. lra.
      + pose proof (pow2_le (e + 53) 45 ltac:(lia)) as H45.
        pose proof (pow2_le 46 (E + 52) ltac:(lia)) as H46.
        change (pow2 45) with (inject_Z (2 ^ 45)) in H45.
        change (pow2 46) with (inject_Z (2 ^ 46)) in H46.
        assert (Hc : (inject_Z (2 ^ 46) == 2 * inject_Z (2 ^ 45))%Q) by reflexivity.
        assert (Hc' : (1 <= inject_Z (2 ^ 45))%Q) by (unfold Qle, inject_Z; simpl; lia).
        lra. }
    set (K := Zpos m * 2 ^ (e - E)).
    assert (HK : (inject_Z K * pow2 E == inject_Z (Zpos m) * pow2 e)%Q).
    { unfold K. rewrite inject_Z_mult, <- pow2_Z by lia.
      rewrite <- Qmult_assoc, <- pow2_plus. now replace (e - E + E) with e by lia. }
    assert (HKpos : 0 < K) by (unfold K; apply Z.mul_pos_pos; [lia|apply Z.pow_pos_nonneg; lia]).
    pose proof (pow2_le (-6) E ltac:(lia)) as HP6.
    change (pow2 (-6)) with (1 # 64)%Q in HP6.
    assert (HMK : M = K).
    { apply round_half_even_close. split.
      - destruct (Qlt_le_dec (inject_Z K - (1 # 2)) z) as [H|H]; [exact H|exfalso].
        assert (H1 : ((1 # 2) * pow2 E <= (inject_Z K - z) * pow2 E)%Q)
          by (apply Qmult_le_compat_r; lra).
        lra.
      - destruct (Qlt_le_dec z (inject_Z K + (1 # 2))) as [H|H]; [exact H|exfalso].
        assert (H1 : ((1 # 2) * pow2 E <= (z - inject_Z K) * pow2 E)%Q)
          by (apply Qmult_le_compat_r; lra).
        lra. }
    assert (HKe : K = 2 ^ 53 -> E + 1 <= e).
    { intros HK53. destruct (Z.eq_dec e E) as [Heq|Hne]; [|lia].
      unfold K in HK53. rewrite Heq, Z.sub_diag, Z.pow_0_r, Z.mul_1_r in HK53. lia. }
    destruct (nearest_value q Hq) as (m' & e' & Hn & Hmag);
      [fold E; fold z; fold M; lia..|].
    exists m', e'. split; [exact Hn|].
    unfold hundredths at 1. fold E z M in Hmag.
    rewrite Hmag, HMK, HK. reflexivity.
Qed.

Lemma hundredths_nonneg (x : float) : 0 <= hundredths x.
Proof.
  unfold hundredths. apply round_half_even_nonneg.
  destruct x as [| | |s m e]; cbn [magnitude]; try lra.
  pose proof (magnitude_pos s m e) as H. cbn [magnitude] in H. lra.
Qed.

(** *** Comparisons *)

Lemma SFcompare_antisym (x y : float) :
  SFcompare y x = option_map CompOpp (SFcompare x y).
Proof.
  destruct x as [sx|sx| |sx mx ex], y as [sy|sy| |sy my ey]; cbn;
    try reflexivity;
    try (destruct sx; reflexivity); try (destruct sy; reflexivity);
    try (destruct sx, sy; reflexivity).
  assert (Hm : Pos.compare_cont Eq my mx = CompOpp (Pos.compare_cont Eq mx my))
    by (symmetry; apply (Pos.compare_cont_antisym mx my Eq)).
  rewrite Hm, (Z.compare_antisym ey ex).
  destruct sx, sy; try reflexivity;
    destruct (ey ?= ex)%Z; cbn; try reflexivity;
    destruct (Pos.compare_cont Eq mx my); reflexivity.
Qed.

Lemma leb_not_ltb (x y : float) : leb x y = true -> ltb y x = false.
Proof.
  unfold leb, ltb, SFleb, SFltb. rewrite (SFcompare_antisym x y).
  destruct (SFcompare x y) as [[]|]; cbn; congruence.
Qed.

Lemma ltb_not_leb (x y : float) : ltb y x = true -> leb x y = false.
Proof.
  intros H. destruct (leb x y) eqn:E; [|reflexivity].
  apply leb_not_ltb in E. congruence.
Qed.




Lemma truthy_false (x : float) : truthy x = false -> exists s, x = S754_zero s.
Proof.
  unfold truthy, SFeqb. destruct x as [s|s| |s m e]; cbn; try discriminate; eauto.
  - destruct s; discriminate.
  - destruct s; discriminate.
Qed.

Lemma truthy_zero (s : bool) : truthy (S754_zero s) = false.
Proof. reflexivity. Qed.

Lemma ltb_zero_sign (s : bool) (p : float) :
  ltb (S754_zero s) p = ltb (S754_zero false) p.
Proof. now destruct p. Qed.

Lemma sub_zero_r (p : float) (s : bool) :
  abs (sub p (S754_zero s)) = abs p.
Proof. destruct p as [sp|sp| |sp mp ep]; try reflexivity. now destruct sp, s. Qed.

(** The literal [0.01]. *)
Lemma cent_value : of_decimal (1 # 100) = S754_finite false 5764607523034235 (-59).
Proof. vm_compute. reflexivity. Qed.

(** [abs(p - p) > 0.01] is false for every float. *)
Lemma sub_diag_small (p : float) :
  ltb (of_decimal (1 # 100)) (abs (sub p p)) = false.
Proof.
  rewrite cent_value.
  destruct p as [s|s| |s m e]; try (destruct s; reflexivity); try reflexivity.
  unfold sub, SFsub. cbn zeta. rewrite Z.sub_diag. reflexivity.
Qed.

End NumFacts.

Section Rendering.
Import Num.

Lemma all_digits_NilEmpty (d : Decimal.uint) :
  all_digits (NilEmpty.string_of_uint d) = true.
Proof. induction d; simpl; auto. Qed.

Lemma all_digits_digits (n : Z) : all_digits (digits n) = true.
Proof.
  unfold digits, NilZero.string_of_uint.
  destruct (N.to_uint (Z.to_N n)) eqn:E; try reflexivity;
    rewrite <- E; apply all_digits_NilEmpty.
Qed.

Lemma digits_nonempty (n : Z) : digits n <> EmptyString.
Proof.
  unfold digits, NilZero.string_of_uint.
  destruct (N.to_uint (Z.to_N n)); discriminate.
Qed.

Lemma digits_read_back (n : Z) :
  0 <= n ->
  exists u, NilZero.uint_of_string (digits n) = Some u /\ Z.of_N (N.of_uint u) = n.
Proof.
  intros Hn. unfold digits.
  pose proof (DecimalN.Unsigned.of_to (Z.to_N n)) as Hof.
  destruct (N.to_uint (Z.to_N n)) eqn:E;
    [ exists Decimal.zero; split; [reflexivity|];
      simpl in Hof; change (N.of_uint Decimal.zero) with 0%N; lia
    | eexists; split; [apply NilZero.usu; discriminate | rewrite Hof; lia] .. ].
Qed.

Lemma split_dot_digits (s r : string) :
  all_digits s = true -> split_dot (s ++ String "." r) = Some (s, r).
Proof.
  induction s as [|c s IH]; simpl; intros H.
  - reflexivity.
  - apply andb_true_iff in H. destruct H as [Hc Hs].
    destruct (Ascii.eqb_spec c "."%char) as [->|_]; [discriminate|].
    now rewrite IH.
Qed.

Lemma digit_val_digit (d : Z) : 0 <= d <= 9 -> digit_val (digit d) = Some d.
Proof.
  intros H. assert (Hd : In d [0;1;2;3;4;5;6;7;8;9]) by (simpl; lia).
  simpl in Hd. intuition subst; reflexivity.
Qed.

Lemma parse_unsigned_fmt (h : Z) :
  0 <= h -> parse_unsigned_2f (two_decimals h) = Some h.
Proof.
  intros Hh. unfold parse_unsigned_2f, two_decimals.
  rewrite split_dot_digits by apply all_digits_digits.
  destruct (digits_read_back (h / 100)) as (u & Hu & Hv).
  { apply Z.div_pos; lia. }
  rewrite Hu, !digit_val_digit
    by (match goal with |- _ <= ?a mod 10 <= _ =>
          pose proof (Z.mod_pos_bound a 10 ltac:(lia)); lia end).
  rewrite Hv. f_equal.
  Z.div_mod_to_equations. lia.
Qed.

(** A rendering of hundredths starts with a digit: it is neither a sign
    nor one of the words. *)
Lemma two_decimals_head (h : Z) :
  exists c r, two_decimals h = String c r /\
    (Nat.leb 48 (nat_of_ascii c) && Nat.leb (nat_of_ascii c) 57)%bool = true.
Proof.
  unfold two_decimals.
  pose proof (all_digits_digits (h / 100)) as Hd.
  pose proof (digits_nonempty (h / 100)) as Hne.
  destruct (digits (h / 100)) as [|c r]; [congruence|].
  cbn [all_digits] in Hd. apply andb_true_iff in Hd. destruct Hd as [Hc _].
  eexists c, _. split; [reflexivity|exact Hc].
Qed.

Lemma parse_magnitude_two_decimals (h : Z) :
  0 <= h -> parse_magnitude (two_decimals h) = Some (nearest (h # 100)).
Proof.
  intros Hh. unfold parse_magnitude. rewrite (parse_unsigned_fmt h Hh).
  destruct (two_decimals_head h) as (c & r & -> & Hc).
  destruct c as [[|] [|] [|] [|] [|] [|] [|] [|]]; try discriminate Hc; reflexivity.
Qed.

Lemma parse_2f_two_decimals (h : Z) :
  0 <= h -> parse_2f (two_decimals h) = Some (nearest (h # 100)).
Proof.
  intros Hh. rewrite <- (parse_magnitude_two_decimals h Hh).
  destruct (two_decimals_head h) as (c & r & -> & Hc).
  destruct c as [[|] [|] [|] [|] [|] [|] [|] [|]]; try discriminate Hc; reflexivity.
Qed.

(** Reading a [.2f] rendering back with [float] gives [round(x, 2)]. *)
Lemma parse_fmt_2f (x : float) : parse_2f (fmt_2f x) = Some (round2 x).
Proof.
  destruct x as [s|s| |s m e];
    [destruct s; vm_compute; reflexivity
    |destruct s; vm_compute; reflexivity
    |vm_compute; reflexivity|].
  pose proof (hundredths_nonneg (S754_finite s m e)) as Hh.
  unfold fmt_2f, round2. cbn [sign]. destruct s.
  - change (String "-" EmptyString ++ ?t) with (String "-"%char t).
    cbn [parse_2f]. now rewrite (parse_magnitude_two_decimals _ Hh).
  - change (EmptyString ++ ?t) with t. apply (parse_2f_two_decimals _ Hh).
Qed.

Lemma hundredths_sign s s' m e :
  hundredths (S754_finite s m e) = hundredths (S754_finite s' m e).
Proof. reflexivity. Qed.

(** Rounding a binary64 number to two decimals does not change its [.2f]
    rendering. *)
Lemma fmt_2f_round2 (x : float) :
  is_binary64 x = true -> fmt_2f (round2 x) = fmt_2f x.
Proof.
  intros Hx. destruct x as [s|s| |s m e]; try reflexivity.
  pose proof (hundredths_nonneg (S754_finite s m e)) as Hh.
  destruct (Z.eq_dec (hundredths (S754_finite s m e)) 0) as [H0|Hne].
  - unfold fmt_2f, round2. rewrite H0.
    change (nearest (0 # 100)) with (S754_zero false).
    destruct s; reflexivity.
  - destruct (nearest_hundredths s m e Hx ltac:(lia)) as (m' & e' & Hn & Hh').
    unfold round2. rewrite Hn. unfold fmt_2f.
    destruct s; cbn [SFopp negb sign];
      rewrite <- Hh'; reflexivity.
Qed.

(** The rendering of what was read back is the rendering again. *)
Lemma fmt_2f_idempotent (x : float) :
  is_binary64 x = true ->
  exists y, parse_2f (fmt_2f x) = Some y /\ fmt_2f y = fmt_2f x.
Proof.
  intros Hx. exists (round2 x). split; [apply parse_fmt_2f|now apply fmt_2f_round2].
Qed.

End Rendering.

Local Open Scope list_scope.

(** ** Running the monad *)

Lemma bind_Ok {A B} (m : M A) (f : A -> M B) w a w1 :
  m w = (Ok a, w1) -> (m ≫= f) w = f a w1.
Proof. intros H. unfold mbind, M_bind. now rewrite H. Qed.

Lemma bind_Raised {A B} (m : M A) (f : A -> M B) w e w1 :
  m w = (Raised e, w1) -> (m ≫= f) w = (Raised e, w1).
Proof. intros H. unfold mbind, M_bind. now rewrite H. Qed.

Ltac run :=
  unfold logging_info, logging_error, time_sleep;
  unfold mbind, mret, M_bind, M_ret, emit, tick, get_API_VERSION, set_API_VERSION,
       read_PREV_PRICES_FILE, write_PREV_PRICES_FILE, raise;
  cbn [API_VERSION PREV_PRICES_FILE now trace].

Lemma extends_refl w : extends w w [].
Proof. unfold extends. now rewrite app_nil_r. Qed.

Lemma extends_trans w1 w2 w3 e1 e2 :
  extends w1 w2 e1 -> extends w2 w3 e2 -> extends w1 w3 (e1 ++ e2).
Proof.
  unfold extends. intros (A1 & F1 & T1) (A2 & F2 & T2).
  repeat split; try congruence. rewrite T2, T1. now rewrite app_assoc.
Qed.

(** The projections of a trace distribute over concatenation. *)
Lemma telegrams_app a b : telegrams (a ++ b) = telegrams a ++ telegrams b.
Proof. apply omap_app. Qed.
Lemma fetched_app a b : fetched (a ++ b) = fetched a ++ fetched b.
Proof. apply omap_app. Qed.
Lemma posts_app a b : posts (a ++ b) = posts a ++ posts b.
Proof. apply omap_app. Qed.
Lemma saves_app a b : saves (a ++ b) = saves a ++ saves b.
Proof. apply omap_app. Qed.
Lemma loads_app a b : loads (a ++ b) = loads a ++ loads b.
Proof. apply omap_app. Qed.
Lemma sleeps_app a b : sleeps (a ++ b) = sleeps a ++ sleeps b.
Proof. apply omap_app. Qed.
Lemma errors_app a b : errors (a ++ b) = errors a ++ errors b.
Proof. apply omap_app. Qed.

Create Rewrite HintDb trace_proj.
#[export] Hint Rewrite telegrams_app fetched_app posts_app saves_app loads_app
  sleeps_app errors_app : trace_proj.

Section ProgramFacts.

Variable env : Env.

Lemma send_telegram_spec msg w :
  exists w' evs,
    send_telegram env msg w = (Ok tt, w') /\ extends w w' evs /\
    telegrams evs = [msg] /\ fetched evs = [] /\ posts evs = [] /\
    saves evs = [] /\ loads evs = [] /\ sleeps evs = [].
Proof.
  unfold send_telegram. run.
  destruct (telegram_post env (now w) msg) as [e|]; run;
    eexists _, [_; _]; (split; [reflexivity|]);
    (split; [unfold extends; cbn; rewrite <- app_assoc; auto|]);
    cbn; auto 10.
Qed.

Lemma find_price_spec target flights w :
  exists res w' evs,
    find_price target flights w = (Ok res, w') /\ extends w w' evs /\
    now w' = now w /\ quiet evs.
Proof.
  induction flights as [|flight rest IH]; cbn [find_price].
  - run. eexists _, _, [_]. split; [reflexivity|].
    split; [unfold extends; cbn; auto|]. split; [reflexivity|]. now cbv.
  - destruct (decide (date flight = Some target)); [|exact IH].
    destruct (decide (priceType flight = Some "price"%string)).
    + destruct (flight_price flight ≫= amount) as [p|]; [|exact IH].
      destruct (flight_price flight ≫= currencyCode) as [c|]; [|exact IH].
      destruct (Num.truthy p && negb (String.eqb c EmptyString))%bool; [|exact IH].
      run. eexists _, _, []. split; [reflexivity|].
      split; [apply extends_refl|]. split; [reflexivity|]. now cbv.
    + run. eexists _, _, [_]. split; [reflexivity|].
      split; [unfold extends; cbn; auto|]. split; [reflexivity|]. now cbv.
Qed.

Lemma check_route_price_spec o d dd a w :
  exists res w' evs,
    check_route_price env o d dd a w = (Ok res, w') /\ extends w w' evs /\
    posts evs = [(farechart_url (API_VERSION w), farechart_payload o d dd a)] /\
    telegrams evs = [] /\ fetched evs = [] /\ saves evs = [] /\ loads evs = [] /\
    sleeps evs = [].
Proof.
  unfold check_route_price. run.
  match goal with |- context [http_post env ?t ?u ?p] =>
    destruct (http_post env t u p) as [e|st body|[data|]] end.
  - run. eexists _, _, [_; _]. split; [reflexivity|].
    split; [unfold extends; cbn; rewrite <- app_assoc; auto|].
    cbn. eauto 10.
  - run. eexists _, _, [_; _]. split; [reflexivity|].
    split; [unfold extends; cbn; rewrite <- app_assoc; auto|].
    cbn. eauto 10.
  - match goal with |- context [find_price ?t ?f ?w0] =>
      destruct (find_price_spec t f w0) as (res & w' & evs & Hrun & Hext & _ & Hq) end.
    rewrite Hrun. eexists res, w', (_ :: evs). split; [reflexivity|].
    destruct Hext as (Hv & Hf & Ht). cbn in Hv, Hf, Ht.
    split; [unfold extends; rewrite Hv, Hf, Ht, <- app_assoc; auto|].
    destruct Hq as (Q1 & Q2 & Q3 & Q4 & Q5 & Q6).
    cbn. rewrite ?Q1, ?Q2, ?Q3, ?Q4, ?Q5, ?Q6.
    fold (posts evs). rewrite Q3. eauto 10.
  - run. eexists _, _, [_; _]. split; [reflexivity|].
    split; [unfold extends; cbn; rewrite <- app_assoc; auto|].
    cbn. eauto 10.
Qed.

Lemma handle_result_spec prev route result cur any w :
  exists any' w' evs,
    handle_result env prev route result cur any w
      = (Ok (stage cur (route, result), any'), w') /\
    extends w w' evs /\
    telegrams evs = notification env prev (route, result) /\
    fetched evs = [] /\ posts evs = [] /\ saves evs = [] /\ loads evs = [] /\
    sleeps evs = [].
Proof.
  unfold handle_result, notification. cbn [fst snd stage].
  destruct result as [[p c]|].
  - destruct (change_message _ _ _ p c (prev !! get_route_id route)) as [msg|].
    + destruct (send_telegram_spec msg w) as (w' & evs & Hrun & Hext & Hp).
      erewrite bind_Ok by exact Hrun. run. eexists _, w', evs. eauto.
    + run. eexists _, _, [_]. split; [reflexivity|].
      split; [unfold extends; cbn; auto|]. cbn. auto 10.
  - match goal with |- context [send_telegram env ?m] =>
      destruct (send_telegram_spec m w) as (w' & evs & Hrun & Hext & Hp) end.
    erewrite bind_Ok by exact Hrun. run. eexists _, w', evs. eauto.
Qed.

Lemma check_route_spec prev total idx route cur any w :
  exists result any' w' evs,
    check_route env prev total idx route cur any w
      = (Ok (stage cur (route, result), any'), w') /\
    extends w w' evs /\
    fetched evs = [(route, result)] /\
    telegrams evs = notification env prev (route, result) /\
    posts evs = [request_of (API_VERSION w) route] /\
    saves evs = [] /\ loads evs = [] /\ sleeps evs = [ROUTE_DELAY_SECONDS].
Proof.
  unfold check_route. run.
  match goal with |- context [check_route_price env ?o ?d ?dd ?a ?w0] =>
    destruct (check_route_price_spec o d dd a w0)
      as (result & w1 & e1 & Hrun1 & Hext1 & Hposts1 & Ht1 & Hf1 & Hs1 & Hl1 & Hz1)
  end.
  rewrite Hrun1.
  match goal with |- context [handle_result env prev route result cur any ?w0] =>
    destruct (handle_result_spec prev route result cur any w0)
      as (any' & w2 & e2 & Hrun2 & Hext2 & Ht2 & Hf2 & Hp2 & Hs2 & Hl2 & Hz2)
  end.
  rewrite Hrun2.
  eexists result, any', _, (Log INFO _ :: e1 ++ Fetched route result :: e2 ++ [Sleep ROUTE_DELAY_SECONDS]).
  split; [reflexivity|].
  destruct Hext1 as (V1 & F1 & T1). destruct Hext2 as (V2 & F2 & T2).
  cbn in V1, F1, T1, V2, F2, T2.
  split.
  { unfold extends; cbn. rewrite V2, V1, F2, F1, T2, T1.
    repeat split. rewrite <- !app_assoc. reflexivity. }
  change (Log INFO ?r :: ?l) with ([Log INFO r] ++ l).
  change (Fetched route result :: ?l) with ([Fetched route result] ++ l).
  autorewrite with trace_proj.
  rewrite Ht1, Hf1, Hs1, Hl1, Hz1, Ht2, Hf2, Hp2, Hs2, Hl2, Hz2, Hposts1.
  cbn. rewrite !app_nil_r. eauto 10.
Qed.

Lemma for_routes_spec prev total routes : forall idx cur any w,
  exists cur' any' w' evs,
    for_routes env prev total idx routes cur any w = (Ok (cur', any'), w') /\
    extends w w' evs /\
    cur' = overlay cur (fetched evs) /\
    (fetched evs).*1 = routes /\
    telegrams evs = concat (notification env prev <$> fetched evs) /\
    posts evs = request_of (API_VERSION w) <$> routes /\
    saves evs = [] /\ loads evs = [].
Proof.
  induction routes as [|route rest IH]; intros idx cur any w; cbn [for_routes].
  - run. eexists cur, any, w, []. split; [reflexivity|].
    split; [apply extends_refl|]. cbn. auto 10.
  - destruct (check_route_spec prev total idx route cur any w)
      as (result & any1 & w1 & e1 & Hrun1 & Hext1 & Hf1 & Ht1 & Hp1 & Hs1 & Hl1 & _).
    erewrite bind_Ok by exact Hrun1. cbn beta iota.
    destruct (IH (S idx) (stage cur (route, result)) any1 w1)
      as (cur' & any' & w' & e2 & Hrun2 & Hext2 & Hcur & Hf2 & Ht2 & Hp2 & Hs2 & Hl2).
    rewrite Hrun2. eexists cur', any', w', (e1 ++ e2).
    split; [reflexivity|].
    split; [eapply extends_trans; eauto|].
    autorewrite with trace_proj.
    rewrite Hf1, Ht1, Hp1, Hs1, Hl1, Ht2, Hs2, Hl2, Hp2.
    destruct Hext1 as (V1 & _).
    split; [rewrite Hcur; reflexivity|].
    split; [cbn; now rewrite Hf2|].
    split; [reflexivity|].
    split; [|auto].
    rewrite V1. reflexivity.
Qed.

(** The resolver always returns; the version it leaves is the extracted
    one when there is one, else the known one. *)
Lemma get_current_api_version_spec w :
  exists w' r l,
    get_current_api_version env w = (Ok tt, w') /\
    PREV_PRICES_FILE w' = PREV_PRICES_FILE w /\
    now w' = S (now w) /\
    trace w' = trace w ++ [HttpGet BUILD_NUMBER_URL; Log l r] /\
    API_VERSION w' =
      match http_get env (now w) BUILD_NUMBER_URL with
      | HttpOk text => default (API_VERSION w) (Pattern.search_version (decimal_digit env) text)
      | _ => API_VERSION w
      end.
Proof.
  unfold get_current_api_version. run.
  destruct (http_get env (now w) BUILD_NUMBER_URL) as [e|st body|text].
  - run. eexists _, _, _. split; [reflexivity|]. cbn.
    rewrite <- app_assoc. auto.
  - run. eexists _, _, _. split; [reflexivity|]. cbn.
    rewrite <- app_assoc. auto.
  - destruct (Pattern.search_version (decimal_digit env) text) as [v|].
    + run. destruct (decide (v <> API_VERSION w)) as [Hne|Heq].
      * run. eexists _, _, _. split; [reflexivity|]. cbn.
        rewrite <- app_assoc. auto.
      * run. eexists _, _, _. split; [reflexivity|]. cbn.
        rewrite <- app_assoc. repeat split; auto.
        destruct (decide (v = API_VERSION w)); [congruence|contradiction].
    + run. eexists _, _, _. split; [reflexivity|]. cbn.
      rewrite <- app_assoc. auto.
Qed.

Lemma main_loop_pass_missing w :
  routes_file env (S (now w)) = RoutesMissing ->
  exists w' r l,
    main_loop_pass env w = (Ok tt, w') /\
    PREV_PRICES_FILE w' = PREV_PRICES_FILE w /\
    now w' = S (S (now w)) /\
    trace w' = trace w ++ [HttpGet BUILD_NUMBER_URL; Log l r;
                           Log INFO (UsingVersion (API_VERSION w'));
                           Log ERROR RoutesFileNotFound;
                           Sleep (CHECK_INTERVAL_MINUTES * 60)].
Proof.
  intros Hmiss. unfold main_loop_pass.
  destruct (get_current_api_version_spec w) as (w1 & r & l & Hrun & Hf & Hn & Ht & _).
  erewrite bind_Ok by exact Hrun. run. rewrite Hn, Hmiss. run.
  eexists _, r, l. split; [reflexivity|]. cbn.
  rewrite Ht, <- !app_assoc. auto.
Qed.

Lemma main_loop_pass_unreadable w e :
  routes_file env (S (now w)) = RoutesUnreadable e ->
  exists w', main_loop_pass env w = (Raised e, w').
Proof.
  intros Hbad. unfold main_loop_pass.
  destruct (get_current_api_version_spec w) as (w1 & r & l & Hrun & Hf & Hn & Ht & _).
  erewrite bind_Ok by exact Hrun. run. rewrite Hn, Hbad. run. eauto.
Qed.

(** The shape of a pass that finds its routes. *)
Lemma main_loop_pass_loaded w routes :
  routes_file env (S (now w)) = RoutesLoaded routes ->
  exists w' head body cur logs t,
    main_loop_pass env w = (Ok tt, w') /\
    trace w' = trace w ++ head ++ body
                 ++ SavePrevPrices cur :: logs ++ [Sleep (CHECK_INTERVAL_MINUTES * 60)] /\
    let prev := match PREV_PRICES_FILE w with Stored d => d | _ => ∅ end in
    let known := match http_get env (now w) BUILD_NUMBER_URL with
                 | HttpOk text => default (API_VERSION w) (Pattern.search_version (decimal_digit env) text)
                 | _ => API_VERSION w
                 end in
    API_VERSION w' = known /\
    (loads head = [prev] /\ saves head = [] /\ fetched head = [] /\
     posts head = [] /\ telegrams head = [] /\ sleeps head = []) /\
    (cur = overlay prev (fetched body) /\
     (fetched body).*1 = routes /\
     telegrams body = concat (notification env prev <$> fetched body) /\
     posts body = request_of known <$> routes /\
     saves body = [] /\ loads body = []) /\
    (quiet logs /\
     errors logs = match fs_write env t cur with
                   | Written => []
                   | OpenRaised e => [WriteError e]
                   | DumpRaised e => [WriteError e]
                   end) /\
    PREV_PRICES_FILE w' = match fs_write env t cur with
                          | Written => Stored cur
                          | OpenRaised _ => PREV_PRICES_FILE w
                          | DumpRaised _ => Unparseable
                          end.
Proof.
  intros Hload. unfold main_loop_pass.
  destruct (get_current_api_version_spec w) as (w1 & r & l & Hrun & Hf & Hn & Ht & Hv).
  erewrite bind_Ok by exact Hrun. run. rewrite Hn, Hload.
  unfold load_prev_prices. run.
  set (prev := match PREV_PRICES_FILE w1 with Stored d => d | _ => ∅ end).
  match goal with |- context [for_routes env ?p ?n ?i routes ?c ?a ?w0] =>
    replace p with prev; [replace c with prev|];
    [ destruct (for_routes_spec prev n routes i prev a w0)
      as (cur & any & w2 & body & Hrun2 & Hext2 & Hcur & Hfst & Htel & Hposts & Hsv & Hld)
    | subst prev; destruct (PREV_PRICES_FILE w1); reflexivity .. ]
  end.
  rewrite Hrun2. unfold save_prev_prices. run.
  destruct Hext2 as (V2 & F2 & T2). cbn in V2, F2, T2.
  assert (Hprev : prev = match PREV_PRICES_FILE w with Stored d => d | _ => ∅ end)
    by (subst prev; now rewrite Hf).
  pose (head := [HttpGet BUILD_NUMBER_URL; Log l r;
                 Log INFO (UsingVersion (API_VERSION w1)); LoadPrevPrices prev]).
  destruct (fs_write env (now w2) cur) as [|e|e] eqn:Hw; destruct any; run;
    [ eexists _, head, body, cur, [Log INFO NextCheck], (now w2)
    | eexists _, head, body, cur, [Log INFO NoChanges; Log INFO NextCheck], (now w2)
    | eexists _, head, body, cur, [Log ERROR (WriteError e); Log INFO NextCheck], (now w2)
    | eexists _, head, body, cur,
        [Log ERROR (WriteError e); Log INFO NoChanges; Log INFO NextCheck], (now w2)
    | eexists _, head, body, cur, [Log ERROR (WriteError e); Log INFO NextCheck], (now w2)
    | eexists _, head, body, cur,
        [Log ERROR (WriteError e); Log INFO NoChanges; Log INFO NextCheck], (now w2) ];
    subst head;
    (split; [reflexivity|]); cbn [trace API_VERSION PREV_PRICES_FILE];
    rewrite ?Hw, ?T2, ?Ht, ?V2, ?F2, ?Hf, <- ?Hv, <- ?Hprev;
    (split; [rewrite <- ?app_assoc; cbn; reflexivity|]);
    (split; [reflexivity|]);
    (split; [cbn; auto 10|]);
    (split; [auto 10|]);
    (split; [|reflexivity]);
    cbv; auto 10.
Qed.

Lemma main_loop_pass_missing_or_loaded w :
  (forall e, routes_file env (S (now w)) <> RoutesUnreadable e) ->
  exists w', main_loop_pass env w = (Ok tt, w').
Proof.
  intros Hok. destruct (routes_file env (S (now w))) as [|e|routes] eqn:E.
  - destruct (main_loop_pass_missing w E) as (w' & _ & _ & Hrun & _). eauto.
  - now destruct (Hok e).
  - destruct (main_loop_pass_loaded w routes E) as (w' & _ & _ & _ & _ & _ & Hrun & _).
    eauto.
Qed.

Lemma passes_S n w w1 :
  main_loop_pass env w = (Ok tt, w1) -> passes env (S n) w = passes env n w1.
Proof. intros H. cbn [passes]. now erewrite bind_Ok by exact H. Qed.

End ProgramFacts.

(** ** The overlay *)

Lemma overlay_app cur a b : overlay cur (a ++ b) = overlay (overlay cur a) b.
Proof. apply foldl_app. Qed.

Lemma overlay_frame (k : string) fs : forall cur : gmap string Observation,
  (forall r p c, (r, Some (p, c)) ∈ fs -> get_route_id r <> k) ->
  overlay cur fs !! k = cur !! k.
Proof.
  induction fs as [|[r [[p c]|]] fs IH]; intros cur H; cbn.
  - reflexivity.
  - unfold overlay in IH. rewrite IH.
    + apply lookup_insert_ne. apply (H r p c). left.
    + intros r' p' c' Hin. apply (H r' p' c'). now right.
  - unfold overlay in IH. apply IH.
    intros r' p' c' Hin. apply (H r' p' c'). now right.
Qed.

Lemma overlay_last fs1 r p c fs2 (cur : gmap string Observation) :
  (forall r' p' c', (r', Some (p', c')) ∈ fs2 -> get_route_id r' <> get_route_id r) ->
  overlay cur (fs1 ++ (r, Some (p, c)) :: fs2) !! get_route_id r
  = Some {| price := p; currency := c |}.
Proof.
  intros H. rewrite overlay_app. cbn.
  change (foldl stage ?m fs2) with (overlay m fs2).
  rewrite overlay_frame by exact H. apply lookup_insert_eq.
Qed.

Lemma overlay_origin (k : string) (o : Observation) fs :
  forall cur : gmap string Observation,
  overlay cur fs !! k = Some o ->
  cur !! k = Some o \/
  exists r, (r, Some (price o, currency o)) ∈ fs /\ get_route_id r = k.
Proof.
  induction fs as [|[r [[p c]|]] fs IH]; intros cur H; cbn in H.
  - now left.
  - apply IH in H. destruct H as [H|(r' & Hin & Hid)].
    + destruct (decide (get_route_id r = k)) as [E|E].
      * rewrite E, lookup_insert_eq in H. injection H as <-.
        right. exists r. split; [left|exact E].
      * rewrite lookup_insert_ne in H by exact E. now left.
    + right. exists r'. split; [now right|exact Hid].
  - apply IH in H. destruct H as [H|(r' & Hin & Hid)]; [now left|].
    right. exists r'. split; [now right|exact Hid].
Qed.

Lemma elem_of_concat {A} (x : A) (l : list A) (ls : list (list A)) :
  x ∈ l -> l ∈ ls -> x ∈ concat ls.
Proof.
  intros Hx Hl. apply list_elem_of_In, in_concat.
  exists l. split; now apply list_elem_of_In.
Qed.

(** ** Price formatting *)

Local Open Scope string_scope.








Local Open Scope list_scope.



(** Formatting the numeric content of an output in RON does not give the
    output again: 0.123 RON reads "0.12 RON (≈ 0.03 EUR)", and 0.12 RON
    reads "0.12 RON (≈ 0.02 EUR)". *)
Lemma format_price_RON_counterexample : ~ formatting_idempotent.
Proof.
  intros H.
  specialize (H (Num.of_decimal (123 # 1000)) "RON" (Num.of_decimal (12 # 100))).
  assert (H1 : format_price (Num.of_decimal (12 # 100)) "RON"
               = format_price (Num.of_decimal (123 # 1000)) "RON").
  { apply H; vm_compute; reflexivity. }
  vm_compute in H1. discriminate H1.
Qed.

(** ** Change detection *)

Section Detection.

Variable env : Env.





Lemma handle_result_sends prev route p c cur any w :
  exists any' w' evs,
    handle_result env prev route (Some (p, c)) cur any w
      = (Ok (<[get_route_id route := {| price := p; currency := c |}]> cur, any'), w') /\
    trace w' = trace w ++ evs /\
    telegrams evs =
      option_list (change_message (get_city_name_with_code env (origin route))
                     (get_city_name_with_code env (destination route))
                     (depart_date route) p c (prev !! get_route_id route)).
Proof.
  destruct (handle_result_spec env prev route (Some (p, c)) cur any w)
    as (any' & w' & evs & Hrun & (_ & _ & Ht) & Htel & _).
  exists any', w', evs. repeat split; assumption.
Qed.

End Detection.




(** C9. When the stored amount is exactly 0 and the new amount differs from
    it by more than 0.01, the one message sent has the down indicator and
    the placeholder for the old price, also when the price went up. *)
Theorem zero_prior_shows_down env prev route p c old cur any w :
  prev !! get_route_id route = Some old ->
  Num.truthy (price old) = false ->
  Num.ltb (Num.of_decimal (1 # 100)) (Num.abs (Num.sub p (price old))) = true ->
  exists any' w' evs,
    handle_result env prev route (Some (p, c)) cur any w
      = (Ok (<[get_route_id route := {| price := p; currency := c |}]> cur, any'), w') /\
    trace w' = trace w ++ evs /\
    telegrams evs =
      [PriceChange Down (get_city_name_with_code env (origin route))
         (get_city_name_with_code env (destination route))
         (depart_date route) (format_price p c) "–"] /\
    (Num.ltb (Num.of_decimal 0) p = true -> classify p (Some old) = Increased).
Proof.
  intros Hold Hzero Hdiff.
  destruct (handle_result_sends env prev route p c cur any w)
    as (any' & w' & evs & Hrun & Ht & Htel).
  exists any', w', evs. split; [exact Hrun|]. split; [exact Ht|].
  split.
  - rewrite Htel, Hold. unfold change_message. rewrite Hdiff.
    cbn [fmap option_fmap option_map]. rewrite Hzero. reflexivity.
  - intros Hp. unfold classify.
    rewrite (ltb_not_leb _ _ Hdiff).
    destruct (truthy_false _ Hzero) as [s Hs]. rewrite Hs, ltb_zero_sign.
    change (S754_zero false) with (Num.of_decimal 0). now rewrite Hp.
Qed.

Lemma zero_prior_shows_down_witness :
  exists any' w' evs,
    handle_result Scenario.env_single Scenario.stored_zero Scenario.OTP_LTN
      (Some (Num.of_decimal (231 # 2), "EUR")) Scenario.stored_zero false (initial_world NoFile)
      = (Ok (<[get_route_id Scenario.OTP_LTN :=
                 {| price := Num.of_decimal (231 # 2); currency := "EUR" |}]>
               Scenario.stored_zero, any'), w') /\
    trace w' = trace (initial_world NoFile) ++ evs /\
    telegrams evs = [PriceChange Down "Bucharest (OTP)" "London Luton (LTN)" "2025-01-01"
                       "115.50 EUR" "–"] /\
    (Num.ltb (Num.of_decimal 0) (Num.of_decimal (231 # 2)) = true ->
     classify (Num.of_decimal (231 # 2))
       (Some {| price := Num.of_decimal 0; currency := "EUR" |}) = Increased).
Proof.
  apply (zero_prior_shows_down Scenario.env_single Scenario.stored_zero Scenario.OTP_LTN
           (Num.of_decimal (231 # 2)) "EUR"
           {| price := Num.of_decimal 0; currency := "EUR" |}).
  - reflexivity.
  - reflexivity.
  - vm_compute. reflexivity.
Defined.

(** ** The fare fetch *)

Section Fetch.

Variable env : Env.

Lemma find_price_skip target pre rest w :
  (forall g, g ∈ pre -> date g <> Some target) ->
  find_price target (pre ++ rest) w = find_price target rest w.
Proof.
  induction pre as [|g pre IH]; intros H; [reflexivity|].
  cbn [app find_price].
  destruct (decide (date g = Some target)) as [E|_].
  - exfalso. apply (H g); [left|exact E].
  - apply IH. intros g' Hin. apply H. now right.
Qed.

Lemma find_price_truthy target flights w p c w' :
  find_price target flights w = (Ok (Some (p, c)), w') ->
  Num.truthy p = true /\ c <> EmptyString.
Proof.
  induction flights as [|f rest IH]; cbn [find_price]; [discriminate|].
  destruct (decide (date f = Some target)); [|exact IH].
  destruct (decide (priceType f = Some "price"%string)); [|discriminate].
  destruct (flight_price f ≫= amount) as [p0|]; [|exact IH].
  destruct (flight_price f ≫= currencyCode) as [c0|]; [|exact IH].
  destruct (Num.truthy p0 && negb (String.eqb c0 EmptyString))%bool eqn:E; [|exact IH].
  intros [= <- <- _]. apply andb_true_iff in E. destruct E as [Ep Ec].
  split; [exact Ep|].
  apply negb_true_iff in Ec. intros ->. discriminate Ec.
Qed.

Lemma find_price_absent target flights w :
  (forall g, g ∈ flights -> date g <> Some target) ->
  find_price target flights w
  = (Ok None, {| API_VERSION := API_VERSION w; PREV_PRICES_FILE := PREV_PRICES_FILE w;
                 now := now w;
                 trace := trace w ++ [Log ERROR (PriceNotFound target)] |}).
Proof.
  intros H. rewrite <- (app_nil_r flights), find_price_skip by exact H. reflexivity.
Qed.

Lemma check_route_price_unfold o d dd a w :
  check_route_price env o d dd a w =
  let w1 := {| API_VERSION := API_VERSION w; PREV_PRICES_FILE := PREV_PRICES_FILE w;
               now := S (now w);
               trace := trace w ++ [HttpPost (farechart_url (API_VERSION w))
                                      (farechart_payload o d dd a)] |} in
  match answer env w o d dd a with
  | HttpOk (Some data) =>
      find_price (dd ++ "T00:00:00")%string (default [] (outboundFlights data)) w1
  | HttpOk None =>
      (Ok None, {| API_VERSION := API_VERSION w; PREV_PRICES_FILE := PREV_PRICES_FILE w;
                   now := S (now w);
                   trace := trace w1 ++ [Log ERROR (FareRequestError o d "JSONDecodeError")] |})
  | ErrorStatus st body =>
      (Ok None, {| API_VERSION := API_VERSION w; PREV_PRICES_FILE := PREV_PRICES_FILE w;
                   now := S (now w);
                   trace := trace w1 ++ [Log ERROR (FareHTTPError o d st body)] |})
  | NetworkError e =>
      (Ok None, {| API_VERSION := API_VERSION w; PREV_PRICES_FILE := PREV_PRICES_FILE w;
                   now := S (now w);
                   trace := trace w1 ++ [Log ERROR (FareRequestError o d e)] |})
  end.
Proof.
  unfold check_route_price, answer. run.
  destruct (http_post env (now w) _ _) as [e|st body|[data|]]; reflexivity.
Qed.

End Fetch.

(** C4, as the code has it. When the first calendar entry for the requested
    date has the price flag, an amount other than 0 and a currency code that
    is not empty, the fetch returns that amount and currency, and logs no
    error. Whatever the fetch returns has an amount other than 0 and a
    currency code that is not empty. *)
Theorem fetch_returns_priced_entry env w o d dd a :
  (forall data pre f post p c,
     http_post env (now w) (farechart_url (API_VERSION w)) (farechart_payload o d dd a)
       = HttpOk (Some data) ->
     outboundFlights data = Some (pre ++ f :: post) ->
     (forall g, g ∈ pre -> date g <> Some (dd ++ "T00:00:00")%string) ->
     date f = Some (dd ++ "T00:00:00")%string ->
     priceType f = Some "price"%string ->
     flight_price f = Some {| amount := Some p; currencyCode := Some c |} ->
     Num.truthy p = true ->
     c <> EmptyString ->
     exists w',
       check_route_price env o d dd a w = (Ok (Some (p, c)), w') /\
       trace w' = trace w ++ [HttpPost (farechart_url (API_VERSION w))
                                (farechart_payload o d dd a)])
  /\ (forall p c w',
        check_route_price env o d dd a w = (Ok (Some (p, c)), w') ->
        Num.truthy p = true /\ c <> EmptyString).
Proof.
  split.
  - intros data pre f post p c Hans Hfl Hpre Hdate Htype Hprice Hp Hc.
    rewrite check_route_price_unfold. unfold answer. rewrite Hans. cbn zeta.
    rewrite Hfl. change (default [] (Some ?l)) with l.
    rewrite find_price_skip by exact Hpre.
    cbn [find_price].
    destruct (decide (date f = Some (dd ++ "T00:00:00")%string)); [|contradiction].
    destruct (decide (priceType f = Some "price"%string)); [|contradiction].
    rewrite Hprice. cbn [mbind option_bind amount currencyCode].
    rewrite Hp. destruct (String.eqb_spec c EmptyString) as [E|_]; [contradiction|].
    cbn [andb negb]. eexists. split; reflexivity.
  - intros p c w' Hrun. rewrite check_route_price_unfold in Hrun. cbn zeta in Hrun.
    destruct (answer env w o d dd a) as [e|st body|[data|]]; try discriminate Hrun.
    now apply find_price_truthy in Hrun.
Qed.

Lemma fetch_returns_priced_entry_witness :
  exists w',
    check_route_price Scenario.env_single "OTP" "LTN" "2025-01-01" 1 (initial_world NoFile)
      = (Ok (Some (Num.of_decimal (231 # 2), "EUR"%string)), w') /\
    trace w' = trace (initial_world NoFile)
                 ++ [HttpPost (farechart_url (API_VERSION (initial_world NoFile)))
                       (farechart_payload "OTP" "LTN" "2025-01-01" 1)].
Proof.
  apply (proj1 (fetch_returns_priced_entry Scenario.env_single (initial_world NoFile)
                  "OTP" "LTN" "2025-01-01" 1)
           {| outboundFlights :=
                Some [Scenario.entry "2024-12-31" "price" (Some (Num.of_decimal 90, "EUR"%string));
                      Scenario.entry "2025-01-01" "price" (Some (Num.of_decimal (231 # 2), "EUR"%string))] |}
           [Scenario.entry "2024-12-31" "price" (Some (Num.of_decimal 90, "EUR"%string))]
           (Scenario.entry "2025-01-01" "price" (Some (Num.of_decimal (231 # 2), "EUR"%string)))
           [] (Num.of_decimal (231 # 2)) "EUR"%string).
  - reflexivity.
  - reflexivity.
  - intros g Hg. apply list_elem_of_singleton in Hg. subst g. discriminate.
  - reflexivity.
  - reflexivity.
  - reflexivity.
  - reflexivity.
  - discriminate.
Defined.

(** An entry for the day with the price flag, the amount 0 and a currency is
    not returned; nor is a priced entry that comes after a sold-out entry for
    the same day. *)
Lemma fetch_zero_amount_counterexample :
  ~ entry_with_price_succeeds Scenario.env_free (initial_world NoFile)
      "OTP" "LTN" "2025-01-01" 1
  /\ ~ entry_with_price_succeeds Scenario.env_twice (initial_world NoFile)
        "OTP" "LTN" "2025-01-01" 1.
Proof.
  split; intros H.
  - specialize (H _ _ (Scenario.entry "2025-01-01" "price" (Some (Num.of_decimal 0, "EUR"%string)))
                  (Num.of_decimal 0) "EUR"%string eq_refl eq_refl).
    cbn in H. specialize (H ltac:(left) eq_refl eq_refl eq_refl). discriminate H.
  - specialize (H _ _ (Scenario.entry "2025-01-01" "price" (Some (Num.of_decimal 100, "EUR"%string)))
                  (Num.of_decimal 100) "EUR"%string eq_refl eq_refl).
    cbn in H. specialize (H ltac:(right; left) eq_refl eq_refl eq_refl). discriminate H.
Qed.

(** C5, as the code has it. Every failure of the fetch returns [None]; what
    went wrong is told by the error record that is logged: the transport
    error, the HTTP status with the body, that the date was not found, or
    that the entry of the date has no price (with its availability flag). *)
Theorem fetch_failures_return_None env w o d dd a :
  let url := farechart_url (API_VERSION w) in
  let payload := farechart_payload o d dd a in
  let target := (dd ++ "T00:00:00")%string in
  let r := http_post env (now w) url payload in
  (forall e, r = NetworkError e ->
     exists w', check_route_price env o d dd a w = (Ok None, w') /\
       trace w' = trace w ++ [HttpPost url payload; Log ERROR (FareRequestError o d e)])
  /\ (forall st body, r = ErrorStatus st body ->
        exists w', check_route_price env o d dd a w = (Ok None, w') /\
          trace w' = trace w ++ [HttpPost url payload; Log ERROR (FareHTTPError o d st body)])
  /\ (forall data, r = HttpOk (Some data) ->
        (forall g, g ∈ default [] (outboundFlights data) -> date g <> Some target) ->
        exists w', check_route_price env o d dd a w = (Ok None, w') /\
          trace w' = trace w ++ [HttpPost url payload; Log ERROR (PriceNotFound target)])
  /\ (forall data pre f post, r = HttpOk (Some data) ->
        outboundFlights data = Some (pre ++ f :: post) ->
        (forall g, g ∈ pre -> date g <> Some target) ->
        date f = Some target ->
        priceType f <> Some "price"%string ->
        exists w', check_route_price env o d dd a w = (Ok None, w') /\
          trace w' = trace w ++ [HttpPost url payload;
                                 Log ERROR (NoPriceAvailable target (priceType f))]).
Proof.
  cbn zeta. repeat split.
  - intros e Hr. rewrite check_route_price_unfold. unfold answer. rewrite Hr.
    eexists. split; [reflexivity|]. cbn. now rewrite <- app_assoc.
  - intros st body Hr. rewrite check_route_price_unfold. unfold answer. rewrite Hr.
    eexists. split; [reflexivity|]. cbn. now rewrite <- app_assoc.
  - intros data Hr Habs. rewrite check_route_price_unfold. unfold answer. rewrite Hr.
    cbn zeta. rewrite find_price_absent by exact Habs.
    eexists. split; [reflexivity|]. cbn. now rewrite <- app_assoc.
  - intros data pre f post Hr Hfl Hpre Hdate Htype.
    rewrite check_route_price_unfold. unfold answer. rewrite Hr. cbn zeta.
    rewrite Hfl. change (default [] (Some ?l)) with l.
  rewrite find_price_skip by exact Hpre.
    cbn [find_price].
    destruct (decide (date f = Some (dd ++ "T00:00:00")%string)); [|contradiction].
    destruct (decide (priceType f = Some "price"%string)); [contradiction|].
    run. eexists. split; [reflexivity|]. cbn. now rewrite <- app_assoc.
Qed.

Lemma fetch_failures_return_None_witness :
  exists w',
    check_route_price Scenario.env_http_500 "OTP" "LTN" "2025-01-01" 1 (initial_world NoFile)
      = (Ok None, w') /\
    trace w' = [HttpPost "https://be.wizzair.com/27.36.0/Api/asset/farechart"
                  (farechart_payload "OTP" "LTN" "2025-01-01" 1);
                Log ERROR (FareHTTPError "OTP" "LTN" 500 "Internal Server Error")].
Proof.
  apply (proj1 (proj2 (fetch_failures_return_None Scenario.env_http_500
                         (initial_world NoFile) "OTP" "LTN" "2025-01-01" 1))).
  reflexivity.
Defined.

(** The returned value is the same for a date that is not in the calendar and
    for a date that is sold out: no reading of it tells the kinds apart. *)
Lemma fetch_error_kinds_counterexample : ~ failure_kinds_distinguished.
Proof.
  intros (kind & H).
  destruct (H Scenario.env_not_found (initial_world NoFile) "OTP" "LTN" "2025-01-01" 1)
    as (_ & Hnf & _).
  destruct (H Scenario.env_sold_out (initial_world NoFile) "OTP" "LTN" "2025-01-01" 1)
    as (_ & _ & Hun).
  destruct (Hnf _ _ eq_refl eq_refl) as (v1 & E1 & K1).
  { intros f Hf. apply list_elem_of_singleton in Hf. subst f. discriminate. }
  destruct (Hun _ _ eq_refl eq_refl eq_refl) as (v2 & E2 & K2).
  { discriminate. }
  vm_compute in E1. vm_compute in E2.
  injection E1 as <-. injection E2 as <-. congruence.
Qed.

(** ** The pass *)

(** C2, as the code has it. A pass that finds its routes commits once, after
    the last fetch: the committed store is the loaded store overlaid with the
    successful fetches of the pass in order. A route id none of whose fetches
    succeeded keeps its entry (or stays absent); a route id with a successful
    fetch holds the observation of its last successful fetch. When the write
    succeeds the state file holds the committed store. *)
Theorem commit_overlays_successes env w routes :
  routes_file env (S (now w)) = RoutesLoaded routes ->
  exists w' before cur after prev t,
    main_loop_pass env w = (Ok tt, w') /\
    trace w' = trace w ++ before ++ SavePrevPrices cur :: after /\
    prev = match PREV_PRICES_FILE w with Stored d => d | _ => ∅ end /\
    loads before = [prev] /\
    (fetched before).*1 = routes /\
    saves before = [] /\ saves after = [] /\
    posts after = [] /\ fetched after = [] /\ telegrams after = [] /\
    cur = overlay prev (fetched before) /\
    (forall k, (forall r p c, (r, Some (p, c)) ∈ fetched before -> get_route_id r <> k) ->
       cur !! k = prev !! k) /\
    (forall fs1 r p c fs2,
       fetched before = fs1 ++ (r, Some (p, c)) :: fs2 ->
       (forall r' p' c', (r', Some (p', c')) ∈ fs2 -> get_route_id r' <> get_route_id r) ->
       cur !! get_route_id r = Some {| price := p; currency := c |}) /\
    (fs_write env t cur = Written -> PREV_PRICES_FILE w' = Stored cur).
Proof.
  intros Hload.
  destruct (main_loop_pass_loaded env w routes Hload)
    as (w' & head & body & cur & logs & t & Hrun & Htr & Hv
        & (Hl & Hs & Hf & Hp & Htl & Hz)
        & (Hcur & Hfst & Htel & Hposts & Hsb & Hlb)
        & ((Q1 & Q2 & Q3 & Q4 & Q5 & Q6) & Herr) & Hfile).
  exists w', (head ++ body), cur, (logs ++ [Sleep (CHECK_INTERVAL_MINUTES * 60)]),
    (match PREV_PRICES_FILE w with Stored d => d | _ => ∅ end), t.
  split; [exact Hrun|].
  split; [rewrite Htr, <- !app_assoc; reflexivity|].
  split; [reflexivity|].
  autorewrite with trace_proj.
  rewrite Hl, Hlb, Hf, Hs, Hsb, Q1, Q2, Q3, Q4. cbn [app].
  split; [reflexivity|]. split; [exact Hfst|].
  do 5 (split; [reflexivity|]).
  split; [exact Hcur|].
  split; [intros k Hk; rewrite Hcur; now apply overlay_frame|].
  split; [intros fs1 r p c fs2 E Hk; rewrite Hcur, E; now apply overlay_last|].
  intros Hw. now rewrite Hfile, Hw.
Qed.

Lemma commit_overlays_successes_witness :
  exists w' before cur after prev t,
    main_loop_pass Scenario.env_single (initial_world (Stored Scenario.stored_A)) = (Ok tt, w') /\
    trace w' = trace (initial_world (Stored Scenario.stored_A))
                 ++ before ++ SavePrevPrices cur :: after /\
    prev = match PREV_PRICES_FILE (initial_world (Stored Scenario.stored_A)) with
           | Stored d => d
           | _ => ∅
           end /\
    loads before = [prev] /\
    (fetched before).*1 = [Scenario.OTP_LTN] /\
    saves before = [] /\ saves after = [] /\
    posts after = [] /\ fetched after = [] /\ telegrams after = [] /\
    cur = overlay prev (fetched before) /\
    (forall k, (forall r p c, (r, Some (p, c)) ∈ fetched before -> get_route_id r <> k) ->
       cur !! k = prev !! k) /\
    (forall fs1 r p c fs2,
       fetched before = fs1 ++ (r, Some (p, c)) :: fs2 ->
       (forall r' p' c', (r', Some (p', c')) ∈ fs2 -> get_route_id r' <> get_route_id r) ->
       cur !! get_route_id r = Some {| price := p; currency := c |}) /\
    (fs_write Scenario.env_single t cur = Written -> PREV_PRICES_FILE w' = Stored cur).
Proof.
  apply (commit_overlays_successes Scenario.env_single
           (initial_world (Stored Scenario.stored_A)) [Scenario.OTP_LTN]).
  reflexivity.
Defined.

(** Two registry entries share a route id; the first fetch succeeds and the
    second fails. The failed route's entry is not the one it had before. *)
Lemma frame_per_route_counterexample :
  ~ frame_per_route Scenario.env_pair (initial_world NoFile).
Proof.
  intros H.
  pose (res := main_loop_pass Scenario.env_pair (initial_world NoFile)).
  destruct (H (snd res) (trace (snd res)) Scenario.stored_A ∅) as [Hfail _].
  - destruct (main_loop_pass_missing_or_loaded Scenario.env_pair (initial_world NoFile))
      as (w' & Hrun); [discriminate|].
    subst res. rewrite Hrun. reflexivity.
  - reflexivity.
  - reflexivity.
  - reflexivity.
  - specialize (Hfail Scenario.OTP_LTN_pair).
    assert (Hin : (Scenario.OTP_LTN_pair, None) ∈ fetched (trace (snd res))).
    { vm_compute. right. left. }
    specialize (Hfail Hin). vm_compute in Hfail. discriminate Hfail.
Qed.

(** C3, as the code has it. A failure to write the state file does not end
    the pass: the pass returns normally after the long sleep, the error is
    logged, and the loop goes on with the next pass. When [open] fails the
    file is as before; when the dump fails the file is left unparseable. *)
Theorem save_failure_is_absorbed env w routes :
  routes_file env (S (now w)) = RoutesLoaded routes ->
  exists w' evs cur t,
    main_loop_pass env w = (Ok tt, w') /\
    trace w' = trace w ++ evs /\
    saves evs = [cur] /\
    last evs = Some (Sleep (CHECK_INTERVAL_MINUTES * 60)) /\
    (forall e, fs_write env t cur = OpenRaised e ->
       WriteError e ∈ errors evs /\ PREV_PRICES_FILE w' = PREV_PRICES_FILE w) /\
    (forall e, fs_write env t cur = DumpRaised e ->
       WriteError e ∈ errors evs /\ PREV_PRICES_FILE w' = Unparseable) /\
    (forall n, passes env (S n) w = passes env n w').
Proof.
  intros Hload.
  destruct (main_loop_pass_loaded env w routes Hload)
    as (w' & head & body & cur & logs & t & Hrun & Htr & Hv
        & (Hl & Hs & Hf & Hp & Htl & Hz)
        & (Hcur & Hfst & Htel & Hposts & Hsb & Hlb)
        & ((Q1 & Q2 & Q3 & Q4 & Q5 & Q6) & Herr) & Hfile).
  exists w', (head ++ body ++ SavePrevPrices cur :: logs ++ [Sleep (CHECK_INTERVAL_MINUTES * 60)]),
    cur, t.
  split; [exact Hrun|]. split; [exact Htr|].
  split.
  { change (SavePrevPrices cur :: ?l) with ([SavePrevPrices cur] ++ l).
    autorewrite with trace_proj. rewrite Hs, Hsb, Q4. reflexivity. }
  split.
  { rewrite !app_assoc. change (?a ++ SavePrevPrices cur :: logs)
      with (a ++ [SavePrevPrices cur] ++ logs).
    rewrite (app_comm_cons logs), app_assoc. apply last_snoc. }
  assert (Hin : forall e, errors logs = [WriteError e] ->
            WriteError e ∈ errors (head ++ body ++ SavePrevPrices cur
                                     :: logs ++ [Sleep (CHECK_INTERVAL_MINUTES * 60)])).
  { intros e He.
    change (SavePrevPrices cur :: ?l) with ([SavePrevPrices cur] ++ l).
    autorewrite with trace_proj. rewrite He.
    rewrite !elem_of_app. do 3 right. left. left. }
  split; [|split].
  - intros e Hw. rewrite Hw in Herr, Hfile. split; [now apply Hin|exact Hfile].
  - intros e Hw. rewrite Hw in Herr, Hfile. split; [now apply Hin|exact Hfile].
  - intros n. now apply passes_S.
Qed.

Lemma save_failure_is_absorbed_witness :
  exists w' evs cur t,
    main_loop_pass Scenario.env_readonly (initial_world NoFile) = (Ok tt, w') /\
    trace w' = trace (initial_world NoFile) ++ evs /\
    saves evs = [cur] /\
    last evs = Some (Sleep (CHECK_INTERVAL_MINUTES * 60)) /\
    (forall e, fs_write Scenario.env_readonly t cur = OpenRaised e ->
       WriteError e ∈ errors evs /\
       PREV_PRICES_FILE w' = PREV_PRICES_FILE (initial_world NoFile)) /\
    (forall e, fs_write Scenario.env_readonly t cur = DumpRaised e ->
       WriteError e ∈ errors evs /\ PREV_PRICES_FILE w' = Unparseable) /\
    (forall n, passes Scenario.env_readonly (S n) (initial_world NoFile)
               = passes Scenario.env_readonly n w').
Proof.
  apply (save_failure_is_absorbed Scenario.env_readonly (initial_world NoFile)
           [Scenario.OTP_LTN]).
  reflexivity.
Defined.

(** The state file cannot be written, and the pass returns normally. *)
Lemma save_failure_counterexample :
  ~ save_failure_escalates Scenario.env_readonly (initial_world NoFile).
Proof.
  intros H. destruct (H "EROFS"%string (fun _ _ => eq_refl)) as (w' & E).
  vm_compute in E. discriminate E.
Qed.



(** A response that is not 2xx is not always a failure: on 300 Multiple
    Choices, with a text that holds the pattern, [raise_for_status] does not
    raise and the known version is replaced. *)
Lemma version_fallback_counterexample : ~ fallback_as_specified.
Proof.
  intros H.
  specialize (H Scenario.env_multiple_choices (initial_world NoFile)
                (Answered 300 "SSR https://be.wizzair.com/27.40.1") eq_refl).
  assert (Hf : resolution_fails (decimal_digit Scenario.env_multiple_choices)
                 (Answered 300 "SSR https://be.wizzair.com/27.40.1"))
    by (left; lia).
  specialize (H Hf). vm_compute in H. discriminate H.
Qed.



(** C7. A route registry that exists and cannot be read is a registry that
    cannot be loaded, and the pass is not aborted for the interval: reading
    it is outside any [try], the exception leaves [main_loop] in the first
    turn, nothing sleeps and no next pass is attempted. *)
Theorem unreadable_registry_ends_loop :
  (exists w',
     main_loop Scenario.env_bad_routes 3 (initial_world (Stored Scenario.stored_A))
       = (Raised "JSONDecodeError", w') /\
     sleeps (trace w') = [] /\
     gets (trace w') = [BUILD_NUMBER_URL])
  /\ ~ unloadable_registry_aborts_pass Scenario.env_bad_routes
        (initial_world (Stored Scenario.stored_A)).
Proof.
  split.
  - eexists. split; [vm_compute; reflexivity|]. split; reflexivity.
  - intros H. destruct H as (w' & evs & Hrun & _); [intros routes; discriminate|].
    vm_compute in Hrun. discriminate Hrun.
Qed.

(** C10. When the state file cannot be parsed, loading it yields the empty
    store and logs nothing. In the pass every successful fetch is a first
    sighting: its message, with the down indicator and the placeholder, is
    sent; the committed store holds exactly the successful observations of
    the pass, so a route id without a successful fetch has no entry; when the
    write succeeds that store replaces the file. *)
Theorem unparseable_store_starts_empty env w routes :
  PREV_PRICES_FILE w = Unparseable ->
  routes_file env (S (now w)) = RoutesLoaded routes ->
  (exists w0, load_prev_prices w = (Ok ∅, w0) /\ trace w0 = trace w ++ [LoadPrevPrices ∅])
  /\ exists w' evs cur t,
      main_loop_pass env w = (Ok tt, w') /\
      trace w' = trace w ++ evs /\
      loads evs = [∅] /\
      (fetched evs).*1 = routes /\
      saves evs = [cur] /\
      (forall r p c, (r, Some (p, c)) ∈ fetched evs ->
         classify p ((∅ : gmap string Observation) !! get_route_id r) = NoPrior /\
         PriceChange Down (get_city_name_with_code env (origin r))
           (get_city_name_with_code env (destination r))
           (depart_date r) (format_price p c) "–" ∈ telegrams evs) /\
      cur = overlay ∅ (fetched evs) /\
      (forall k, (forall r p c, (r, Some (p, c)) ∈ fetched evs -> get_route_id r <> k) ->
         cur !! k = None) /\
      (forall k o, cur !! k = Some o ->
         exists r, (r, Some (price o, currency o)) ∈ fetched evs /\ get_route_id r = k) /\
      (fs_write env t cur = Written -> PREV_PRICES_FILE w' = Stored cur).
Proof.
  intros Hbad Hload. split.
  { unfold load_prev_prices. run. rewrite Hbad. eexists. split; reflexivity. }
  destruct (main_loop_pass_loaded env w routes Hload)
    as (w' & head & body & cur & logs & t & Hrun & Htr & Hv
        & (Hl & Hs & Hf & Hp & Htl & Hz)
        & (Hcur & Hfst & Htel & Hposts & Hsb & Hlb)
        & ((Q1 & Q2 & Q3 & Q4 & Q5 & Q6) & Herr) & Hfile).
  rewrite Hbad in Hl, Hcur, Htel, Hfile.
  exists w', (head ++ body ++ SavePrevPrices cur
                :: logs ++ [Sleep (CHECK_INTERVAL_MINUTES * 60)]), cur, t.
  split; [exact Hrun|]. split; [exact Htr|].
  change (SavePrevPrices cur :: ?x) with ([SavePrevPrices cur] ++ x).
  autorewrite with trace_proj.
  rewrite Hl, Hlb, Q5, Hf, Q2, Hs, Hsb, Q4, Htl, Q1. cbn [app fetched loads saves telegrams omap].
  rewrite !app_nil_r. cbn.
  split; [reflexivity|]. split; [exact Hfst|]. split; [reflexivity|].
  split.
  { intros r p c Hin. split; [reflexivity|].
    rewrite Htel. apply (elem_of_concat _ (notification env ∅ (r, Some (p, c)))).
    - unfold notification. cbn. rewrite lookup_empty. cbn. left.
    - apply list_elem_of_fmap. eexists. split; [reflexivity|exact Hin]. }
  split; [exact Hcur|].
  split.
  { intros k Hk. rewrite Hcur, overlay_frame by exact Hk. apply lookup_empty. }
  split.
  { intros k o Hko. rewrite Hcur in Hko. apply overlay_origin in Hko.
    destruct Hko as [Hko|Hko]; [rewrite lookup_empty in Hko; discriminate|exact Hko]. }
  intros Hw. now rewrite Hfile, Hw.
Qed.

Lemma unparseable_store_starts_empty_witness :
  (exists w0, load_prev_prices (initial_world Unparseable) = (Ok ∅, w0)
              /\ trace w0 = trace (initial_world Unparseable) ++ [LoadPrevPrices ∅])
  /\ exists w' evs cur t,
      main_loop_pass Scenario.env_single (initial_world Unparseable) = (Ok tt, w') /\
      trace w' = trace (initial_world Unparseable) ++ evs /\
      loads evs = [∅] /\
      (fetched evs).*1 = [Scenario.OTP_LTN] /\
      saves evs = [cur] /\
      (forall r p c, (r, Some (p, c)) ∈ fetched evs ->
         classify p ((∅ : gmap string Observation) !! get_route_id r) = NoPrior /\
         PriceChange Down (get_city_name_with_code Scenario.env_single (origin r))
           (get_city_name_with_code Scenario.env_single (destination r))
           (depart_date r) (format_price p c) "–" ∈ telegrams evs) /\
      cur = overlay ∅ (fetched evs) /\
      (forall k, (forall r p c, (r, Some (p, c)) ∈ fetched evs -> get_route_id r <> k) ->
         cur !! k = None) /\
      (forall k o, cur !! k = Some o ->
         exists r, (r, Some (price o, currency o)) ∈ fetched evs /\ get_route_id r = k) /\
      (fs_write Scenario.env_single t cur = Written -> PREV_PRICES_FILE w' = Stored cur).
Proof.
  apply (unparseable_store_starts_empty Scenario.env_single (initial_world Unparseable)
           [Scenario.OTP_LTN]).
  - reflexivity.
  - reflexivity.
Defined.

(** ** Runs of whole passes *)

(** A stored 100.00 EUR and a fetched 115.50 EUR: one message with the up
    indicator and both prices, and the store holds the new price. *)
Example pass_price_went_up :
  let w' := (main_loop_pass Scenario.env_single (initial_world (Stored Scenario.stored_A))).2 in
  telegrams (trace w')
  = [PriceChange Up "Bucharest (OTP)" "London Luton (LTN)" "2025-01-01"
       "115.50 EUR" "100.00 EUR"]
  /\ file_entries (PREV_PRICES_FILE w')
     = Some [("OTP-LTN-2025-01-01"%string, {| price := Num.of_decimal (231 # 2); currency := "EUR" |})]
  /\ API_VERSION w' = "27.40.1"%string.
Proof. vm_compute. split; [reflexivity | split; reflexivity]. Qed.

(** A stored 100.00 EUR and a fetched 100.00 EUR: no message, the store is
    as before. *)
Example pass_price_unchanged :
  let w' := (main_loop_pass Scenario.env_readonly (initial_world (Stored Scenario.stored_A))).2 in
  telegrams (trace w') = []
  /\ entries <$> saves (trace w')
     = [[("OTP-LTN-2025-01-01"%string, {| price := Num.of_decimal 100; currency := "EUR" |})]]
  /\ errors (trace w') = [WriteError "EROFS"].
Proof. vm_compute. split; [reflexivity | split; reflexivity]. Qed.

(** The requested date is not in the calendar: a failure message, and the
    route stays absent from the store. *)
Example pass_date_not_found :
  let w' := (main_loop_pass Scenario.env_not_found (initial_world NoFile)).2 in
  telegrams (trace w') = [FetchFailed "Bucharest (OTP)" "London Luton (LTN)" "2025-01-01"]
  /\ file_entries (PREV_PRICES_FILE w') = Some []
  /\ errors (trace w') = [PriceNotFound "2025-01-01T00:00:00"].
Proof. vm_compute. split; [reflexivity | split; reflexivity]. Qed.

(** A move by one cent is a change or not, as the floats have it:
    [abs(100.01 - 100) > 0.01] holds and [abs(0.03 - 0.02) > 0.01] does not. *)
Example one_cent_up_is_sent :
  change_message "OTP" "LTN" "2025-01-01" (Num.of_decimal (10001 # 100)) "EUR"
    (Some {| price := Num.of_decimal 100; currency := "EUR" |})
  = Some (PriceChange Up "OTP" "LTN" "2025-01-01" "100.01 EUR" "100.00 EUR").
Proof. vm_compute. reflexivity. Qed.

Example one_cent_up_is_withheld :
  change_message "OTP" "LTN" "2025-01-01" (Num.of_decimal (3 # 100)) "EUR"
    (Some {| price := Num.of_decimal (2 # 100); currency := "EUR" |})
  = None.
Proof. vm_compute. reflexivity. Qed.

(** The first sighting of a route. *)
Example first_sighting_RON :
  change_message "BUD" "FCO" "2025-02-03" (Num.of_decimal 80) "RON" None
  = Some (PriceChange Down "BUD" "FCO" "2025-02-03" "80.00 RON (≈ 16.33 EUR)" "–").
Proof. vm_compute. reflexivity. Qed.

(** The text of a change message. *)
Example render_change :
  render (PriceChange Up "Bucharest (OTP)" "LTN" "2025-01-01" "115.50 EUR" "100.00 EUR")
  = ("⬆️ <b>Bucharest (OTP) → LTN</b>" ++ String "010" "Дата вылета: <b>2025-01-01</b>"
     ++ String "010" "Цена: <b>115.50 EUR</b>"
     ++ String "010" "Старое: <b>100.00 EUR</b>")%string.
Proof. vm_compute. reflexivity. Qed.

(** A routes file that exists and cannot be read ends the loop with the
    exception. *)
Example unreadable_routes_raise :
  (main_loop_pass
     (Scenario.world_of Scenario.build_page (fun _ => NetworkError "unused")
        (fun _ => RoutesUnreadable "JSONDecodeError") Written)
     (initial_world NoFile)).1
  = Raised "JSONDecodeError".
Proof. vm_compute. reflexivity. Qed.

Local Open Scope string_scope.

(** ** The version pattern *)

Lemma string_app_cons (x : ascii) (a b : string) : String x a ++ b = String x (a ++ b).
Proof. reflexivity. Qed.

Lemma string_app_nil_l (a : string) : EmptyString ++ a = a.
Proof. reflexivity. Qed.

Lemma string_app_assoc (a b c : string) : (a ++ b) ++ c = a ++ (b ++ c).
Proof.
  induction a as [|x a IH]; [reflexivity|].
  rewrite !string_app_cons. now rewrite IH.
Qed.

Lemma string_app_nil_r (a : string) : a ++ EmptyString = a.
Proof.
  induction a as [|x a IH]; [reflexivity|].
  rewrite string_app_cons. now rewrite IH.
Qed.

Lemma string_app_inv_head (a b c : string) : a ++ b = a ++ c -> b = c.
Proof.
  induction a as [|x a IH]; [now intros H|].
  rewrite !string_app_cons. intros [= H]. now apply IH.
Qed.

Lemma string_length_app (a b : string) :
  String.length (a ++ b) = (String.length a + String.length b)%nat.
Proof.
  induction a as [|x a IH]; [reflexivity|].
  rewrite string_app_cons. cbn [String.length]. now rewrite IH.
Qed.

Section PatternFacts.
Import Pattern.

Variable decimal : N -> bool.

(** *** Decoding one code point *)

(** A decoded code point is followed by the rest of the text, and it is
    decoded the same whatever follows its bytes. *)
Lemma code_point_spec s cp b r :
  code_point s = Some (cp, b, r) ->
  s = b ++ r /\ b <> EmptyString /\
  forall t, code_point (b ++ t) = Some (cp, b, t).
Proof.
  unfold code_point.
  destruct s as [|a1 r1]; [discriminate|].
  destruct (byte a1 <? 128)%N eqn:E1.
  { intros [= <- <- <-]. split; [reflexivity|]. split; [discriminate|].
    intros t. rewrite string_app_cons, string_app_nil_l. now rewrite E1. }
  destruct r1 as [|a2 r2]; [discriminate|].
  destruct (continuation a2) as [y|] eqn:C2; [|discriminate].
  destruct ((194 <=? byte a1)%N && (byte a1 <? 224)%N)%bool eqn:E2.
  { intros [= <- <- <-]. split; [reflexivity|]. split; [discriminate|].
    intros t. rewrite !string_app_cons, string_app_nil_l. now rewrite E1, C2, E2. }
  destruct r2 as [|a3 r3]; [discriminate|].
  destruct (continuation a3) as [z|] eqn:C3; [|discriminate].
  destruct ((224 <=? byte a1)%N && (byte a1 <? 240)%N)%bool eqn:E3.
  { cbn zeta. destruct (2048 <=? _)%N eqn:E3'; [|discriminate].
    intros [= <- <- <-]. split; [reflexivity|]. split; [discriminate|].
    intros t. rewrite !string_app_cons, string_app_nil_l.
    now rewrite E1, C2, E2, C3, E3, E3'. }
  destruct r3 as [|a4 r4]; [discriminate|].
  destruct (continuation a4) as [u|] eqn:C4; [|discriminate].
  cbn zeta. destruct (_ && _ && _ && _)%bool eqn:E4; [|discriminate].
  intros [= <- <- <-]. split; [reflexivity|]. split; [discriminate|].
  intros t. rewrite !string_app_cons, string_app_nil_l.
  now rewrite E1, C2, E2, C3, E3, C4, E4.
Qed.

Lemma code_point_shorter s cp b r :
  code_point s = Some (cp, b, r) -> (String.length r < String.length s)%nat.
Proof.
  intros H. apply code_point_spec in H. destruct H as (-> & Hb & _).
  rewrite string_length_app. destruct b; [congruence|]. cbn [String.length]. lia.
Qed.

(** Induction along the code points of a text. *)
Lemma code_point_ind (P : string -> Prop) :
  (forall s, (forall cp b r, code_point s = Some (cp, b, r) -> P r) -> P s) ->
  forall s, P s.
Proof.
  intros Hstep s.
  remember (String.length s) as n eqn:Hn.
  revert s Hn. induction n as [n IH] using lt_wf_ind. intros s Hn.
  apply Hstep. intros cp b r Hcp.
  apply (IH (String.length r)); [|reflexivity].
  subst n. now apply code_point_shorter in Hcp.
Qed.

(** *** The longest run of digits *)

Lemma take_digits_upto_enough n : forall m s,
  (String.length s <= n)%nat -> (String.length s <= m)%nat ->
  take_digits_upto decimal n s = take_digits_upto decimal m s.
Proof.
  induction n as [|n IH]; intros m s Hn Hm.
  - destruct s; [|cbn in Hn; lia]. now destruct m.
  - destruct m as [|m].
    + destruct s; [reflexivity|cbn in Hm; lia].
    + cbn [take_digits_upto].
      destruct (code_point s) as [[[cp b] r]|] eqn:E; [|reflexivity].
      apply code_point_shorter in E.
      destruct (is_digit decimal cp); [|reflexivity].
      rewrite (IH m r) by lia. reflexivity.
Qed.

(** One step of the scan, whatever the length of the text. *)
Lemma take_digits_step s :
  take_digits decimal s =
  match code_point s with
  | Some (cp, b, rest) =>
      if is_digit decimal cp then
        let '(ds, r) := take_digits decimal rest in (b ++ ds, r)
      else (EmptyString, s)
  | None => (EmptyString, s)
  end.
Proof.
  unfold take_digits. destruct s as [|a s']; [reflexivity|].
  cbn [String.length take_digits_upto].
  destruct (code_point (String a s')) as [[[cp b] r]|] eqn:E; [|reflexivity].
  apply code_point_shorter in E. cbn [String.length] in E.
  destruct (is_digit decimal cp); [|reflexivity].
  rewrite (take_digits_upto_enough (String.length s') (String.length r) r) by lia.
  reflexivity.
Qed.

Lemma take_digits_nil : take_digits decimal EmptyString = (EmptyString, EmptyString).
Proof. reflexivity. Qed.

Lemma take_digits_spec : forall s ds r,
  take_digits decimal s = (ds, r) ->
  s = ds ++ r /\ take_digits decimal ds = (ds, EmptyString)
  /\ no_leading_digit decimal r.
Proof.
  unfold no_leading_digit.
  induction s as [s IH] using code_point_ind. intros ds r H.
  rewrite take_digits_step in H.
  destruct (code_point s) as [[[cp b] rest]|] eqn:E.
  - destruct (is_digit decimal cp) eqn:Hd.
    + destruct (take_digits decimal rest) as [ds' r'] eqn:Hr.
      injection H as <- <-.
      destruct (IH cp b rest eq_refl ds' r' Hr) as (Hrest & Hrun & Hno).
      destruct (code_point_spec _ _ _ _ E) as (Hs & _ & Hcp).
      split; [rewrite Hs, Hrest; now rewrite string_app_assoc|].
      split; [|exact Hno].
      rewrite take_digits_step, Hcp, Hd, Hrun. reflexivity.
    + injection H as <- <-. split; [reflexivity|]. split; [reflexivity|].
      rewrite take_digits_step, E, Hd. reflexivity.
  - injection H as <- <-. split; [reflexivity|]. split; [reflexivity|].
    rewrite take_digits_step, E. reflexivity.
Qed.

(** The other direction: scanning a run that is there. *)
Lemma take_digits_app : forall ds t,
  take_digits decimal ds = (ds, EmptyString) ->
  take_digits decimal (ds ++ t)
  = (ds ++ (take_digits decimal t).1, (take_digits decimal t).2).
Proof.
  induction ds as [ds IH] using code_point_ind. intros t H.
  rewrite take_digits_step in H.
  destruct (code_point ds) as [[[cp b] rest]|] eqn:E.
  - destruct (code_point_spec _ _ _ _ E) as (Hs & Hb & Hcp).
    destruct (is_digit decimal cp) eqn:Hd.
    + destruct (take_digits decimal rest) as [ds' r'] eqn:Hr.
      injection H as H1 H2. subst r'.
      assert (ds' = rest) by (rewrite Hs in H1; now apply string_app_inv_head in H1).
      subst ds'.
      rewrite Hs, string_app_assoc, take_digits_step, Hcp, Hd.
      rewrite (IH cp b rest eq_refl t Hr).
      destruct (take_digits decimal t) as [x y]. cbn [fst snd].
      now rewrite string_app_assoc.
    + injection H as H1 H2. subst ds. discriminate E.
  - injection H as H1 H2. subst ds.
    rewrite string_app_nil_l. now destruct (take_digits decimal t).
Qed.

(** A run of the digits 0-9 is a run of decimal digits, whatever the class
    beyond ASCII. *)
Lemma take_digits_ascii s :
  Num.all_digits s = true -> take_digits decimal s = (s, EmptyString).
Proof.
  induction s as [|c s IH]; [reflexivity|].
  cbn [Num.all_digits]. intros H. apply andb_true_iff in H. destruct H as [Hc Hs].
  assert (Hcp : code_point (String c s) = Some (byte c, String c EmptyString, s)
                /\ is_digit decimal (byte c) = true).
  { destruct c as [[|] [|] [|] [|] [|] [|] [|] [|]]; try discriminate Hc;
      split; reflexivity. }
  rewrite take_digits_step, (proj1 Hcp), (proj2 Hcp), (IH Hs). reflexivity.
Qed.

Lemma ascii_digit_run_run s : ascii_digit_run s -> digit_run decimal s.
Proof. intros [Hne Hd]. split; [exact Hne|now apply take_digits_ascii]. Qed.

Lemma ascii_version_shaped v : ascii_version v -> version_shaped decimal v.
Proof.
  intros (a & b & c & -> & Ha & Hb & Hc).
  exists a, b, c. auto using ascii_digit_run_run.
Qed.

(** The dot is not a digit. *)
Lemma take_digits_dot r :
  take_digits decimal (String "." r) = (EmptyString, String "." r).
Proof. now rewrite take_digits_step. Qed.

(** *** The pattern at one position *)

Lemma digits1_spec s ds r :
  digits1 decimal s = Some (ds, r) ->
  s = ds ++ r /\ digit_run decimal ds /\ no_leading_digit decimal r.
Proof.
  unfold digits1. destruct (take_digits decimal s) as [ds' r'] eqn:E.
  destruct (take_digits_spec s ds' r' E) as (Hs & Hd & Hr).
  destruct ds' as [|c ds'']; [discriminate|]. intros [= <- <-].
  split; [exact Hs|]. split; [|exact Hr]. split; [discriminate|exact Hd].
Qed.

Lemma dot_spec s r : dot s = Some r -> s = String "." r.
Proof.
  destruct s as [|c s]; [discriminate|]. cbn.
  destruct c as [[|] [|] [|] [|] [|] [|] [|] [|]]; try discriminate.
  now intros [= ->].
Qed.

Lemma version_at_spec s v :
  version_at decimal s = Some v ->
  exists rest, s = v ++ rest /\ version_shaped decimal v /\ no_leading_digit decimal rest.
Proof.
  unfold version_at. cbn [mbind option_bind].
  destruct (digits1 decimal s) as [[a r1]|] eqn:E1; [|discriminate]. cbn.
  destruct (dot r1) as [r2|] eqn:D1; [|discriminate]. cbn.
  destruct (digits1 decimal r2) as [[b r3]|] eqn:E2; [|discriminate]. cbn.
  destruct (dot r3) as [r4|] eqn:D2; [|discriminate]. cbn.
  destruct (digits1 decimal r4) as [[c r5]|] eqn:E3; [|discriminate]. cbn.
  intros [= <-].
  apply digits1_spec in E1, E2, E3. apply dot_spec in D1, D2.
  destruct E1 as (-> & Ha & _), E2 as (-> & Hb & _), E3 as (-> & Hc & Hr).
  subst r1 r3. exists r5. split.
  - rewrite !string_app_assoc. reflexivity.
  - split; [|exact Hr]. exists a, b, c. auto.
Qed.

Lemma strip_prefix_spec p : forall s r, strip_prefix p s = Some r -> s = p ++ r.
Proof.
  induction p as [|a p IH]; intros s r; cbn [strip_prefix].
  - now intros [= ->].
  - destruct s as [|b s]; [discriminate|].
    destruct (Ascii.eqb_spec a b) as [->|_]; [|discriminate].
    intros H. apply IH in H. now subst s.
Qed.

Lemma strip_prefix_app p r : strip_prefix p (p ++ r) = Some r.
Proof.
  induction p as [|a p IH]; [reflexivity|].
  rewrite string_app_cons. cbn [strip_prefix]. now rewrite Ascii.eqb_refl.
Qed.

Lemma match_here_spec s v :
  match_here decimal s = Some v ->
  exists rest,
    s = HOST ++ v ++ rest /\ version_shaped decimal v /\ no_leading_digit decimal rest.
Proof.
  unfold match_here. destruct (strip_prefix HOST s) as [r|] eqn:E; [|discriminate].
  cbn. intros Hv. apply strip_prefix_spec in E. apply version_at_spec in Hv.
  destruct Hv as (rest & -> & Hs & Hr). exists rest. auto.
Qed.

Lemma search_version_spec text : forall v,
  search_version decimal text = Some v ->
  exists pre rest,
    text = pre ++ HOST ++ v ++ rest
    /\ version_shaped decimal v /\ no_leading_digit decimal rest.
Proof.
  induction text as [|c text IH]; intros v; cbn [search_version].
  - destruct (match_here decimal EmptyString) eqn:E; [|discriminate].
    intros [= <-]. apply match_here_spec in E. destruct E as (rest & E & H).
    exists EmptyString, rest. auto.
  - destruct (match_here decimal (String c text)) as [v'|] eqn:E.
    + intros [= <-]. apply match_here_spec in E. destruct E as (rest & E & H).
      exists EmptyString, rest. auto.
    + intros H. apply IH in H. destruct H as (pre & rest & -> & H).
      exists (String c pre), rest. auto.
Qed.

Lemma digits1_dot ds r :
  digit_run decimal ds -> digits1 decimal (ds ++ String "." r) = Some (ds, String "." r).
Proof.
  intros [Hne Hd]. unfold digits1. rewrite (take_digits_app ds _ Hd), take_digits_dot.
  cbn [fst snd]. rewrite string_app_nil_r.
  destruct ds; [congruence|reflexivity].
Qed.

Lemma digits1_some ds r : digit_run decimal ds -> is_Some (digits1 decimal (ds ++ r)).
Proof.
  intros [Hne Hd]. unfold digits1. rewrite (take_digits_app ds _ Hd).
  destruct ds as [|c ds]; [congruence|]. rewrite string_app_cons. eauto.
Qed.

Lemma version_at_some v rest :
  version_shaped decimal v -> is_Some (version_at decimal (v ++ rest)).
Proof.
  intros (a & b & c & -> & Ha & Hb & Hc).
  unfold version_at. rewrite !string_app_assoc, !string_app_cons, !string_app_nil_l.
  cbn [mbind option_bind].
  rewrite (digits1_dot a) by exact Ha. cbn.
  rewrite (digits1_dot b) by exact Hb. cbn.
  destruct (digits1_some c rest Hc) as [[c' r'] ->]. cbn. eauto.
Qed.

Lemma search_version_found pre : forall v rest,
  version_shaped decimal v ->
  is_Some (search_version decimal (pre ++ HOST ++ v ++ rest)).
Proof.
  induction pre as [|c pre IH]; intros v rest Hv.
  - change (EmptyString ++ ?s) with s.
    assert (Hm : is_Some (match_here decimal (HOST ++ v ++ rest))).
    { unfold match_here. rewrite strip_prefix_app. cbn. now apply version_at_some. }
    destruct Hm as [v' Hm].
    destruct (HOST ++ v ++ rest) eqn:E; cbn [search_version]; rewrite Hm; eauto.
  - rewrite string_app_cons. cbn [search_version].
    destruct (match_here decimal (String c (pre ++ HOST ++ v ++ rest))); [eauto|].
    now apply IH.
Qed.

End PatternFacts.

(** X1. A version that the pattern search returns stands in the text right
    after the host prefix, has the shape digits.digits.digits, where a digit
    is a decimal digit of Unicode (0-9, or one of the class beyond ASCII),
    and is not followed by a further digit. *)
Theorem search_version_sound decimal text v :
  Pattern.search_version decimal text = Some v ->
  exists pre rest,
    text = pre ++ Pattern.HOST ++ v ++ rest
    /\ version_shaped decimal v /\ no_leading_digit decimal rest.
Proof. apply search_version_spec. Qed.

Lemma search_version_sound_witness :
  exists pre rest,
    "SSR https://be.wizzair.com/٢٧.٣٦.٠ ok" = pre ++ Pattern.HOST ++ "٢٧.٣٦.٠" ++ rest
    /\ version_shaped Scenario.unicode_decimal "٢٧.٣٦.٠"
    /\ no_leading_digit Scenario.unicode_decimal rest.
Proof.
  apply (search_version_sound Scenario.unicode_decimal
           "SSR https://be.wizzair.com/٢٧.٣٦.٠ ok" "٢٧.٣٦.٠").
  vm_compute. reflexivity.
Defined.

(** X2. The search finds a version whenever the text holds the host prefix
    followed by digits.digits.digits, wherever that is: for runs of decimal
    digits of the class, and so for runs of the digits 0-9 whatever the
    class is beyond ASCII. *)
Theorem search_version_complete decimal pre v rest :
  (version_shaped decimal v ->
   is_Some (Pattern.search_version decimal (pre ++ Pattern.HOST ++ v ++ rest)))
  /\ (ascii_version v ->
      is_Some (Pattern.search_version decimal (pre ++ Pattern.HOST ++ v ++ rest))).
Proof.
  split.
  - apply search_version_found.
  - intros Hv. apply search_version_found. now apply ascii_version_shaped.
Qed.

Lemma search_version_complete_witness :
  is_Some (Pattern.search_version Scenario.unicode_decimal
             ("<p>" ++ Pattern.HOST ++ "1.2.3" ++ "</p>")).
Proof.
  apply (proj2 (search_version_complete Scenario.unicode_decimal "<p>" "1.2.3" "</p>")).
  exists "1", "2", "3". repeat split; discriminate.
Defined.

(** ** Route ids and route descriptions *)

Lemma hyphen_split (a : string) : forall a' r r',
  hyphen_free a = true -> hyphen_free a' = true ->
  a ++ String "-" r = a' ++ String "-" r' -> a = a' /\ r = r'.
Proof.
  induction a as [|x a IH]; intros [|x' a'] r r' Ha Ha' E.
  - rewrite !string_app_nil_l in E. now injection E.
  - rewrite string_app_nil_l, string_app_cons in E. injection E as <- _.
    cbn in Ha'. discriminate Ha'.
  - rewrite string_app_nil_l, string_app_cons in E. injection E as -> _.
    cbn in Ha. discriminate Ha.
  - rewrite !string_app_cons in E. injection E as <- E.
    cbn [hyphen_free] in Ha, Ha'.
    apply andb_true_iff in Ha, Ha'. destruct Ha as [_ Ha], Ha' as [_ Ha'].
    destruct (IH a' r r' Ha Ha' E) as [-> ->]. split; reflexivity.
Qed.

(** X3. Routes whose origin and destination codes hold no hyphen have the
    same id only when origin, destination and departure date are the same:
    the id tells such routes apart up to the passenger count. *)
Theorem get_route_id_injective r1 r2 :
  hyphen_free (origin r1) = true -> hyphen_free (destination r1) = true ->
  hyphen_free (origin r2) = true -> hyphen_free (destination r2) = true ->
  get_route_id r1 = get_route_id r2 ->
  origin r1 = origin r2 /\ destination r1 = destination r2
  /\ depart_date r1 = depart_date r2.
Proof.
  intros Ho1 Hd1 Ho2 Hd2 E. unfold get_route_id in E.
  rewrite !string_app_cons, !string_app_nil_l in E.
  destruct (hyphen_split _ _ _ _ Ho1 Ho2 E) as [Eo E'].
  destruct (hyphen_split _ _ _ _ Hd1 Hd2 E') as [Ed Edate].
  auto.
Qed.

Lemma get_route_id_injective_witness :
  origin Scenario.OTP_LTN = origin Scenario.OTP_LTN_pair
  /\ destination Scenario.OTP_LTN = destination Scenario.OTP_LTN_pair
  /\ depart_date Scenario.OTP_LTN = depart_date Scenario.OTP_LTN_pair.
Proof.
  apply (get_route_id_injective Scenario.OTP_LTN Scenario.OTP_LTN_pair); reflexivity.
Defined.

(** With a hyphen in a code two different routes can share an id. *)
Example get_route_id_collision :
  get_route_id {| origin := "A-B"; destination := "C"; depart_date := "2025-01-01";
                  adults := None |}
  = get_route_id {| origin := "A"; destination := "B-C"; depart_date := "2025-01-01";
                    adults := None |}.
Proof. reflexivity. Qed.

Lemma city_name_cases env code :
  (get_city_name_with_code env code = code <->
     AIRPORT_CODES env !! code = None \/ AIRPORT_CODES env !! code = Some code)
  /\ (forall name, AIRPORT_CODES env !! code = Some name -> name <> code ->
        get_city_name_with_code env code = name ++ " (" ++ code ++ ")").
Proof.
  unfold get_city_name_with_code. cbn zeta.
  destruct (AIRPORT_CODES env !! code) as [name|] eqn:E; cbv [default from_option id].
  - destruct (decide (name = code)) as [Heq|Hne].
    + subst name. split.
      * split; [intros _; now right | reflexivity].
      * intros name' [= <-] Hne. congruence.
    + split.
      * split.
        -- intros H. exfalso.
           apply (f_equal String.length) in H.
           rewrite !string_length_app in H. cbn [String.length] in H. lia.
        -- intros [H|[= H]]; [discriminate|contradiction].
      * intros name' [= <-] _. reflexivity.
  - destruct (decide (code = code)); [|congruence].
    split.
    + split; [intros _; now left | reflexivity].
    + intros name [=].
Qed.

(** X4. The description of an airport is the bare code exactly when the
    table has no entry for the code or maps the code to itself; otherwise it
    is the city name followed by the code in parentheses. The code is shown
    either way. *)
Theorem get_city_name_with_code_cases env code :
  (get_city_name_with_code env code = code <->
     AIRPORT_CODES env !! code = None \/ AIRPORT_CODES env !! code = Some code)
  /\ (forall name, AIRPORT_CODES env !! code = Some name -> name <> code ->
        get_city_name_with_code env code = name ++ " (" ++ code ++ ")").
Proof. apply city_name_cases. Qed.

Lemma get_city_name_with_code_witness :
  get_city_name_with_code Scenario.env_single "OTP" = "Bucharest (OTP)".
Proof.
  apply (proj2 (get_city_name_with_code_cases Scenario.env_single "OTP") "Bucharest").
  - reflexivity.
  - discriminate.
Defined.

(** X5. When [airports.json] is missing or cannot be read the table is
    empty, and every airport is then described by its bare code; only the
    unreadable file is reported as an error. *)
Theorem load_airports_degrades env f code :
  AIRPORT_CODES env = (load_airports f).1 ->
  (forall codes, f <> AirportsLoaded codes) ->
  get_city_name_with_code env code = code
  /\ ((load_airports f).2 = None <-> f = AirportsMissing).
Proof.
  intros Henv Hf. split.
  - apply (proj1 (city_name_cases env code)). left.
    rewrite Henv. destruct f as [|e|codes]; cbn; try apply lookup_empty.
    now destruct (Hf codes).
  - destruct f as [|e|codes]; cbn.
    + split; reflexivity.
    + split; discriminate.
    + now destruct (Hf codes).
Qed.

Lemma load_airports_degrades_witness :
  get_city_name_with_code (Startup.env_started (AirportsUnreadable "JSONDecodeError")) "OTP"
  = "OTP"
  /\ ((load_airports (AirportsUnreadable "JSONDecodeError")).2 = None
      <-> AirportsUnreadable "JSONDecodeError" = AirportsMissing).
Proof.
  apply (load_airports_degrades
           (Startup.env_started (AirportsUnreadable "JSONDecodeError"))
           (AirportsUnreadable "JSONDecodeError") "OTP").
  - reflexivity.
  - discriminate.
Defined.

Local Open Scope list_scope.

(** ** More about the events of a pass *)

Lemma infos_app a b : infos (a ++ b) = infos a ++ infos b.
Proof. apply omap_app. Qed.
Lemma gets_app a b : gets (a ++ b) = gets a ++ gets b.
Proof. apply omap_app. Qed.
Lemma unlogged_app a b : unlogged (a ++ b) = unlogged a ++ unlogged b.
Proof. apply omap_app. Qed.

#[export] Hint Rewrite infos_app gets_app unlogged_app : trace_proj.

Lemma loop_stretch_nil : loop_stretch [].
Proof. split; [apply not_elem_of_nil|reflexivity]. Qed.

Lemma loop_stretch_app a b : loop_stretch a -> loop_stretch b -> loop_stretch (a ++ b).
Proof.
  intros [Ha Ga] [Hb Gb]. split.
  - rewrite infos_app, elem_of_app. tauto.
  - now rewrite gets_app, Ga, Gb.
Qed.

Lemma loop_stretch_cons e evs :
  loop_stretch [e] -> loop_stretch evs -> loop_stretch (e :: evs).
Proof. intros H1 H2. apply (loop_stretch_app [e] evs H1 H2). Qed.

Ltac stretch1 :=
  split; [cbn; first [apply not_elem_of_nil
                      | intros H; apply list_elem_of_singleton in H; discriminate H]
         | reflexivity].

Lemma change_message_is_change oc dc d p c prior msg :
  change_message oc dc d p c prior = Some msg -> is_change msg = true.
Proof.
  unfold change_message. destruct (match prior with Some _ => _ | None => _ end);
    [|discriminate]. now intros [= <-].
Qed.

Lemma fetched_unlogged evs : fetched (unlogged evs) = fetched evs.
Proof.
  induction evs as [|[] evs IH]; cbn; [reflexivity|..]; first [exact IH | f_equal; exact IH].
Qed.

Lemma telegrams_unlogged evs : telegrams (unlogged evs) = telegrams evs.
Proof.
  induction evs as [|[] evs IH]; cbn; [reflexivity|..]; first [exact IH | f_equal; exact IH].
Qed.

Lemma posts_unlogged evs : posts (unlogged evs) = posts evs.
Proof.
  induction evs as [|[] evs IH]; cbn; [reflexivity|..]; first [exact IH | f_equal; exact IH].
Qed.

Lemma sleeps_unlogged evs : sleeps (unlogged evs) = sleeps evs.
Proof.
  induction evs as [|[] evs IH]; cbn; [reflexivity|..]; first [exact IH | f_equal; exact IH].
Qed.

Lemma saves_unlogged evs : saves (unlogged evs) = saves evs.
Proof.
  induction evs as [|[] evs IH]; cbn; [reflexivity|..]; first [exact IH | f_equal; exact IH].
Qed.

Lemma loads_unlogged evs : loads (unlogged evs) = loads evs.
Proof.
  induction evs as [|[] evs IH]; cbn; [reflexivity|..]; first [exact IH | f_equal; exact IH].
Qed.

Lemma gets_unlogged evs : gets (unlogged evs) = gets evs.
Proof.
  induction evs as [|[] evs IH]; cbn; [reflexivity|..]; first [exact IH | f_equal; exact IH].
Qed.

Lemma fetched_telegram_events ms : fetched (Telegram <$> ms) = [].
Proof. induction ms as [|m ms IH]; [reflexivity|exact IH]. Qed.

Lemma posts_telegram_events ms : posts (Telegram <$> ms) = [].
Proof. induction ms as [|m ms IH]; [reflexivity|exact IH]. Qed.

Lemma sleeps_telegram_events ms : sleeps (Telegram <$> ms) = [].
Proof. induction ms as [|m ms IH]; [reflexivity|exact IH]. Qed.

Lemma telegrams_telegram_events ms : telegrams (Telegram <$> ms) = ms.
Proof. induction ms as [|m ms IH]; [reflexivity|cbn; f_equal; exact IH]. Qed.

Section MoreProgramFacts.

Variable env : Env.

Lemma find_price_truthy' target flights w res w' :
  find_price target flights w = (Ok res, w') -> truthy_result res.
Proof.
  revert w w'. induction flights as [|f rest IH]; intros w w'; cbn [find_price].
  - run. intros [= <- _] p c [=].
  - destruct (decide (date f = Some target)); [|apply IH].
    destruct (decide (priceType f = Some "price"%string)).
    + destruct (flight_price f ≫= amount) as [p0|]; [|apply IH].
      destruct (flight_price f ≫= currencyCode) as [c0|]; [|apply IH].
      destruct (Num.truthy p0 && negb (String.eqb c0 EmptyString))%bool eqn:E; [|apply IH].
      run. intros [= <- _] p c [= <- <-].
      apply andb_true_iff in E. destruct E as [Ep Ec].
      split; [exact Ep|].
      apply negb_true_iff in Ec. intros ->. discriminate Ec.
    + run. intros [= <- _] p c [=].
Qed.

Lemma find_price_more target flights w :
  exists res w' evs,
    find_price target flights w = (Ok res, w') /\ trace w' = trace w ++ evs /\
    now w' = now w /\ loop_stretch evs /\ infos evs = [] /\ unlogged evs = [].
Proof.
  induction flights as [|flight rest IH]; cbn [find_price].
  - run. eexists _, _, [_]. split; [reflexivity|]. cbn. repeat split.
    apply not_elem_of_nil.
  - destruct (decide (date flight = Some target)); [|exact IH].
    destruct (decide (priceType flight = Some "price"%string)).
    + destruct (flight_price flight ≫= amount) as [p|]; [|exact IH].
      destruct (flight_price flight ≫= currencyCode) as [c|]; [|exact IH].
      destruct (Num.truthy p && negb (String.eqb c EmptyString))%bool; [|exact IH].
      run. eexists _, _, []. split; [reflexivity|]. cbn. rewrite app_nil_r.
      repeat split. apply not_elem_of_nil.
    + run. eexists _, _, [_]. split; [reflexivity|]. cbn. repeat split.
      apply not_elem_of_nil.
Qed.

Lemma check_route_price_more o d dd a w :
  exists res w' evs,
    check_route_price env o d dd a w = (Ok res, w') /\ trace w' = trace w ++ evs /\
    now w' = S (now w) /\ loop_stretch evs /\ truthy_result res /\
    unlogged evs = [HttpPost (farechart_url (API_VERSION w)) (farechart_payload o d dd a)].
Proof.
  unfold check_route_price. run.
  match goal with |- context [http_post env ?t ?u ?p] =>
    destruct (http_post env t u p) as [e|st body|[data|]] end.
  - run. eexists _, _, [_; _]. split; [reflexivity|]. cbn.
    rewrite <- app_assoc. split; [reflexivity|]. split; [reflexivity|].
    split; [split; [apply not_elem_of_nil|reflexivity]|].
    split; [intros p0 c0 [=]|reflexivity].
  - run. eexists _, _, [_; _]. split; [reflexivity|]. cbn.
    rewrite <- app_assoc. split; [reflexivity|]. split; [reflexivity|].
    split; [split; [apply not_elem_of_nil|reflexivity]|].
    split; [intros p0 c0 [=]|reflexivity].
  - match goal with |- context [find_price ?t ?f ?w0] =>
      destruct (find_price_more t f w0)
        as (res & w' & evs & Hrun & Ht & Hn & Hst & Hi & Hu);
      pose proof (find_price_truthy' t f w0 res w' Hrun) as Htr
    end.
    rewrite Hrun. eexists res, w', (_ :: evs). split; [reflexivity|].
    cbn in Ht, Hn. rewrite Ht, Hn, <- app_assoc.
    split; [reflexivity|]. split; [reflexivity|].
    split; [apply loop_stretch_cons; [stretch1|exact Hst]|].
    split; [exact Htr|].
    change (HttpPost ?u ?q :: evs) with ([HttpPost u q] ++ evs).
    rewrite unlogged_app, Hu. reflexivity.
  - run. eexists _, _, [_; _]. split; [reflexivity|]. cbn.
    rewrite <- app_assoc. split; [reflexivity|]. split; [reflexivity|].
    split; [split; [apply not_elem_of_nil|reflexivity]|].
    split; [intros p0 c0 [=]|reflexivity].
Qed.

Lemma send_telegram_more msg w :
  exists w' evs,
    send_telegram env msg w = (Ok tt, w') /\ trace w' = trace w ++ evs /\
    now w' = S (now w) /\ loop_stretch evs /\ unlogged evs = [Telegram msg].
Proof.
  unfold send_telegram. run.
  destruct (telegram_post env (now w) msg) as [e|]; run;
    eexists _, [_; _]; (split; [reflexivity|]); cbn;
    rewrite <- app_assoc; repeat split;
    first [apply not_elem_of_nil
          | intros H; apply list_elem_of_singleton in H; discriminate H].
Qed.

Lemma handle_result_more prev route result cur any w :
  exists any' w' evs,
    handle_result env prev route result cur any w
      = (Ok (stage cur (route, result), any'), w') /\
    trace w' = trace w ++ evs /\
    loop_stretch evs /\
    any' = (any || existsb is_change (notification env prev (route, result)))%bool /\
    unlogged evs = Telegram <$> notification env prev (route, result) /\
    now w' = (now w + length (notification env prev (route, result)))%nat.
Proof.
  unfold handle_result, notification. cbn [fst snd stage].
  destruct result as [[p c]|].
  - destruct (change_message _ _ _ p c (prev !! get_route_id route)) as [msg|] eqn:E.
    + destruct (send_telegram_more msg w) as (w' & evs & Hrun & Ht & Hn & Hst & Hu).
      erewrite bind_Ok by exact Hrun. run. eexists _, w', evs.
      split; [reflexivity|]. split; [exact Ht|]. split; [exact Hst|].
      cbn. split; [|split; [exact Hu|lia]].
      apply change_message_is_change in E. rewrite E. now rewrite !orb_true_r.
    + run. eexists _, _, [_]. split; [reflexivity|]. cbn.
      repeat split; try (rewrite orb_false_r; reflexivity); try lia.
      intros H. apply list_elem_of_singleton in H. discriminate H.
  - match goal with |- context [send_telegram env ?m] =>
      destruct (send_telegram_more m w) as (w' & evs & Hrun & Ht & Hn & Hst & Hu) end.
    erewrite bind_Ok by exact Hrun. run. eexists _, w', evs.
    split; [reflexivity|]. split; [exact Ht|]. split; [exact Hst|].
    cbn. split; [now rewrite orb_false_r|split; [exact Hu|lia]].
Qed.

Lemma check_route_more prev total idx route cur any w :
  exists result any' w' evs,
    check_route env prev total idx route cur any w
      = (Ok (stage cur (route, result), any'), w') /\
    trace w' = trace w ++ evs /\
    API_VERSION w' = API_VERSION w /\
    loop_stretch evs /\
    truthy_result result /\
    any' = (any || existsb is_change (notification env prev (route, result)))%bool /\
    unlogged evs = route_actions env (API_VERSION w) prev (route, result).
Proof.
  unfold check_route. run.
  match goal with |- context [check_route_price env ?o ?d ?dd ?a ?w0] =>
    destruct (check_route_price_more o d dd a w0)
      as (result & w1 & e1 & Hrun1 & Ht1 & Hn1 & Hst1 & Htr1 & Hu1);
    destruct (check_route_price_spec env o d dd a w0)
      as (result' & w1' & e1' & Hrun1' & (V1 & _) & _)
  end.
  rewrite Hrun1 in Hrun1'. injection Hrun1' as <- <-.
  rewrite Hrun1.
  match goal with |- context [handle_result env prev route result cur any ?w0] =>
    destruct (handle_result_more prev route result cur any w0)
      as (any' & w2 & e2 & Hrun2 & Ht2 & Hst2 & Hany & Hu2 & Hn2);
    destruct (handle_result_spec env prev route result cur any w0)
      as (any2 & w2' & e2' & Hrun2' & (V2 & _) & _)
  end.
  rewrite Hrun2 in Hrun2'. injection Hrun2' as <- <-.
  rewrite Hrun2.
  eexists result, any', _,
    (Log INFO _ :: e1 ++ Fetched route result :: e2 ++ [Sleep ROUTE_DELAY_SECONDS]).
  split; [reflexivity|].
  cbn in Ht1, Ht2, V1, V2.
  split; [cbn; rewrite Ht2, Ht1, <- !app_assoc; reflexivity|].
  split; [cbn; now rewrite V2, V1|].
  split.
  { apply loop_stretch_cons; [stretch1|].
    apply loop_stretch_app; [exact Hst1|].
    apply loop_stretch_cons; [stretch1|].
    apply loop_stretch_app; [exact Hst2|stretch1]. }
  split; [exact Htr1|]. split; [exact Hany|].
  change (Log INFO ?r :: ?l) with ([Log INFO r] ++ l).
  change (Fetched route result :: ?l) with ([Fetched route result] ++ l).
  rewrite !unlogged_app, Hu1, Hu2. reflexivity.
Qed.

Lemma for_routes_more prev total routes : forall idx cur any w,
  exists cur' any' w' evs,
    for_routes env prev total idx routes cur any w = (Ok (cur', any'), w') /\
    trace w' = trace w ++ evs /\
    loop_stretch evs /\
    Forall (fun f => truthy_result f.2) (fetched evs) /\
    any' = (any || existsb is_change (telegrams evs))%bool /\
    unlogged evs = concat (route_actions env (API_VERSION w) prev <$> fetched evs).
Proof.
  induction routes as [|route rest IH]; intros idx cur any w; cbn [for_routes].
  - run. eexists cur, any, w, []. split; [reflexivity|].
    rewrite app_nil_r. split; [reflexivity|]. split; [apply loop_stretch_nil|].
    split; [constructor|]. cbn. now rewrite orb_false_r.
  - destruct (check_route_more prev total idx route cur any w)
      as (result & any1 & w1 & e1 & Hrun1 & Ht1 & V1 & Hst1 & Htr1 & Hany1 & Hu1).
    destruct (check_route_spec env prev total idx route cur any w)
      as (result' & any1' & w1' & e1' & Hrun1' & (_ & _ & Ht1') & Hf1 & Htel1 & _).
    rewrite Hrun1 in Hrun1'. injection Hrun1' as Hres <- <-.
    assert (result' = result) as ->.
    { rewrite Ht1 in Ht1'. apply app_inv_head in Ht1'. subst e1'.
      clear -Hf1 Hu1. 
      apply (f_equal fetched) in Hu1. unfold route_actions in Hu1.
      rewrite fetched_unlogged, Hf1 in Hu1. cbn in Hu1.
      rewrite fetched_app in Hu1. cbn in Hu1.
      rewrite fetched_telegram_events in Hu1. cbn in Hu1. congruence. }
    rewrite Ht1 in Ht1'. apply app_inv_head in Ht1'. subst e1'.
    erewrite bind_Ok by exact Hrun1. cbn beta iota.
    destruct (IH (S idx) (stage cur (route, result)) any1 w1)
      as (cur' & any' & w' & e2 & Hrun2 & Ht2 & Hst2 & Htr2 & Hany2 & Hu2).
    destruct (for_routes_spec env prev total rest (S idx) (stage cur (route, result)) any1 w1)
      as (cur2 & any2 & w2 & e2' & Hrun2' & (_ & _ & Ht2') & _).
    rewrite Hrun2. eexists cur', any', w', (e1 ++ e2).
    split; [reflexivity|].
    split; [rewrite Ht2, Ht1, <- app_assoc; reflexivity|].
    split; [now apply loop_stretch_app|].
    autorewrite with trace_proj. rewrite Hf1, Htel1, Hu1, Hu2, V1.
    split; [constructor; [exact Htr1|exact Htr2]|].
    split; [|reflexivity].
    rewrite Hany2, Hany1, existsb_app, orb_assoc. reflexivity.
Qed.

Lemma get_current_api_version_more w :
  exists w' r l,
    get_current_api_version env w = (Ok tt, w') /\
    PREV_PRICES_FILE w' = PREV_PRICES_FILE w /\
    now w' = S (now w) /\
    trace w' = trace w ++ [HttpGet BUILD_NUMBER_URL; Log l r] /\
    API_VERSION w' = resolved_version env w /\
    r <> NoChanges.
Proof.
  unfold get_current_api_version, resolved_version. run.
  destruct (http_get env (now w) BUILD_NUMBER_URL) as [e|st body|text].
  - run. eexists _, _, _. split; [reflexivity|]. cbn.
    rewrite <- app_assoc. repeat split; auto; discriminate.
  - run. eexists _, _, _. split; [reflexivity|]. cbn.
    rewrite <- app_assoc. repeat split; auto; discriminate.
  - destruct (Pattern.search_version (decimal_digit env) text) as [v|].
    + run. destruct (decide (v <> API_VERSION w)) as [Hne|Heq].
      * run. eexists _, _, _. split; [reflexivity|]. cbn.
        rewrite <- app_assoc. repeat split; auto; discriminate.
      * run. eexists _, _, _. split; [reflexivity|]. cbn.
        rewrite <- app_assoc. repeat split; auto; try discriminate.
        destruct (decide (v = API_VERSION w)); [congruence|contradiction].
    + run. eexists _, _, _. split; [reflexivity|]. cbn.
      rewrite <- app_assoc. repeat split; auto; discriminate.
Qed.

End MoreProgramFacts.

(** ** The events of a whole pass *)

Section PassFacts.

Variable env : Env.

Lemma pass_events_of w w' evs r :
  main_loop_pass env w = (r, w') -> trace w' = trace w ++ evs ->
  pass_events env w = evs.
Proof.
  intros Hrun Ht. unfold pass_events. rewrite Hrun. cbn [snd].
  rewrite Ht. apply drop_app_length.
Qed.

(** A pass that finds its routes, with all that the later facts need. *)
Lemma main_loop_pass_trace w routes :
  routes_file env (S (now w)) = RoutesLoaded routes ->
  let prev := known_prices (PREV_PRICES_FILE w) in
  let v := resolved_version env w in
  exists w' l r body logs t,
    main_loop_pass env w = (Ok tt, w') /\
    trace w' = trace w ++
      [HttpGet BUILD_NUMBER_URL; Log l r; Log INFO (UsingVersion v); LoadPrevPrices prev]
      ++ body
      ++ SavePrevPrices (overlay prev (fetched body)) :: logs
      ++ [Sleep (CHECK_INTERVAL_MINUTES * 60)] /\
    (fetched body).*1 = routes /\
    loop_stretch body /\
    Forall (fun f => truthy_result f.2) (fetched body) /\
    unlogged body = concat (route_actions env v prev <$> fetched body) /\
    unlogged logs = [] /\
    (NoChanges ∈ infos logs <-> existsb is_change (telegrams body) = false) /\
    r <> NoChanges /\
    API_VERSION w' = v /\
    PREV_PRICES_FILE w' =
      match fs_write env t (overlay prev (fetched body)) with
      | Written => Stored (overlay prev (fetched body))
      | OpenRaised _ => PREV_PRICES_FILE w
      | DumpRaised _ => Unparseable
      end.
Proof.
  intros Hload prev v. unfold main_loop_pass.
  destruct (get_current_api_version_more env w)
    as (w1 & r & l & Hrun & Hf & Hn & Ht & Hv & Hr).
  fold v in Hv.
  erewrite bind_Ok by exact Hrun. run. rewrite Hn, Hload.
  unfold load_prev_prices. run.
  assert (Hprev : match PREV_PRICES_FILE w1 with Stored d => d | _ => ∅ end = prev)
    by (subst prev; rewrite Hf; now destruct (PREV_PRICES_FILE w)).
  rewrite Hprev.
  match goal with |- context [for_routes env prev ?n ?i routes ?c ?a ?w0] =>
    replace c with prev by (rewrite <- Hprev; destruct (PREV_PRICES_FILE w1); reflexivity);
    destruct (for_routes_spec env prev n routes i prev a w0)
        as (cur & any & w2 & body & Hrun2 & Hext2 & Hcur & Hfst & _);
    destruct (for_routes_more env prev n routes i prev a w0)
        as (cur' & any' & w2' & body' & Hrun2' & Ht2' & Hst & Htr & Hany & Hu)
  end.
  rewrite Hrun2 in Hrun2'. injection Hrun2' as <- <- <-.
  destruct Hext2 as (V2 & F2 & T2). cbn in V2, F2, T2, Ht2', Hu.
  rewrite T2 in Ht2'. apply app_inv_head in Ht2'. subst body'.
  rewrite Hv in Hu. cbn [orb] in Hany.
  rewrite Hrun2. unfold save_prev_prices. run. subst cur.
  destruct (fs_write env (now w2) (overlay prev (fetched body))) as [|e|e] eqn:Hw;
    destruct any; run;
    [ eexists _, l, r, body, [Log INFO NextCheck], (now w2)
    | eexists _, l, r, body, [Log INFO NoChanges; Log INFO NextCheck], (now w2)
    | eexists _, l, r, body, [Log ERROR (WriteError e); Log INFO NextCheck], (now w2)
    | eexists _, l, r, body,
        [Log ERROR (WriteError e); Log INFO NoChanges; Log INFO NextCheck], (now w2)
    | eexists _, l, r, body, [Log ERROR (WriteError e); Log INFO NextCheck], (now w2)
    | eexists _, l, r, body,
        [Log ERROR (WriteError e); Log INFO NoChanges; Log INFO NextCheck], (now w2) ];
    (split; [reflexivity|]);
    (split; [cbn [trace]; rewrite T2, Ht, Hv, <- ?app_assoc; reflexivity|]);
    (split; [exact Hfst|]); (split; [exact Hst|]); (split; [exact Htr|]);
    (split; [exact Hu|]); (split; [reflexivity|]);
    cbn [API_VERSION PREV_PRICES_FILE]; rewrite ?Hw, ?V2, ?F2, ?Hf;
    (split; [|split; [exact Hr|split; [exact Hv|reflexivity]]]);
    rewrite <- Hany; cbn;
    (split; intros H;
     first [ reflexivity | discriminate H | apply list_elem_of_here
           | apply list_elem_of_singleton in H; discriminate H ]).
Qed.

Lemma main_loop_pass_events w routes :
  routes_file env (S (now w)) = RoutesLoaded routes ->
  let prev := known_prices (PREV_PRICES_FILE w) in
  let v := resolved_version env w in
  exists l r body logs,
    pass_events env w =
      [HttpGet BUILD_NUMBER_URL; Log l r; Log INFO (UsingVersion v); LoadPrevPrices prev]
      ++ body
      ++ SavePrevPrices (overlay prev (fetched body)) :: logs
      ++ [Sleep (CHECK_INTERVAL_MINUTES * 60)] /\
    (fetched body).*1 = routes /\
    loop_stretch body /\
    Forall (fun f => truthy_result f.2) (fetched body) /\
    unlogged body = concat (route_actions env v prev <$> fetched body) /\
    unlogged logs = [] /\
    (NoChanges ∈ infos logs <-> existsb is_change (telegrams body) = false) /\
    r <> NoChanges.
Proof.
  intros Hload prev v.
  destruct (main_loop_pass_trace w routes Hload)
    as (w' & l & r & body & logs & t & Hrun & Ht & H).
  exists l, r, body, logs. split; [eapply pass_events_of; eauto|].
  destruct H as (H1 & H2 & H3 & H4 & H5 & H6 & H7 & _). auto 10.
Qed.

Lemma unlogged_fetched_nil evs : unlogged evs = [] -> fetched evs = [].
Proof. intros H. now rewrite <- fetched_unlogged, H. Qed.

Lemma unlogged_telegrams_nil evs : unlogged evs = [] -> telegrams evs = [].
Proof. intros H. now rewrite <- telegrams_unlogged, H. Qed.

Lemma fetched_route_actions v prev fs :
  fetched (concat (route_actions env v prev <$> fs)) = fs.
Proof.
  induction fs as [|[r res] fs IH]; [reflexivity|].
  cbn [fmap list_fmap concat]. rewrite fetched_app. unfold route_actions at 1.
  rewrite !fetched_app, fetched_telegram_events. cbn. now rewrite IH.
Qed.

Lemma telegrams_route_actions v prev fs :
  telegrams (concat (route_actions env v prev <$> fs))
  = concat (notification env prev <$> fs).
Proof.
  induction fs as [|[r res] fs IH]; [reflexivity|].
  cbn [fmap list_fmap concat]. rewrite telegrams_app. unfold route_actions at 1.
  rewrite !telegrams_app, telegrams_telegram_events. cbn.
  rewrite app_nil_r. now rewrite IH.
Qed.

Lemma posts_route_actions v prev fs :
  posts (concat (route_actions env v prev <$> fs)) = request_of v <$> fs.*1.
Proof.
  induction fs as [|[r res] fs IH]; [reflexivity|].
  cbn [fmap list_fmap concat]. rewrite posts_app. unfold route_actions at 1.
  rewrite !posts_app, posts_telegram_events. cbn. now rewrite IH.
Qed.

Lemma sleeps_route_actions v prev fs :
  sleeps (concat (route_actions env v prev <$> fs))
  = replicate (length fs) ROUTE_DELAY_SECONDS.
Proof.
  induction fs as [|[r res] fs IH]; [reflexivity|].
  cbn [fmap list_fmap concat]. rewrite sleeps_app. unfold route_actions at 1.
  rewrite !sleeps_app, sleeps_telegram_events. cbn. now rewrite IH.
Qed.

Lemma main_loop_pass_missing_more w :
  routes_file env (S (now w)) = RoutesMissing ->
  exists w' r l,
    main_loop_pass env w = (Ok tt, w') /\
    PREV_PRICES_FILE w' = PREV_PRICES_FILE w /\
    API_VERSION w' = resolved_version env w /\
    r <> NoChanges /\
    trace w' = trace w ++ [HttpGet BUILD_NUMBER_URL; Log l r;
                           Log INFO (UsingVersion (resolved_version env w));
                           Log ERROR RoutesFileNotFound;
                           Sleep (CHECK_INTERVAL_MINUTES * 60)].
Proof.
  intros Hmiss. unfold main_loop_pass.
  destruct (get_current_api_version_more env w)
    as (w1 & r & l & Hrun & Hf & Hn & Ht & Hv & Hr).
  erewrite bind_Ok by exact Hrun. run. rewrite Hn, Hmiss. run.
  eexists _, r, l. split; [reflexivity|]. cbn.
  rewrite Ht, Hv, <- !app_assoc. auto.
Qed.

Lemma main_loop_pass_unreadable_more w e :
  routes_file env (S (now w)) = RoutesUnreadable e ->
  exists w' r l,
    main_loop_pass env w = (Raised e, w') /\
    PREV_PRICES_FILE w' = PREV_PRICES_FILE w /\
    API_VERSION w' = resolved_version env w /\
    r <> NoChanges /\
    trace w' = trace w ++ [HttpGet BUILD_NUMBER_URL; Log l r;
                           Log INFO (UsingVersion (resolved_version env w))].
Proof.
  intros Hbad. unfold main_loop_pass.
  destruct (get_current_api_version_more env w)
    as (w1 & r & l & Hrun & Hf & Hn & Ht & Hv & Hr).
  erewrite bind_Ok by exact Hrun. run. rewrite Hn, Hbad. run.
  eexists _, r, l. split; [reflexivity|]. cbn.
  rewrite Ht, Hv, <- !app_assoc. auto.
Qed.

(** Whatever the routes file is: a pass ends, the trace grows, the version
    is the resolved one and every fare request goes to its URL. *)
Lemma main_loop_pass_any w :
  exists res w' evs,
    main_loop_pass env w = (res, w') /\
    trace w' = trace w ++ evs /\
    API_VERSION w' = resolved_version env w /\
    Forall (fun p => p.1 = farechart_url (resolved_version env w)) (posts evs).
Proof.
  destruct (routes_file env (S (now w))) as [|e|routes] eqn:E.
  - destruct (main_loop_pass_missing_more w E) as (w' & r & l & Hrun & _ & Hv & _ & Ht).
    eexists _, w', _. split; [exact Hrun|]. split; [exact Ht|]. split; [exact Hv|].
    cbn. constructor.
  - destruct (main_loop_pass_unreadable_more w e E)
      as (w' & r & l & Hrun & _ & Hv & _ & Ht).
    eexists _, w', _. split; [exact Hrun|]. split; [exact Ht|]. split; [exact Hv|].
    cbn. constructor.
  - destruct (main_loop_pass_trace w routes E)
      as (w' & l & r & body & logs & t & Hrun & Ht & Hfst & _ & _ & Hu & Hl & _ & _ & Hv & _).
    eexists _, w', _. split; [exact Hrun|]. split; [exact Ht|]. split; [exact Hv|].
    change (SavePrevPrices ?c :: ?l) with ([SavePrevPrices c] ++ l).
    autorewrite with trace_proj. cbn [posts omap app].
    rewrite <- (posts_unlogged body), Hu, posts_route_actions.
    rewrite <- (posts_unlogged logs), Hl. cbn. rewrite app_nil_r.
    apply Forall_fmap, Forall_forall. intros ? _. reflexivity.
Qed.

End PassFacts.

(** ** What a pass does, read off its trace *)

Section PassSummary.

Variable env : Env.

Lemma saves_route_actions v prev fs :
  saves (concat (route_actions env v prev <$> fs)) = [].
Proof.
  induction fs as [|[r res] fs IH]; [reflexivity|].
  cbn [fmap list_fmap concat]. rewrite saves_app, IH, app_nil_r.
  unfold route_actions. cbn. rewrite saves_app. cbn. rewrite app_nil_r.
  clear. induction (notification env prev (r, res)); [reflexivity|assumption].
Qed.

Lemma loads_route_actions v prev fs :
  loads (concat (route_actions env v prev <$> fs)) = [].
Proof.
  induction fs as [|[r res] fs IH]; [reflexivity|].
  cbn [fmap list_fmap concat]. rewrite loads_app, IH, app_nil_r.
  unfold route_actions. cbn. rewrite loads_app. cbn. rewrite app_nil_r.
  clear. induction (notification env prev (r, res)); [reflexivity|assumption].
Qed.

Lemma pass_summary w routes :
  routes_file env (S (now w)) = RoutesLoaded routes ->
  let prev := known_prices (PREV_PRICES_FILE w) in
  let v := resolved_version env w in
  let evs := pass_events env w in
  (fetched evs).*1 = routes /\
  Forall (fun f => truthy_result f.2) (fetched evs) /\
  unlogged evs =
    [HttpGet BUILD_NUMBER_URL; LoadPrevPrices prev]
    ++ concat (route_actions env v prev <$> fetched evs)
    ++ [SavePrevPrices (overlay prev (fetched evs)); Sleep (CHECK_INTERVAL_MINUTES * 60)] /\
  (NoChanges ∈ infos evs <-> existsb is_change (telegrams evs) = false).
Proof.
  intros Hload prev v evs.
  destruct (main_loop_pass_events env w routes Hload)
    as (l & r & body & logs & Hev & Hfst & [Hnc _] & Htr & Hu & Hl & Hany & Hr).
  fold prev v evs in Hev, Hu.
  assert (Hf : fetched evs = fetched body).
  { rewrite Hev. change (SavePrevPrices ?c :: ?l) with ([SavePrevPrices c] ++ l).
    rewrite !fetched_app, (unlogged_fetched_nil logs Hl). cbn. now rewrite app_nil_r. }
  assert (Ht : telegrams evs = telegrams body).
  { rewrite Hev. change (SavePrevPrices ?c :: ?l) with ([SavePrevPrices c] ++ l).
    rewrite !telegrams_app, (unlogged_telegrams_nil logs Hl). cbn. now rewrite app_nil_r. }
  rewrite Hf, Ht. split; [exact Hfst|]. split; [exact Htr|]. split.
  - rewrite Hev. change (SavePrevPrices ?c :: ?l) with ([SavePrevPrices c] ++ l).
    rewrite !unlogged_app, Hu, Hl. reflexivity.
  - rewrite <- Hany, Hev.
    change (SavePrevPrices ?c :: ?l) with ([SavePrevPrices c] ++ l).
    rewrite !infos_app, !elem_of_app.
    split; [|tauto].
    intros [H|[H|[H|[H|H]]]]; try assumption; try contradiction.
    + destruct l; cbn in H.
      * apply elem_of_cons in H. destruct H as [H|H]; [congruence|].
        apply list_elem_of_singleton in H. discriminate H.
      * apply list_elem_of_singleton in H. discriminate H.
    + cbn in H. now apply elem_of_nil in H.
    + cbn in H. now apply elem_of_nil in H.
Qed.

End PassSummary.

Lemma overlay_keeps (k : string) fs : forall cur : gmap string Observation,
  is_Some (cur !! k) -> is_Some (overlay cur fs !! k).
Proof.
  induction fs as [|[r [[p c]|]] fs IH]; intros cur H; cbn.
  - exact H.
  - apply IH. apply lookup_insert_is_Some'. now right.
  - now apply IH.
Qed.

Lemma notification_length env prev f : (length (notification env prev f) <= 1)%nat.
Proof.
  unfold notification. destruct f.2 as [[p c]|]; [|cbn; lia].
  destruct (change_message _ _ _ _ _ _); cbn; lia.
Qed.

Lemma notifications_length env prev fs :
  (length (concat (notification env prev <$> fs)) <= length fs)%nat.
Proof.
  induction fs as [|f fs IH]; cbn; [lia|].
  rewrite length_app. pose proof (notification_length env prev f). lia.
Qed.

Lemma notifications_failures env prev fs :
  length (List.filter is_failure (concat (notification env prev <$> fs)))
  = length (List.filter failed fs).
Proof.
  induction fs as [|[r res] fs IH]; [reflexivity|].
  cbn [fmap list_fmap concat]. rewrite List.filter_app, length_app, IH.
  unfold notification, failed at 2. cbn [fst snd List.filter].
  destruct res as [[p c]|]; cbn [fst snd]; [|reflexivity].
  destruct (change_message _ _ _ _ _ _) as [m|] eqn:E; [|reflexivity].
  apply change_message_is_change in E. cbn. unfold is_failure. now rewrite E.
Qed.

(** X6. The script of a pass that finds its routes. Apart from log records,
    the pass does this and nothing else, in this order: one discovery
    request, one load of the store, then for each route of the registry, in
    order, one fare request, the message for its result if there is one and
    a sleep of ROUTE_DELAY_SECONDS, then one save of the prior store
    overlaid with the results, and the sleep of CHECK_INTERVAL_MINUTES. The
    fare request of a route goes to https://be.wizzair.com/, the version
    resolved at the start of the pass, /Api/asset/farechart, with the
    route's stations, date and adult count (1 when absent) in the body. No
    request is repeated and nothing is saved before the last route. *)
Theorem pass_script env w routes :
  routes_file env (S (now w)) = RoutesLoaded routes ->
  let prev := known_prices (PREV_PRICES_FILE w) in
  let fs := fetched (pass_events env w) in
  fs.*1 = routes /\
  unlogged (pass_events env w) =
    [HttpGet BUILD_NUMBER_URL; LoadPrevPrices prev]
    ++ concat (route_actions env (resolved_version env w) prev <$> fs)
    ++ [SavePrevPrices (overlay prev fs); Sleep (CHECK_INTERVAL_MINUTES * 60)] /\
  posts (pass_events env w) =
    (fun r =>
       (("https://be.wizzair.com/" ++ resolved_version env w ++ "/Api/asset/farechart")%string,
        {| isRescueFare := false;
           adultCount := default 1 (adults r);
           childCount := 0;
           dayInterval := 7;
           wdc := false;
           isFlightChange := false;
           flightList := [ {| departureStation := origin r;
                              arrivalStation := destination r;
                              query_date := (depart_date r ++ "T00:00:00")%string |} ] |}))
    <$> routes.
Proof.
  intros Hload prev fs.
  destruct (pass_summary env w routes Hload) as (H1 & _ & H3 & _).
  split; [exact H1|]. split; [exact H3|].
  rewrite <- posts_unlogged, H3, !posts_app, posts_route_actions, H1.
  cbn [posts app]. rewrite app_nil_r. reflexivity.
Qed.

Lemma pass_script_witness :
  let w := initial_world (Stored Scenario.stored_A) in
  let prev := known_prices (PREV_PRICES_FILE w) in
  let fs := fetched (pass_events Scenario.env_pair w) in
  fs.*1 = [Scenario.OTP_LTN; Scenario.OTP_LTN_pair] /\
  unlogged (pass_events Scenario.env_pair w) =
    [HttpGet BUILD_NUMBER_URL; LoadPrevPrices prev]
    ++ concat (route_actions Scenario.env_pair (resolved_version Scenario.env_pair w) prev
                 <$> fs)
    ++ [SavePrevPrices (overlay prev fs); Sleep (CHECK_INTERVAL_MINUTES * 60)] /\
  posts (pass_events Scenario.env_pair w) =
    (fun r =>
       (("https://be.wizzair.com/" ++ resolved_version Scenario.env_pair w
           ++ "/Api/asset/farechart")%string,
        {| isRescueFare := false;
           adultCount := default 1 (adults r);
           childCount := 0;
           dayInterval := 7;
           wdc := false;
           isFlightChange := false;
           flightList := [ {| departureStation := origin r;
                              arrivalStation := destination r;
                              query_date := (depart_date r ++ "T00:00:00")%string |} ] |}))
    <$> [Scenario.OTP_LTN; Scenario.OTP_LTN_pair].
Proof.
  apply (pass_script Scenario.env_pair (initial_world (Stored Scenario.stored_A))
           [Scenario.OTP_LTN; Scenario.OTP_LTN_pair]).
  reflexivity.
Defined.

(** X7. In a pass that finds its routes, the record that there were no
    price changes is logged exactly when the pass sent no price-change
    message; it is also logged when every fetch failed and a failure message
    went out for every route. *)
Theorem no_changes_record env w routes :
  routes_file env (S (now w)) = RoutesLoaded routes ->
  let evs := pass_events env w in
  (NoChanges ∈ infos evs <-> existsb is_change (telegrams evs) = false) /\
  (forallb failed (fetched evs) = true ->
     NoChanges ∈ infos evs /\ length (telegrams evs) = length routes).
Proof.
  intros Hload evs.
  destruct (pass_summary env w routes Hload) as (H1 & _ & H3 & H4).
  fold evs in H1, H3, H4. split; [exact H4|].
  intros Hall.
  assert (Ht : telegrams evs
               = concat (notification env (known_prices (PREV_PRICES_FILE w))
                           <$> fetched evs)).
  { rewrite <- telegrams_unlogged, H3, !telegrams_app, telegrams_route_actions.
    cbn. now rewrite app_nil_r. }
  rewrite H4, Ht, <- H1, length_fmap. clear -Hall.
  induction (fetched evs) as [|[r res] fs IH]; [now split|].
  cbn [forallb] in Hall. apply andb_true_iff in Hall. destruct Hall as [Hf Hall].
  destruct res as [x|]; [discriminate Hf|].
  destruct (IH Hall) as [IH1 IH2]. cbn. now rewrite IH2.
Qed.

Lemma no_changes_record_witness :
  let evs := pass_events Scenario.env_http_500 (initial_world NoFile) in
  (NoChanges ∈ infos evs <-> existsb is_change (telegrams evs) = false) /\
  (forallb failed (fetched evs) = true ->
     NoChanges ∈ infos evs /\ length (telegrams evs) = length [Scenario.OTP_LTN]).
Proof.
  apply (no_changes_record Scenario.env_http_500 (initial_world NoFile) [Scenario.OTP_LTN]).
  reflexivity.
Defined.

(** X8. Where the entries of the committed store come from: each is an
    entry of the loaded store, unchanged, or an observation that a fetch of
    this pass returned for a route of the registry, stored under that
    route's id, with an amount other than 0 and a currency code that is not
    empty. No key of the loaded store is dropped, and a store whose entries
    all have such amounts and codes stays so. *)
Theorem committed_entries env w routes :
  routes_file env (S (now w)) = RoutesLoaded routes ->
  let prev := known_prices (PREV_PRICES_FILE w) in
  exists cur,
    saves (pass_events env w) = [cur] /\
    (forall k o, cur !! k = Some o ->
       prev !! k = Some o \/
       ((exists r, r ∈ routes /\ get_route_id r = k
                   /\ (r, Some (price o, currency o)) ∈ fetched (pass_events env w))
        /\ Num.truthy (price o) = true /\ currency o <> EmptyString)) /\
    (forall k, is_Some (prev !! k) -> is_Some (cur !! k)) /\
    (truthy_store prev -> truthy_store cur).
Proof.
  intros Hload prev.
  destruct (pass_summary env w routes Hload) as (H1 & H2 & H3 & _).
  fold prev in H3. set (fs := fetched (pass_events env w)) in *.
  exists (overlay prev fs).
  assert (Horigin : forall k o, overlay prev fs !! k = Some o ->
            prev !! k = Some o \/
            ((exists r, r ∈ routes /\ get_route_id r = k
                        /\ (r, Some (price o, currency o)) ∈ fs)
             /\ Num.truthy (price o) = true /\ currency o <> EmptyString)).
  { intros k o Hk. apply overlay_origin in Hk. destruct Hk as [Hk|(r & Hin & Hid)].
    - now left.
    - right. split.
      + exists r. split; [|split; [exact Hid|exact Hin]]. rewrite <- H1.
        apply list_elem_of_fmap. now exists (r, Some (price o, currency o)).
      + rewrite Forall_forall in H2. exact (H2 _ Hin _ _ eq_refl). }
  split.
  { rewrite <- saves_unlogged, H3, !saves_app, saves_route_actions. reflexivity. }
  split; [exact Horigin|]. split; [intros k; apply overlay_keeps|].
  intros Hprev k o Hk. destruct (Horigin k o Hk) as [Hp|[_ Ht]]; [eauto|exact Ht].
Qed.

Lemma committed_entries_witness :
  let w := initial_world (Stored Scenario.stored_A) in
  let prev := known_prices (PREV_PRICES_FILE w) in
  exists cur,
    saves (pass_events Scenario.env_no_version w) = [cur] /\
    (forall k o, cur !! k = Some o ->
       prev !! k = Some o \/
       ((exists r, r ∈ [Scenario.OTP_LTN; Scenario.BUD_FCO] /\ get_route_id r = k
                   /\ (r, Some (price o, currency o))
                        ∈ fetched (pass_events Scenario.env_no_version w))
        /\ Num.truthy (price o) = true /\ currency o <> EmptyString)) /\
    (forall k, is_Some (prev !! k) -> is_Some (cur !! k)) /\
    (truthy_store prev -> truthy_store cur).
Proof.
  apply (committed_entries Scenario.env_no_version (initial_world (Stored Scenario.stored_A))
           [Scenario.OTP_LTN; Scenario.BUD_FCO]).
  reflexivity.
Defined.

(** X9. Messages of a pass that finds its routes: at most one per route,
    and exactly one failure message for each fetch that returned None. *)
Theorem message_accounting env w routes :
  routes_file env (S (now w)) = RoutesLoaded routes ->
  let evs := pass_events env w in
  (length (telegrams evs) <= length routes)%nat /\
  length (List.filter is_failure (telegrams evs))
  = length (List.filter failed (fetched evs)).
Proof.
  intros Hload evs.
  destruct (pass_summary env w routes Hload) as (H1 & _ & H3 & _).
  fold evs in H1, H3.
  assert (Ht : telegrams evs
               = concat (notification env (known_prices (PREV_PRICES_FILE w))
                           <$> fetched evs)).
  { rewrite <- telegrams_unlogged, H3, !telegrams_app, telegrams_route_actions.
    cbn. now rewrite app_nil_r. }
  rewrite Ht. split.
  - rewrite <- H1, length_fmap. apply notifications_length.
  - apply notifications_failures.
Qed.

Lemma message_accounting_witness :
  let evs := pass_events Scenario.env_pair (initial_world NoFile) in
  (length (telegrams evs) <= length [Scenario.OTP_LTN; Scenario.OTP_LTN_pair])%nat /\
  length (List.filter is_failure (telegrams evs))
  = length (List.filter failed (fetched evs)).
Proof.
  apply (message_accounting Scenario.env_pair (initial_world NoFile)
           [Scenario.OTP_LTN; Scenario.OTP_LTN_pair]).
  reflexivity.
Defined.

(** ** Several turns of the loop *)

Section LoopFacts.

Variable env : Env.

(** An invariant of the version carries over any number of turns, and to
    the URL of every fare request. *)
Lemma passes_version_invariant (I : string -> Prop) :
  (forall w, I (API_VERSION w) -> I (resolved_version env w)) ->
  forall n w, I (API_VERSION w) ->
  exists res w' evs,
    passes env n w = (res, w') /\
    trace w' = trace w ++ evs /\
    I (API_VERSION w') /\
    Forall (fun p => exists v, I v /\ p.1 = farechart_url v) (posts evs).
Proof.
  intros Hstep. induction n as [|n IH]; intros w HI.
  - exists (Ok tt), w, []. cbn. rewrite app_nil_r. auto.
  - destruct (main_loop_pass_any env w) as (res & w1 & e1 & Hrun & Ht & Hv & Hp).
    assert (Hp' : Forall (fun p => exists v, I v /\ p.1 = farechart_url v) (posts e1)).
    { eapply Forall_impl; [exact Hp|]. intros p Hpu. eauto. }
    destruct res as [[]|e].
    + rewrite (passes_S env n w w1 Hrun).
      destruct (IH w1) as (res & w' & e2 & Hrun2 & Ht2 & HI2 & Hp2).
      { rewrite Hv. auto. }
      exists res, w', (e1 ++ e2). split; [exact Hrun2|].
      split; [rewrite Ht2, Ht, app_assoc; reflexivity|]. split; [exact HI2|].
      rewrite posts_app. now apply Forall_app.
    + exists (Raised e), w1, e1. cbn [passes].
      split; [now apply bind_Raised|]. split; [exact Ht|].
      split; [rewrite Hv; auto|exact Hp'].
Qed.

Lemma loop_events_of n w res w' evs :
  passes env n w = (res, w') -> trace w' = trace w ++ evs -> loop_events env n w = evs.
Proof.
  intros Hrun Ht. unfold loop_events. rewrite Hrun. cbn [snd].
  rewrite Ht. apply drop_app_length.
Qed.

End LoopFacts.

(** X10. While version discovery gives no version (the request fails, is
    answered with an error status, or the page holds no version), the
    version is kept over any number of turns of the loop, and every fare
    request of these turns goes to https://be.wizzair.com/, the version the
    loop started with, /Api/asset/farechart. *)
Theorem version_kept_while_discovery_down env n w :
  discovery_down env ->
  API_VERSION (passes env n w).2 = API_VERSION w /\
  Forall (fun p => p.1 = ("https://be.wizzair.com/" ++ API_VERSION w
                            ++ "/Api/asset/farechart")%string)
    (posts (loop_events env n w)).
Proof.
  intros Hdown.
  destruct (passes_version_invariant env (fun v => v = API_VERSION w)) with (n := n) (w := w)
    as (res & w' & evs & Hrun & Ht & Hv & Hp).
  - intros w0 H0. unfold resolved_version. specialize (Hdown (now w0)).
    destruct (http_get env (now w0) BUILD_NUMBER_URL) as [e|st body|text]; try exact H0.
    rewrite Hdown. exact H0.
  - reflexivity.
  - rewrite (loop_events_of env n w res w' evs Hrun Ht), Hrun. split; [exact Hv|].
    eapply Forall_impl; [exact Hp|]. intros p (v & -> & Hpu). exact Hpu.
Qed.

Lemma version_kept_while_discovery_down_witness :
  API_VERSION (passes Scenario.env_no_version 3 (initial_world NoFile)).2
  = API_VERSION (initial_world NoFile) /\
  Forall (fun p => p.1 = ("https://be.wizzair.com/" ++ API_VERSION (initial_world NoFile)
                            ++ "/Api/asset/farechart")%string)
    (posts (loop_events Scenario.env_no_version 3 (initial_world NoFile))).
Proof.
  apply (version_kept_while_discovery_down Scenario.env_no_version 3 (initial_world NoFile)).
  intros t. exact I.
Defined.

(** X11. A version of the shape digits.digits.digits, where a digit is a
    decimal digit of Unicode, keeps that shape over any number of turns of
    the loop, whatever discovery answers, and every fare request goes to
    https://be.wizzair.com/, a version of that shape, /Api/asset/farechart. *)
Theorem version_stays_shaped env n w :
  version_shaped (decimal_digit env) (API_VERSION w) ->
  version_shaped (decimal_digit env) (API_VERSION (passes env n w).2) /\
  Forall (fun p => exists v,
            version_shaped (decimal_digit env) v
            /\ p.1 = ("https://be.wizzair.com/" ++ v ++ "/Api/asset/farechart")%string)
    (posts (loop_events env n w)).
Proof.
  intros Hw.
  destruct (passes_version_invariant env (version_shaped (decimal_digit env)))
    with (n := n) (w := w) as (res & w' & evs & Hrun & Ht & Hv & Hp).
  - intros w0 H0. unfold resolved_version.
    destruct (http_get env (now w0) BUILD_NUMBER_URL) as [e|st body|text]; try exact H0.
    destruct (Pattern.search_version (decimal_digit env) text) as [v|] eqn:E; [|exact H0].
    apply search_version_spec in E. destruct E as (pre & rest & _ & Hs & _). exact Hs.
  - exact Hw.
  - rewrite (loop_events_of env n w res w' evs Hrun Ht), Hrun. now split.
Qed.

Lemma version_stays_shaped_witness :
  version_shaped (decimal_digit Scenario.env_single)
    (API_VERSION (passes Scenario.env_single 2 (initial_world NoFile)).2) /\
  Forall (fun p => exists v,
            version_shaped (decimal_digit Scenario.env_single) v
            /\ p.1 = ("https://be.wizzair.com/" ++ v ++ "/Api/asset/farechart")%string)
    (posts (loop_events Scenario.env_single 2 (initial_world NoFile))).
Proof.
  apply (version_stays_shaped Scenario.env_single 2 (initial_world NoFile)).
  exists "27", "36", "0". repeat split; discriminate.
Defined.

(** ** From one pass to the next *)

Lemma pass_loads env w routes :
  routes_file env (S (now w)) = RoutesLoaded routes ->
  loads (pass_events env w) = [known_prices (PREV_PRICES_FILE w)].
Proof.
  intros Hload. destruct (pass_summary env w routes Hload) as (_ & _ & H3 & _).
  rewrite <- loads_unlogged, H3, !loads_app, loads_route_actions. reflexivity.
Qed.

Lemma pass_saves env w routes :
  routes_file env (S (now w)) = RoutesLoaded routes ->
  saves (pass_events env w)
  = [overlay (known_prices (PREV_PRICES_FILE w)) (fetched (pass_events env w))].
Proof.
  intros Hload. destruct (pass_summary env w routes Hload) as (_ & _ & H3 & _).
  rewrite <- saves_unlogged, H3, !saves_app, saves_route_actions. reflexivity.
Qed.

Lemma pass_file env w routes :
  routes_file env (S (now w)) = RoutesLoaded routes ->
  exists t cur,
    saves (pass_events env w) = [cur] /\
    PREV_PRICES_FILE (main_loop_pass env w).2 =
      match fs_write env t cur with
      | Written => Stored cur
      | OpenRaised _ => PREV_PRICES_FILE w
      | DumpRaised _ => Unparseable
      end.
Proof.
  intros Hload.
  destruct (main_loop_pass_trace env w routes Hload)
    as (w' & l & r & body & logs & t & Hrun & Ht & _ & _ & _ & _ & Hl & _ & _ & _ & Hfile).
  exists t, (overlay (known_prices (PREV_PRICES_FILE w)) (fetched body)).
  rewrite Hrun. split; [|exact Hfile].
  rewrite (pass_saves env w routes Hload).
  rewrite (pass_events_of env w w' _ (Ok tt) Hrun Ht).
  change (SavePrevPrices ?c :: ?l) with ([SavePrevPrices c] ++ l).
  rewrite !fetched_app, (unlogged_fetched_nil logs Hl). cbn. now rewrite app_nil_r.
Qed.

(** X12. From one pass to the next, when both find their routes: if the
    write of the state file succeeds, the next pass loads the store that
    this pass saved; if the file cannot be opened for writing, the next pass
    loads what this pass loaded, so the observations of this pass are lost;
    if the dump fails after the file was opened, the next pass starts from
    the empty store. *)
Theorem next_pass_loads env w routes routes' :
  let w' := (main_loop_pass env w).2 in
  routes_file env (S (now w)) = RoutesLoaded routes ->
  routes_file env (S (now w')) = RoutesLoaded routes' ->
  ((forall t d, fs_write env t d = Written) ->
     loads (pass_events env w') = saves (pass_events env w)) /\
  ((forall t d, exists e, fs_write env t d = OpenRaised e) ->
     loads (pass_events env w') = loads (pass_events env w)) /\
  ((forall t d, exists e, fs_write env t d = DumpRaised e) ->
     loads (pass_events env w') = [∅]).
Proof.
  intros w' Hload Hload'.
  rewrite (pass_loads env w' routes' Hload'), (pass_loads env w routes Hload).
  destruct (pass_file env w routes Hload) as (t & cur & Hs & Hf).
  fold w' in Hf. rewrite Hs, Hf.
  split; [|split]; intros Hw.
  - now rewrite Hw.
  - destruct (Hw t cur) as [e ->]. reflexivity.
  - destruct (Hw t cur) as [e ->]. reflexivity.
Qed.

Lemma next_pass_loads_witness :
  let w := initial_world (Stored Scenario.stored_A) in
  let w' := (main_loop_pass Scenario.env_readonly w).2 in
  ((forall t d, fs_write Scenario.env_readonly t d = Written) ->
     loads (pass_events Scenario.env_readonly w')
     = saves (pass_events Scenario.env_readonly w)) /\
  ((forall t d, exists e, fs_write Scenario.env_readonly t d = OpenRaised e) ->
     loads (pass_events Scenario.env_readonly w')
     = loads (pass_events Scenario.env_readonly w)) /\
  ((forall t d, exists e, fs_write Scenario.env_readonly t d = DumpRaised e) ->
     loads (pass_events Scenario.env_readonly w') = [∅]).
Proof.
  apply (next_pass_loads Scenario.env_readonly (initial_world (Stored Scenario.stored_A))
           [Scenario.OTP_LTN] [Scenario.OTP_LTN]); reflexivity.
Defined.

(** X13. A routes file that exists but cannot be read ends the loop: the
    error is raised out of [main_loop] in the first turn, after the
    discovery request and before anything is loaded, fetched, sent, saved or
    slept; the state file is as it was. *)
Theorem unreadable_routes_end_loop env n w e :
  routes_file env (S (now w)) = RoutesUnreadable e ->
  exists w',
    main_loop env (S n) w = (Raised e, w') /\
    unlogged (drop (length (trace w)) (trace w')) = [HttpGet BUILD_NUMBER_URL] /\
    PREV_PRICES_FILE w' = PREV_PRICES_FILE w.
Proof.
  intros Hbad. unfold main_loop. run.
  match goal with |- context [passes env (S n) ?w0] => set (w1 := w0) end.
  destruct (main_loop_pass_unreadable_more env w1 e Hbad)
    as (w' & r & l & Hrun & Hf & _ & _ & Ht).
  exists w'. cbn [passes]. rewrite (bind_Raised _ _ _ _ _ Hrun).
  split; [reflexivity|]. split; [|exact Hf].
  rewrite Ht. subst w1. cbn [trace]. rewrite <- app_assoc, drop_app_length. reflexivity.
Qed.

Lemma unreadable_routes_end_loop_witness :
  exists w',
    main_loop Startup.env_unreadable 5 (initial_world (Stored Scenario.stored_A))
      = (Raised "JSONDecodeError", w') /\
    unlogged (drop (length (trace (initial_world (Stored Scenario.stored_A)))) (trace w'))
      = [HttpGet BUILD_NUMBER_URL] /\
    PREV_PRICES_FILE w' = PREV_PRICES_FILE (initial_world (Stored Scenario.stored_A)).
Proof.
  apply (unreadable_routes_end_loop Startup.env_unreadable 4
           (initial_world (Stored Scenario.stored_A)) "JSONDecodeError").
  reflexivity.
Defined.

(** ** The scan of the calendar *)

(** X14. Calendar entries of other dates have no influence on a fetch:
    scanning the calendar gives the same result, the same log records and
    the same state as scanning only the entries of the requested date. *)
Theorem find_price_other_dates target flights w :
  find_price target flights w
  = find_price target (filter (fun flight => date flight = Some target) flights) w.
Proof.
  induction flights as [|flight rest IH]; [reflexivity|].
  cbn [find_price]. destruct (decide (date flight = Some target)) as [E|E].
  - rewrite filter_cons_True by exact E. cbn [find_price].
    destruct (decide (date flight = Some target)); [|contradiction].
    destruct (decide (priceType flight = Some "price")); [|reflexivity].
    destruct (flight_price flight ≫= amount) as [p|]; [|exact IH].
    destruct (flight_price flight ≫= currencyCode) as [c|]; [|exact IH].
    destruct (Num.truthy p && negb (String.eqb c EmptyString))%bool; [reflexivity|exact IH].
  - rewrite filter_cons_False by exact E. exact IH.
Qed.

(** ** A pass in which nothing moved *)

Lemma steady_notification env prev f :
  (exists p c, f.2 = Some (p, c)
               /\ prev !! get_route_id f.1 = Some {| price := p; currency := c |}) ->
  notification env prev f = [] /\ stage prev f = prev.
Proof.
  destruct f as [r res]. cbn [fst snd]. intros (p & c & -> & Hk). split.
  - unfold notification. cbn [fst snd]. rewrite Hk. unfold change_message. cbn [price].
    rewrite sub_diag_small. reflexivity.
  - cbn. now apply insert_id.
Qed.

Lemma steady_overlay env prev fs :
  steady prev fs ->
  concat (notification env prev <$> fs) = [] /\ overlay prev fs = prev.
Proof.
  unfold steady. induction 1 as [|f fs Hf _ IH]; [now split|].
  destruct (steady_notification env prev f Hf) as [Hn Hs].
  destruct IH as [IH1 IH2]. cbn [fmap list_fmap concat overlay foldl].
  rewrite Hn, Hs. split; [exact IH1|exact IH2].
Qed.

(** X15. A pass in which every fetch returns exactly what the store holds
    for its route sends no message, saves the store it loaded, and logs that
    there were no changes. *)
Theorem steady_pass env w routes :
  routes_file env (S (now w)) = RoutesLoaded routes ->
  steady (known_prices (PREV_PRICES_FILE w)) (fetched (pass_events env w)) ->
  telegrams (pass_events env w) = [] /\
  saves (pass_events env w) = loads (pass_events env w) /\
  NoChanges ∈ infos (pass_events env w).
Proof.
  intros Hload Hsteady.
  destruct (steady_overlay env _ _ Hsteady) as [Hn Ho].
  destruct (pass_summary env w routes Hload) as (_ & _ & H3 & H4).
  assert (Ht : telegrams (pass_events env w) = []).
  { rewrite <- telegrams_unlogged, H3, !telegrams_app, telegrams_route_actions, Hn.
    reflexivity. }
  split; [exact Ht|]. split.
  - rewrite (pass_saves env w routes Hload), (pass_loads env w routes Hload), Ho.
    reflexivity.
  - apply H4. now rewrite Ht.
Qed.

Lemma steady_pass_witness :
  let evs := pass_events Startup.env_steady (initial_world (Stored Scenario.stored_A)) in
  telegrams evs = [] /\ saves evs = loads evs /\ NoChanges ∈ infos evs.
Proof.
  apply (steady_pass Startup.env_steady (initial_world (Stored Scenario.stored_A))
           [Scenario.OTP_LTN]).
  - reflexivity.
  - constructor; [|constructor]. exists (Num.of_decimal 100), "EUR". split; reflexivity.
Defined.

(** ** Runs that differ in the log only *)

Lemma same_actions_refl w : same_actions w w.
Proof. now repeat split. Qed.

Lemma agree_ret {A : Type} (x : A) : agree (mret x : M A) (mret x).
Proof. intros w1 w2 H. now split. Qed.

Lemma agree_bind {A B : Type} (m1 m2 : M A) (k1 k2 : A -> M B) :
  agree m1 m2 -> (forall x, agree (k1 x) (k2 x)) -> agree (m1 ≫= k1) (m2 ≫= k2).
Proof.
  intros Hm Hk w1 w2 H. destruct (Hm w1 w2 H) as [Hr Hw].
  unfold mbind, M_bind.
  destruct (m1 w1) as [[x1|e1] w1'], (m2 w2) as [[x2|e2] w2']; cbn in Hr, Hw;
    try discriminate Hr.
  - injection Hr as <-. now apply Hk.
  - injection Hr as <-. now split.
Qed.

Lemma agree_emit e : agree (emit e) (emit e).
Proof.
  intros w1 w2 (Hv & Hf & Hn & Ht). unfold emit. cbn.
  split; [reflexivity|]. unfold same_actions. cbn.
  rewrite !unlogged_app, Ht. auto.
Qed.

Lemma agree_log l1 r1 l2 r2 : agree (emit (Log l1 r1)) (emit (Log l2 r2)).
Proof.
  intros w1 w2 (Hv & Hf & Hn & Ht). unfold emit. cbn.
  split; [reflexivity|]. unfold same_actions. cbn.
  rewrite !unlogged_app, Ht. auto.
Qed.

Lemma agree_tick : agree tick tick.
Proof.
  intros w1 w2 (Hv & Hf & Hn & Ht). unfold tick. cbn.
  split; [now rewrite Hn|]. unfold same_actions. cbn. auto.
Qed.

Lemma agree_get_API_VERSION : agree get_API_VERSION get_API_VERSION.
Proof.
  intros w1 w2 (Hv & Hf & Hn & Ht). unfold get_API_VERSION. cbn.
  split; [now rewrite Hv|]. now repeat split.
Qed.

Lemma agree_set_API_VERSION v : agree (set_API_VERSION v) (set_API_VERSION v).
Proof.
  intros w1 w2 (Hv & Hf & Hn & Ht). unfold set_API_VERSION. cbn.
  split; [reflexivity|]. unfold same_actions. cbn. auto.
Qed.

Lemma agree_read_PREV_PRICES_FILE : agree read_PREV_PRICES_FILE read_PREV_PRICES_FILE.
Proof.
  intros w1 w2 (Hv & Hf & Hn & Ht). unfold read_PREV_PRICES_FILE. cbn.
  split; [now rewrite Hf|]. now repeat split.
Qed.

Lemma agree_write_PREV_PRICES_FILE f :
  agree (write_PREV_PRICES_FILE f) (write_PREV_PRICES_FILE f).
Proof.
  intros w1 w2 (Hv & Hf & Hn & Ht). unfold write_PREV_PRICES_FILE. cbn.
  split; [reflexivity|]. unfold same_actions. cbn. auto.
Qed.

Lemma agree_raise {A : Type} e : agree (raise e : M A) (raise e).
Proof. intros w1 w2 H. now split. Qed.

Ltac agree_step :=
  first [ apply agree_ret | apply agree_log | apply agree_emit | apply agree_tick
        | apply agree_get_API_VERSION | apply agree_set_API_VERSION
        | apply agree_read_PREV_PRICES_FILE | apply agree_write_PREV_PRICES_FILE
        | apply agree_raise
        | apply agree_bind; [|intros ?] ].

Ltac agree_auto := repeat agree_step.

Lemma agree_find_price target flights :
  agree (find_price target flights) (find_price target flights).
Proof.
  induction flights as [|flight rest IH]; cbn [find_price].
  - agree_auto.
  - destruct (decide (date flight = Some target)); [|exact IH].
    destruct (decide (priceType flight = Some "price")); [|agree_auto].
    destruct (flight_price flight ≫= amount) as [p|]; [|exact IH].
    destruct (flight_price flight ≫= currencyCode) as [c|]; [|exact IH].
    destruct (Num.truthy p && negb (String.eqb c EmptyString))%bool; [agree_auto|exact IH].
Qed.

Lemma agree_load_prev_prices : agree load_prev_prices load_prev_prices.
Proof. unfold load_prev_prices. agree_auto. Qed.

(** The search depends on the digit class through its values only. *)
Lemma search_version_ext (d d' : N -> bool) :
  (forall cp, d cp = d' cp) ->
  forall text, Pattern.search_version d text = Pattern.search_version d' text.
Proof.
  intros Hd.
  assert (Hi : forall cp, Pattern.is_digit d cp = Pattern.is_digit d' cp).
  { intros cp. unfold Pattern.is_digit. now rewrite Hd. }
  assert (Hu : forall n s, Pattern.take_digits_upto d n s = Pattern.take_digits_upto d' n s).
  { induction n as [|n IH]; intros s; [reflexivity|]. cbn [Pattern.take_digits_upto].
    destruct (Pattern.code_point s) as [[[cp b] r]|]; [|reflexivity].
    now rewrite Hi, IH. }
  assert (H1 : forall s, Pattern.digits1 d s = Pattern.digits1 d' s).
  { intros s. unfold Pattern.digits1, Pattern.take_digits. now rewrite Hu. }
  assert (Hv : forall s, Pattern.version_at d s = Pattern.version_at d' s).
  { intros s. unfold Pattern.version_at. cbn [mbind option_bind]. rewrite (H1 s).
    destruct (Pattern.digits1 d' s) as [[a r1]|]; [|reflexivity]. cbn.
    destruct (Pattern.dot r1) as [r2|]; [|reflexivity]. cbn. rewrite (H1 r2).
    destruct (Pattern.digits1 d' r2) as [[b r3]|]; [|reflexivity]. cbn.
    destruct (Pattern.dot r3) as [r4|]; [|reflexivity]. cbn. now rewrite (H1 r4). }
  assert (Hm : forall s, Pattern.match_here d s = Pattern.match_here d' s).
  { intros s. unfold Pattern.match_here.
    destruct (Pattern.strip_prefix Pattern.HOST s); [apply Hv|reflexivity]. }
  induction text as [|c text IH]; cbn [Pattern.search_version]; rewrite Hm; [reflexivity|].
  now rewrite IH.
Qed.

Section TelegramOutcome.

Variables env env' : Env.
Hypothesis Hsame : same_but_telegram env env'.

Lemma same_city code :
  get_city_name_with_code env code = get_city_name_with_code env' code.
Proof. unfold get_city_name_with_code. destruct Hsame as [-> _]. reflexivity. Qed.

Lemma agree_get_current_api_version :
  agree (get_current_api_version env) (get_current_api_version env').
Proof.
  unfold get_current_api_version. agree_auto.
  destruct Hsame as (_ & Hd & <- & _).
  destruct (http_get env x BUILD_NUMBER_URL) as [e|st body|text]; agree_auto.
  rewrite <- (search_version_ext _ _ Hd text).
  destruct (Pattern.search_version (decimal_digit env) text) as [v|]; agree_auto.
  destruct (decide (v <> x1)); agree_auto.
Qed.

Lemma agree_send_telegram msg : agree (send_telegram env msg) (send_telegram env' msg).
Proof.
  unfold send_telegram. agree_auto.
  destruct (telegram_post env x msg), (telegram_post env' x msg); agree_auto.
Qed.

Lemma agree_check_route_price o d dd a :
  agree (check_route_price env o d dd a) (check_route_price env' o d dd a).
Proof.
  unfold check_route_price. agree_auto.
  destruct Hsame as (_ & _ & _ & <- & _).
  match goal with |- context [http_post env ?t ?u ?p] =>
    destruct (http_post env t u p) as [e|st body|[data|]] end; agree_auto.
  apply agree_find_price.
Qed.

Lemma agree_save_prev_prices data :
  agree (save_prev_prices env data) (save_prev_prices env' data).
Proof.
  unfold save_prev_prices. agree_auto.
  destruct Hsame as (_ & _ & _ & _ & _ & <-).
  destruct (fs_write env x data); agree_auto.
Qed.

Lemma agree_handle_result prev route result cur any :
  agree (handle_result env prev route result cur any)
        (handle_result env' prev route result cur any).
Proof.
  unfold handle_result. rewrite <- !same_city.
  destruct result as [[p c]|].
  - destruct (change_message _ _ _ p c (prev !! get_route_id route)) as [msg|].
    + apply agree_bind; [apply agree_send_telegram|intros ?; agree_auto].
    + agree_auto.
  - apply agree_bind; [apply agree_send_telegram|intros ?; agree_auto].
Qed.

Lemma agree_check_route prev total idx route cur any :
  agree (check_route env prev total idx route cur any)
        (check_route env' prev total idx route cur any).
Proof.
  unfold check_route.
  apply agree_bind; [apply agree_log|intros ?].
  apply agree_bind; [apply agree_check_route_price|intros result].
  apply agree_bind; [apply agree_emit|intros ?].
  apply agree_bind; [apply agree_handle_result|intros st].
  agree_auto.
Qed.

Lemma agree_for_routes prev total routes : forall idx cur any,
  agree (for_routes env prev total idx routes cur any)
        (for_routes env' prev total idx routes cur any).
Proof.
  induction routes as [|route rest IH]; intros idx cur any; cbn [for_routes].
  - agree_auto.
  - apply agree_bind; [apply agree_check_route|intros [cur' any']]. apply IH.
Qed.

Lemma agree_main_loop_pass : agree (main_loop_pass env) (main_loop_pass env').
Proof.
  unfold main_loop_pass.
  apply agree_bind; [apply agree_get_current_api_version|intros ?].
  apply agree_bind; [apply agree_get_API_VERSION|intros v].
  apply agree_bind; [apply agree_log|intros ?].
  apply agree_bind; [apply agree_tick|intros t].
  destruct Hsame as (_ & _ & _ & _ & <- & _).
  destruct (routes_file env t) as [|e|routes]; [agree_auto..|].
  apply agree_bind; [apply agree_load_prev_prices|intros prev].
  apply agree_bind; [apply agree_for_routes|intros [cur any]].
  apply agree_bind; [apply agree_save_prev_prices|intros ?].
  apply agree_bind; [destruct any; agree_auto|intros ?].
  agree_auto.
Qed.

Lemma agree_passes n : agree (passes env n) (passes env' n).
Proof.
  induction n as [|n IH]; cbn [passes]; [agree_auto|].
  apply agree_bind; [apply agree_main_loop_pass|intros ?; exact IH].
Qed.

Lemma agree_main_loop n : agree (main_loop env n) (main_loop env' n).
Proof.
  unfold main_loop. apply agree_bind; [apply agree_log|intros ?; apply agree_passes].
Qed.

End TelegramOutcome.

(** X16. What Telegram answers shows in the log only. Two runs of the loop
    whose environments differ at most in the outcome of the Telegram
    requests end the same way, with the same version and state file, and
    make the same requests, send the same messages, save the same stores and
    sleep the same, in the same order: a message that could not be delivered
    is neither sent again nor reflected in the store. *)
Theorem telegram_outcome_only_logged env env' n w :
  same_but_telegram env env' ->
  (main_loop env n w).1 = (main_loop env' n w).1 /\
  same_actions (main_loop env n w).2 (main_loop env' n w).2.
Proof.
  intros Hsame. apply (agree_main_loop env env' Hsame n w w (same_actions_refl w)).
Qed.

Lemma telegram_outcome_only_logged_witness :
  (main_loop Scenario.env_single 2 (initial_world NoFile)).1
  = (main_loop Startup.env_telegram_down 2 (initial_world NoFile)).1 /\
  same_actions (main_loop Scenario.env_single 2 (initial_world NoFile)).2
               (main_loop Startup.env_telegram_down 2 (initial_world NoFile)).2.
Proof.
  apply (telegram_outcome_only_logged Scenario.env_single Startup.env_telegram_down 2
           (initial_world NoFile)).
  repeat split.
Defined.
